(** * Smart Gmail Notifier: extraction, sanitizing, classification, dedup

    A shallow embedding of [gmail.js] (body extraction), [ai.js]
    (cleaning, rule fallback, AI call and context hints) and the
    background worker's processed-message set.

    JavaScript strings are modelled as lists of 8-bit characters, read as
    the UTF-16 code units 0..255 (Latin-1).  Regular expressions of the
    source are written out as the scanning functions they denote. *)

From Stdlib Require Import List Ascii String Bool Arith Lia ZArith QArith.
Import ListNotations.

Local Close Scope Q_scope.
Local Open Scope list_scope.
Set Warnings "-register-all".

(** ** JavaScript string layer *)

Definition jstr := list ascii.

Definition js (s : string) : jstr := list_ascii_of_string s.

Definition code (c : ascii) : nat := nat_of_ascii c.

(** [\s] of a JavaScript regular expression, and the characters [trim]
    removes, restricted to code units 0..255: TAB, LF, VT, FF, CR, SPACE
    and NBSP. *)
Definition is_ws (c : ascii) : bool :=
  let n := code c in ((9 <=? n) && (n <=? 13)) || (n =? 32) || (n =? 160).

(** Line terminators (what [.] does not match). *)
Definition is_lt (c : ascii) : bool :=
  let n := code c in (n =? 10) || (n =? 13).

Definition is_upper_ascii (c : ascii) : bool :=
  let n := code c in (65 <=? n) && (n <=? 90).

Definition is_letter_ascii (c : ascii) : bool :=
  let n := code c in ((65 <=? n) && (n <=? 90)) || ((97 <=? n) && (n <=? 122)).

(** Case folding used by the [i] flag for the ASCII patterns of the
    source. *)
Definition fold_ci (c : ascii) : ascii :=
  if is_upper_ascii c then ascii_of_nat (code c + 32) else c.

(** [String.prototype.toLowerCase] on code units 0..255. *)
Definition js_lower_char (c : ascii) : ascii :=
  let n := code c in
  if ((65 <=? n) && (n <=? 90)) || ((192 <=? n) && (n <=? 222) && negb (n =? 215))
  then ascii_of_nat (n + 32) else c.

Definition toLowerCase (s : jstr) : jstr := map js_lower_char s.

Fixpoint jstr_eqb (a b : jstr) : bool :=
  match a, b with
  | [], [] => true
  | x :: a', y :: b' => Ascii.eqb x y && jstr_eqb a' b'
  | _, _ => false
  end.

Definition is_empty (s : jstr) : bool :=
  match s with [] => true | _ => false end.

(** [p] matches at the start of [s] (case sensitive). *)
Fixpoint prefixb (p s : jstr) : bool :=
  match p, s with
  | [], _ => true
  | a :: p', b :: s' => Ascii.eqb a b && prefixb p' s'
  | _ :: _, [] => false
  end.

(** [p] matches at the start of [s] under the [i] flag. *)
Fixpoint prefix_ci (p s : jstr) : bool :=
  match p, s with
  | [], _ => true
  | a :: p', b :: s' => Ascii.eqb (fold_ci a) (fold_ci b) && prefix_ci p' s'
  | _ :: _, [] => false
  end.

(** [/p/.test(s)] for a literal [p], case sensitive and with [i]. *)
Fixpoint contains (p s : jstr) : bool :=
  prefixb p s || match s with [] => false | _ :: s' => contains p s' end.

Fixpoint contains_ci (p s : jstr) : bool :=
  prefix_ci p s || match s with [] => false | _ :: s' => contains_ci p s' end.

(** A regex that is an alternation of literals. *)
Definition test (ci : bool) (alts : list jstr) (s : jstr) : bool :=
  existsb (fun p => if ci then contains_ci p s else contains p s) alts.

(** ** [gmail.js]: [GmailAPI.extractEmailBody] *)

Module Gmail.

(** A Gmail message part: [mimeType], [body.data] and [parts].  A missing
    [mimeType] or [body.data] is the empty string (both are falsy in the
    source); a missing [parts] array is [None] and an empty one [Some []]. *)
Inductive RawMessage : Type :=
| Part (mimeType : jstr) (data : jstr) (parts : option (list RawMessage)).

Definition mimeType (m : RawMessage) : jstr := let 'Part t _ _ := m in t.
Definition data (m : RawMessage) : jstr := let 'Part _ d _ := m in d.
Definition parts (m : RawMessage) : option (list RawMessage) :=
  let 'Part _ _ ps := m in ps.

Definition text_plain : jstr := js "text/plain".
Definition text_html : jstr := js "text/html".

Section Extract.

(** [decodeURIComponent(atob(.).split('').map(...).join(''))]: [None]
    when [atob] or [decodeURIComponent] throws. *)
Variable atob_utf8 : jstr -> option jstr.

(** [stripHtml] never throws (its own [catch] falls back to a regex). *)
Variable stripHtml : jstr -> jstr.

(** [base64String.replace(/-/g, '+').replace(/_/g, '/')] *)
Definition normalize_b64 (s : jstr) : jstr :=
  map (fun c => if Ascii.eqb c "-"%char then "+"%char else if Ascii.eqb c "_"%char then "/"%char else c) s.

Definition decodeBase64 (s : jstr) : jstr :=
  match atob_utf8 (normalize_b64 s) with
  | Some r => r
  | None => []          (* catch (error) { return ''; } *)
  end.

(** [part.mimeType === 'text/plain' && part.body?.data] *)
Definition is_plain_part (p : RawMessage) : bool :=
  jstr_eqb (mimeType p) text_plain && negb (is_empty (data p)).

Definition is_html_part (p : RawMessage) : bool :=
  jstr_eqb (mimeType p) text_html && negb (is_empty (data p)).

(** [for (const part of payload.parts) if (f(part)) return part] *)
Fixpoint find_part (f : RawMessage -> bool) (ps : list RawMessage)
  : option RawMessage :=
  match ps with
  | [] => None
  | p :: ps' => if f p then Some p else find_part f ps'
  end.

(** The recursive loop: the first truthy [extractEmailBody(part)]. *)
Fixpoint first_nonempty (f : RawMessage -> jstr) (ps : list RawMessage) : jstr :=
  match ps with
  | [] => []
  | p :: ps' =>
      match f p with
      | [] => first_nonempty f ps'
      | b => b
      end
  end.

Fixpoint extractEmailBody (m : RawMessage) : jstr :=
  let single :=
    if negb (is_empty (mimeType m)) && negb (is_empty (data m)) then
      let content := decodeBase64 (data m) in
      if jstr_eqb (mimeType m) text_plain then Some content
      else if jstr_eqb (mimeType m) text_html then Some (stripHtml content)
      else None
    else None in
  match single with
  | Some r => r
  | None =>
      match parts m with
      | None => []
      | Some ps =>
          match find_part is_plain_part ps with
          | Some p => decodeBase64 (data p)
          | None =>
              match find_part is_html_part ps with
              | Some p => stripHtml (decodeBase64 (data p))
              | None => first_nonempty extractEmailBody ps
              end
          end
      end
  end.

(** Some node of the tree is a [text/plain] or [text/html] part with data. *)
Fixpoint has_textual (m : RawMessage) : bool :=
  is_plain_part m || is_html_part m ||
  match parts m with
  | None => false
  | Some ps => existsb has_textual ps
  end.

End Extract.

(** Induction over message trees, with the hypothesis for every child. *)
Definition RawMessage_ind' (P : RawMessage -> Prop)
  (H : forall t d ps,
       match ps with None => True | Some l => Forall P l end -> P (Part t d ps))
  : forall m, P m :=
  fix F m :=
    match m with
    | Part t d ps =>
        H t d ps
          (match ps as o return match o with None => True | Some l => Forall P l end with
           | None => I
           | Some l =>
               (fix G (l : list RawMessage) : Forall P l :=
                  match l with
                  | [] => Forall_nil P
                  | x :: l' => Forall_cons x (F x) (G l')
                  end) l
           end)
    end.

End Gmail.

(** ** [ai.js]: [AIProcessor] *)

Module AI.

(** *** [cleanEmail] *)

(** [.*?\n]: the text after the first line terminator, when that
    terminator is a line feed. *)
Fixpoint after_first_newline (r : jstr) : option jstr :=
  match r with
  | [] => None
  | c :: r' =>
      if code c =? 10 then Some r'
      else if is_lt c then None
      else after_first_newline r'
  end.

Definition greeting_alt (p s : jstr) : option jstr :=
  if prefix_ci p s then after_first_newline (skipn (List.length p) s) else None.

(** [.replace(/^(hi|hello|dear).*?\n/gi, '')]: without the [m] flag [^]
    only matches at index 0, so at most one match. *)
Definition remove_greeting (s : jstr) : jstr :=
  match greeting_alt (js "hi") s with
  | Some r => r
  | None =>
      match greeting_alt (js "hello") s with
      | Some r => r
      | None =>
          match greeting_alt (js "dear") s with
          | Some r => r
          | None => s
          end
      end
  end.

(** [.replace(/X[\s\S]*/g, '')] (and [/X.*$/g] without [m]): the match
    runs to the end of the input, so the text before the leftmost
    position where [X] matches is kept. *)
Fixpoint cut_from_first (matches_at : jstr -> bool) (s : jstr) : jstr :=
  if matches_at s then []
  else match s with
       | [] => []
       | c :: s' => c :: cut_from_first matches_at s'
       end.

(** [p] matches at some position of [r] reached over non-terminators
    (the greedy [.*] before [p]). *)
Fixpoint line_has_ci (p r : jstr) : bool :=
  prefix_ci p r ||
  match r with
  | [] => false
  | c :: r' => negb (is_lt c) && line_has_ci p r'
  end.

(** [/on .* wrote:[\s\S]*/gi] *)
Definition on_wrote_at (s : jstr) : bool :=
  prefix_ci (js "on ") s && line_has_ci (js " wrote:") (skipn 3 s).

(** [/-----original message-----[\s\S]*/gi] *)
Definition original_at (s : jstr) : bool :=
  prefix_ci (js "-----original message-----") s.

(** [/sent from my.*$/gi]: [$] is the end of the input. *)
Definition sent_from_at (s : jstr) : bool :=
  prefix_ci (js "sent from my") s && forallb (fun c => negb (is_lt c)) (skipn 12 s).

(** [/https?:\/\/\S+/] matches at the start of [s]. *)
Definition url_start (s : jstr) : bool :=
  (prefixb (js "http://") s &&
     match skipn 7 s with c :: _ => negb (is_ws c) | [] => false end) ||
  (prefixb (js "https://") s &&
     match skipn 8 s with c :: _ => negb (is_ws c) | [] => false end).

(** [.replace(/https?:\/\/\S+/g, '')]: a match is the scheme and the
    maximal run of non-whitespace after it, i.e. everything up to the next
    whitespace; [skip_url] drops that run. *)
Fixpoint remove_urls (s : jstr) : jstr :=
  match s with
  | [] => []
  | c :: s' => if url_start s then skip_url s' else c :: remove_urls s'
  end
with skip_url (s : jstr) : jstr :=
  match s with
  | [] => []
  | c :: s' => if is_ws c then c :: remove_urls s' else skip_url s'
  end.

(** [.replace(/\s+/g, ' ')] *)
Fixpoint collapse_ws (s : jstr) : jstr :=
  match s with
  | [] => []
  | c :: s' => if is_ws c then " "%char :: drop_ws_run s' else c :: collapse_ws s'
  end
with drop_ws_run (s : jstr) : jstr :=
  match s with
  | [] => []
  | c :: s' => if is_ws c then drop_ws_run s' else c :: collapse_ws s'
  end.

Fixpoint trim_start (s : jstr) : jstr :=
  match s with
  | [] => []
  | c :: s' => if is_ws c then trim_start s' else s
  end.

(** [String.prototype.trim] *)
Definition trim (s : jstr) : jstr := rev (trim_start (rev (trim_start s))).

(** [.slice(0, n)] *)
Definition slice0 (n : nat) (s : jstr) : jstr := firstn n s.

Definition cleanEmail (text : jstr) : jstr :=
  slice0 900
    (trim
       (collapse_ws
          (remove_urls
             (cut_from_first sent_from_at
                (cut_from_first original_at
                   (cut_from_first on_wrote_at
                      (remove_greeting text))))))).

(** The number of whitespace-delimited tokens,
    [s.split(/\s+/).filter(w => w.length > 0).length]. *)
Fixpoint count_tokens (prev_ws : bool) (s : jstr) : nat :=
  match s with
  | [] => 0
  | c :: s' =>
      if is_ws c then count_tokens true s'
      else (if prev_ws then 1 else 0) + count_tokens false s'
  end.

Definition word_count (s : jstr) : nat := count_tokens true s.

(** *** [basicFallback] and [validateTag] *)

Record Result : Type := { summary : jstr; tag : jstr }.

Definition basicFallback (subject text : jstr) : Result :=
  if test true [js "interview"; js "hr"; js "recruiter"; js "hiring"] text then
    {| summary := js "Interview-related email; reply to confirm next steps.";
       tag := js "Reply Required" |}
  else if test true [js "invite"; js "event"; js "meetup"; js "session"] text then
    {| summary := js "Event invitation; reply if you want to attend.";
       tag := js "Reply Required" |}
  else if test true [js "let us know"; js "would you"; js "please reply"; js "respond"] text then
    {| summary := js "This email asks for your response or confirmation.";
       tag := js "Reply Required" |}
  else if test true [js "update"; js "announcement"; js "newsletter"; js "inform"] text then
    {| summary := js "This email shares an update or announcement.";
       tag := js "FYI" |}
  else
    {| summary := if negb (is_empty subject)
                  then js "This email is about " ++ toLowerCase subject ++ js "."
                  else js "This email contains general information.";
       tag := js "No Reply Needed" |}.

Definition allowed_tags : list jstr :=
  [js "Urgent"; js "Reply Required"; js "FYI"; js "No Reply Needed"].

(** [allowed.includes(tag) ? tag : 'FYI']; [None] is a missing or
    non-string [tag]. *)
Definition validateTag (t : option jstr) : jstr :=
  match t with
  | Some s => if existsb (jstr_eqb s) allowed_tags then s else js "FYI"
  | None => js "FYI"
  end.

(** *** [addContextHint] *)

(** One [if (/alts/.test(text)) return hint;] of [addContextHint];
    [rule_ci] is the [i] flag.  Optional characters ([sign[- ]?in]) are
    written out as their alternatives. *)
Record HintRule : Type := { rule_ci : bool; rule_alts : list jstr; rule_hint : jstr }.

(** The rules of [addContextHint] in source order: the block with the [i]
    flag, then the second block without it. *)
Definition context_rules : list HintRule := [
   ({| rule_ci := true;
      rule_alts := [js "one time password"; js "otp"; js "verification code"; js "use this code"];
      rule_hint := js "One-time password received for account verification." |});
   ({| rule_ci := true;
      rule_alts := [js "new sign-in"; js "new sign in"; js "new signin"; js "signed in"; js "login detected"; js "new device"];
      rule_hint := js "New sign-in detected on your account; review if this was you." |});
   ({| rule_ci := true;
      rule_alts := [js "google sign-in"; js "google sign in"; js "google signin"; js "sign-in to google account"; js "sign in to google account"; js "signin to google account"];
      rule_hint := js "Google account sign-in detected; review activity if unexpected." |});
   ({| rule_ci := true;
      rule_alts := [js "security alert"; js "unusual activity"; js "suspicious activity"];
      rule_hint := js "Security alert on your account; review immediately." |});
   ({| rule_ci := true;
      rule_alts := [js "password reset"; js "reset your password"; js "change your password"];
      rule_hint := js "Password reset requested; take action if this was you." |});
   ({| rule_ci := true;
      rule_alts := [js "verify your email"; js "email verification"; js "confirm your email"];
      rule_hint := js "Email verification required to complete account setup." |});
   ({| rule_ci := true;
      rule_alts := [js "access request"; js "permission request"; js "requested access"; js "shared with you"];
      rule_hint := js "Access request received; review and approve if appropriate." |});
   ({| rule_ci := true;
      rule_alts := [js "new device"; js "new browser"; js "new location"];
      rule_hint := js "New device or location used to access your account." |});
   ({| rule_ci := true;
      rule_alts := [js "interview"; js "hr"; js "recruiter"; js "hiring"; js "selection"; js "availability"; js "next round"];
      rule_hint := js "Interview-related email; reply to confirm availability." |});
   ({| rule_ci := true;
      rule_alts := [js "offer letter"; js "job offer"; js "we are pleased to offer"];
      rule_hint := js "Job offer received; review details and respond." |});
   ({| rule_ci := true;
      rule_alts := [js "regret to inform"; js "not selected"; js "application rejected"];
      rule_hint := js "Application update received; no response required." |});
   ({| rule_ci := true;
      rule_alts := [js "application status"; js "application update"; js "under review"];
      rule_hint := js "Update on your job application status." |});
   ({| rule_ci := true;
      rule_alts := [js "meeting request"; js "schedule a call"; js "calendar invite"];
      rule_hint := js "Meeting request received; reply to schedule or confirm." |});
   ({| rule_ci := true;
      rule_alts := [js "event"; js "meetup"; js "webinar"; js "conference"; js "session"; js "join us"];
      rule_hint := js "Event invitation received; reply if you want to attend." |});
   ({| rule_ci := true;
      rule_alts := [js "rescheduled"; js "new time"; js "updated schedule"];
      rule_hint := js "Meeting or event has been rescheduled; review updated details." |});
   ({| rule_ci := true;
      rule_alts := [js "cancelled"; js "canceled"];
      rule_hint := js "Meeting or event has been cancelled." |});
   ({| rule_ci := true;
      rule_alts := [js "payment due"; js "outstanding amount"; js "due by"; js "overdue"];
      rule_hint := js "Payment due; review and complete before the deadline." |});
   ({| rule_ci := true;
      rule_alts := [js "invoice"; js "receipt"; js "payment confirmation"; js "transaction successful"];
      rule_hint := js "Payment or invoice details received." |});
   ({| rule_ci := true;
      rule_alts := [js "refund"; js "credited back"; js "refund initiated"];
      rule_hint := js "Refund update received; check transaction details." |});
   ({| rule_ci := true;
      rule_alts := [js "subscription renewal"; js "renewal notice"; js "renews on"];
      rule_hint := js "Subscription renewal notice received." |});
   ({| rule_ci := true;
      rule_alts := [js "subscription cancelled"; js "cancellation confirmed"];
      rule_hint := js "Subscription cancellation confirmed." |});
   ({| rule_ci := true;
      rule_alts := [js "plan upgraded"; js "plan changed"; js "billing plan"];
      rule_hint := js "Your service plan has been updated." |});
   ({| rule_ci := true;
      rule_alts := [js "special offer"; js "limited time offer"; js "discount"; js "sale"; js "deal"];
      rule_hint := js "Promotional offer received; check details if interested." |});
   ({| rule_ci := true;
      rule_alts := [js "introducing"; js "new launch"; js "we are excited to announce"];
      rule_hint := js "Promotional announcement about a new product or feature." |});
   ({| rule_ci := true;
      rule_alts := [js "newsletter"; js "weekly digest"; js "monthly update"];
      rule_hint := js "Newsletter received; informational update." |});
   ({| rule_ci := true;
      rule_alts := [js "policy update"; js "terms updated"; js "privacy policy"];
      rule_hint := js "Policy update announced; review changes." |});
   ({| rule_ci := true;
      rule_alts := [js "product update"; js "new feature"; js "feature release"];
      rule_hint := js "Product update announced with new changes." |});
   ({| rule_ci := true;
      rule_alts := [js "thank you"; js "thanks for"; js "appreciate"];
      rule_hint := js "Thank-you or appreciation message received." |});
   ({| rule_ci := true;
      rule_alts := [js "congratulations"; js "congrats"];
      rule_hint := js "Congratulations message received." |});
   ({| rule_ci := false;
      rule_alts := [js "interview"; js "hr"; js "recruiter"; js "hiring"; js "selection"; js "availability"; js "next round"];
      rule_hint := js "Interview-related email; reply to confirm availability." |});
   ({| rule_ci := false;
      rule_alts := [js "offer letter"; js "job offer"; js "we are pleased to offer"];
      rule_hint := js "Job offer received; review details and respond." |});
   ({| rule_ci := false;
      rule_alts := [js "regret to inform"; js "not selected"; js "application rejected"];
      rule_hint := js "Application update received; no response required." |});
   ({| rule_ci := false;
      rule_alts := [js "application status"; js "application update"; js "under review"];
      rule_hint := js "Update on your job application status." |});
   ({| rule_ci := false;
      rule_alts := [js "meeting request"; js "schedule a call"; js "calendar invite"];
      rule_hint := js "Meeting request received; reply to schedule or confirm." |});
   ({| rule_ci := false;
      rule_alts := [js "event"; js "meetup"; js "webinar"; js "conference"; js "session"; js "join us"];
      rule_hint := js "Event invitation received; reply if you want to attend." |});
   ({| rule_ci := false;
      rule_alts := [js "rescheduled"; js "new time"; js "updated schedule"];
      rule_hint := js "Meeting or event has been rescheduled; review updated details." |});
   ({| rule_ci := false;
      rule_alts := [js "cancelled"; js "canceled"];
      rule_hint := js "Meeting or event has been cancelled." |});
   ({| rule_ci := false;
      rule_alts := [js "payment due"; js "outstanding amount"; js "due by"];
      rule_hint := js "Payment due; review and complete before the deadline." |});
   ({| rule_ci := false;
      rule_alts := [js "invoice"; js "receipt"; js "payment confirmation"];
      rule_hint := js "Payment or invoice details received." |});
   ({| rule_ci := false;
      rule_alts := [js "refund"; js "credited back"];
      rule_hint := js "Refund update received; check transaction details." |});
   ({| rule_ci := false;
      rule_alts := [js "security alert"; js "unusual activity"; js "login attempt"];
      rule_hint := js "Security alert detected; review immediately." |});
   ({| rule_ci := false;
      rule_alts := [js "verify your email"; js "email verification"; js "confirm your email"];
      rule_hint := js "Email verification required; confirm to continue." |});
   ({| rule_ci := false;
      rule_alts := [js "password reset"; js "reset your password"];
      rule_hint := js "Password reset requested; take action if this was you." |});
   ({| rule_ci := false;
      rule_alts := [js "subscription renewal"; js "renewal notice"];
      rule_hint := js "Subscription renewal notice received." |});
   ({| rule_ci := false;
      rule_alts := [js "subscription cancelled"; js "cancellation confirmed"];
      rule_hint := js "Subscription cancellation confirmed." |});
   ({| rule_ci := false;
      rule_alts := [js "plan upgraded"; js "plan changed"];
      rule_hint := js "Your service plan has been updated." |});
   ({| rule_ci := false;
      rule_alts := [js "newsletter"; js "monthly update"; js "weekly digest"];
      rule_hint := js "Newsletter received; informational update." |});
   ({| rule_ci := false;
      rule_alts := [js "policy update"; js "terms updated"; js "privacy policy"];
      rule_hint := js "Policy update announced; review changes." |});
   ({| rule_ci := false;
      rule_alts := [js "product update"; js "new feature"; js "feature release"];
      rule_hint := js "Product update announced with new changes." |});
   ({| rule_ci := false;
      rule_alts := [js "thank you"; js "thanks for"; js "appreciate"];
      rule_hint := js "Thank-you or appreciation message received." |});
   ({| rule_ci := false;
      rule_alts := [js "congratulations"; js "congrats"];
      rule_hint := js "Congratulations message received." |})
].

Fixpoint first_hint (rules : list HintRule) (text : jstr) : option jstr :=
  match rules with
  | [] => None
  | r :: rs => if test (rule_ci r) (rule_alts r) text then Some (rule_hint r)
               else first_hint rs text
  end.

Definition addContextHint (summary subject body tag : jstr) : jstr :=
  let text := toLowerCase (subject ++ js " " ++ body) in
  match first_hint context_rules text with
  | Some hint => hint
  | None => summary
  end.

(** *** [callAI] *)

(** JSON values as [JSON.parse] returns them; [JNum] keeps the number's
    JavaScript string form. *)
Inductive json : Type :=
| JNull
| JBool (b : bool)
| JNum (repr : jstr)
| JStr (s : jstr)
| JArr (xs : list json)
| JObj (kvs : list (jstr * json)).

(** Property lookup; [JSON.parse] keeps the last of duplicated keys. *)
Fixpoint assoc_last (k : jstr) (kvs : list (jstr * json)) : option json :=
  match kvs with
  | [] => None
  | (k', v) :: kvs' =>
      match assoc_last k kvs' with
      | Some w => Some w
      | None => if jstr_eqb k k' then Some v else None
      end
  end.

(** [v.k]; [None] is [undefined] (none of the keys read by the source is
    a property of a primitive or an array). *)
Definition get (v : json) (k : jstr) : option json :=
  match v with JObj kvs => assoc_last k kvs | _ => None end.

(** [v[0]] *)
Definition index0 (v : json) : option json :=
  match v with
  | JArr (x :: _) => Some x
  | JObj kvs => assoc_last (js "0") kvs
  | JStr (c :: _) => Some (JStr [c])
  | _ => None
  end.

Fixpoint join_comma (xs : list jstr) : jstr :=
  match xs with
  | [] => []
  | [x] => x
  | x :: xs' => x ++ js "," ++ join_comma xs'
  end.

(** [String(v)], the coercion [JSON.parse] applies to its argument. *)
Fixpoint js_String (v : json) : jstr :=
  match v with
  | JNull => js "null"
  | JBool true => js "true"
  | JBool false => js "false"
  | JNum r => r
  | JStr s => s
  | JArr xs => join_comma (map (fun x => match x with JNull => [] | _ => js_String x end) xs)
  | JObj _ => js "[object Object]"
  end.

(** The result of the [fetch] call: a network failure (the promise
    rejects) or a response with its status and body text. *)
Inductive fetch_outcome : Type :=
| NetworkError
| Response (status : nat) (body : jstr).

Record Settings : Type := { aiApiKey : jstr }.

Section Processing.

(** [JSON.parse] on a string ([res.json()] parses the body text the same
    way); [None] when it throws. *)
Variable JSON_parse : jstr -> option json.

Definition bind_opt {A B : Type} (o : option A) (f : A -> option B) : option B :=
  match o with Some a => f a | None => None end.

Local Notation "x <- o ; f" := (bind_opt o (fun x => f))
  (at level 60, right associativity, o at next level).

(** The [try] block of [callAI] up to its [return]: [None] when any step
    throws.  The status code is not inspected.  Returns the raw
    [parsed.summary] and [parsed.tag] (when it is a string). *)
Definition ai_reply (res : fetch_outcome) : option (jstr * option jstr) :=
  match res with
  | NetworkError => None
  | Response _ body =>
      data <- JSON_parse body;
      choices <- get data (js "choices");
      choice0 <- index0 choices;
      message <- get choice0 (js "message");
      content <- get message (js "content");
      parsed <- JSON_parse (js_String content);
      summ <- get parsed (js "summary");
      match summ with
      | JStr s =>
          Some (s, match get parsed (js "tag") with
                   | Some (JStr t) => Some t
                   | _ => None
                   end)
      | _ => None            (* [.trim()] of a non-string throws *)
      end
  end.

Definition callAI (text apiKey : jstr) (res : fetch_outcome) : Result :=
  match ai_reply res with
  | Some (s, t) => {| summary := trim s; tag := validateTag t |}
  | None => basicFallback [] text        (* catch: basicFallback('', text) *)
  end.

(** [processEmail(subject, body)] with the loaded settings and the outcome
    of the AI request as inputs. *)
Definition processEmail (settings : Settings) (subject body : jstr)
    (res : fetch_outcome) : Result :=
  let cleaned := cleanEmail body in
  if is_empty (aiApiKey settings) || is_empty cleaned then
    basicFallback subject cleaned
  else
    let aiResult := callAI cleaned (aiApiKey settings) res in
    if is_empty (summary aiResult) || (List.length (summary aiResult) <? 10) then
      basicFallback subject cleaned
    else
      {| summary := addContextHint (summary aiResult) subject cleaned (tag aiResult);
         tag := tag aiResult |}.

End Processing.

End AI.

(** ** The background worker's processed-message set *)

Module Background.

Definition MessageId := jstr.

(** A JavaScript [Set] of ids, as its elements in insertion order. *)
Definition IdSet := list MessageId.

Definition set_has (s : IdSet) (x : MessageId) : bool := existsb (jstr_eqb x) s.

(** [set.add(x)] *)
Definition set_add (x : MessageId) (s : IdSet) : IdSet :=
  if set_has s x then s else s ++ [x].

(** [new Set(array)] *)
Definition set_of_array (a : list MessageId) : IdSet :=
  fold_left (fun acc x => set_add x acc) a [].

(** [Array.from(set)] *)
Definition array_from (s : IdSet) : list MessageId := s.

(** The [processed_messages] entry of [chrome.storage.local]. *)
Record Storage : Type := { processed_messages : option (list MessageId) }.

Record Notifier : Type := { processedMessages : IdSet; storage : Storage }.

(** [markAsProcessed(messageId)] *)
Definition markAsProcessed (messageId : MessageId) (n : Notifier) : Notifier :=
  let s := set_add messageId (processedMessages n) in
  {| processedMessages := s;
     storage := {| processed_messages := Some (array_from s) |} |}.

(** The [clearProcessed] message handler. *)
Definition clearProcessed (n : Notifier) : Notifier :=
  {| processedMessages := [];
     storage := {| processed_messages := Some [] |} |}.

(** The set part of [loadStoredData]:
    [new Set(data[PROCESSED_MESSAGES] || [])]. *)
Definition loadStoredData (n : Notifier) : Notifier :=
  {| processedMessages :=
       set_of_array match processed_messages (storage n) with
                    | Some a => a
                    | None => []
                    end;
     storage := storage n |}.

(** A restart: a fresh [GmailNotifier] (empty set) on the same storage,
    then [initialize()]. *)
Definition reload (n : Notifier) : Notifier :=
  loadStoredData {| processedMessages := []; storage := storage n |}.

End Background.

(** ** [gmail.js]: [GmailAPI.stripHtml] *)

Module Html.
Import AI.

Definition nl : ascii := "010"%char.
Definition lt_char : ascii := "<"%char.
Definition gt_char : ascii := ">"%char.

(** [.replace(/\n\s*\n/g, '\n')]: a match starts at a line feed and, by the
    greedy [\s*] and backtracking, runs to the last line feed of the
    whitespace run after it.  [pend] is [Some p] inside such a run, [p]
    the whitespace read after its last line feed. *)
Fixpoint squeeze_blank_lines (pend : option jstr) (s : jstr) : jstr :=
  match s with
  | [] => match pend with None => [] | Some p => nl :: p end
  | c :: s' =>
      match pend with
      | None =>
          if Ascii.eqb c nl then squeeze_blank_lines (Some []) s'
          else c :: squeeze_blank_lines None s'
      | Some p =>
          if Ascii.eqb c nl then squeeze_blank_lines (Some []) s'
          else if is_ws c then squeeze_blank_lines (Some (p ++ [c])) s'
          else nl :: p ++ c :: squeeze_blank_lines None s'
      end
  end.

Definition has_gt (s : jstr) : bool := existsb (fun c => Ascii.eqb c gt_char) s.

(** [.replace(/<[^>]*>/g, '')]: a match starts at a [<] that some [>]
    follows and ends at the first such [>]. *)
Fixpoint remove_tags (s : jstr) : jstr :=
  match s with
  | [] => []
  | c :: s' => if Ascii.eqb c lt_char && has_gt s' then skip_tag s' else c :: remove_tags s'
  end
with skip_tag (s : jstr) : jstr :=
  match s with
  | [] => []
  | c :: s' => if Ascii.eqb c gt_char then remove_tags s' else skip_tag s'
  end.

Section Strip.

(** [temp.textContent || temp.innerText || ''] after [temp.innerHTML =
    html]; [None] when the [try] block throws, as it does where there is
    no [document] (a service worker). *)
Variable dom_text : jstr -> option jstr.

Definition stripHtml (html : jstr) : jstr :=
  match dom_text html with
  | Some text => trim (squeeze_blank_lines None (collapse_ws text))
  | None => trim (collapse_ws (remove_tags html))
  end.

End Strip.

End Html.

(** ** [gmail.js]: [decodeBase64] in full

    [atob] (the forgiving-base64 decode of the HTML standard), the
    [.split('').map(c => '%' + ('00' + c.charCodeAt(0).toString(16)).slice(-2)).join('')]
    loop, and [decodeURIComponent] (the [Decode] operation of ECMA-262 with
    an empty reserved set).  Its result is a sequence of UTF-16 code units,
    so it is given as integers rather than as a [jstr]. *)

Module Base64.

Local Open Scope Z_scope.

(** ASCII whitespace: TAB, LF, FF, CR, SPACE. *)
Definition ascii_ws (c : ascii) : bool :=
  let n := code c in
  (Nat.eqb n 9 || Nat.eqb n 10 || Nat.eqb n 12 || Nat.eqb n 13 || Nat.eqb n 32)%nat.

(** The value of a character of the base64 alphabet. *)
Definition b64_value (c : ascii) : option Z :=
  let n := Z.of_nat (code c) in
  if (65 <=? n) && (n <=? 90) then Some (n - 65)
  else if (97 <=? n) && (n <=? 122) then Some (n - 71)
  else if (48 <=? n) && (n <=? 57) then Some (n + 4)
  else if n =? 43 then Some 62
  else if n =? 47 then Some 63
  else None.

Fixpoint b64_values (s : jstr) : option (list Z) :=
  match s with
  | [] => Some []
  | c :: s' =>
      match b64_value c, b64_values s' with
      | Some v, Some vs => Some (v :: vs)
      | _, _ => None
      end
  end.

(** Remove one or two trailing [=]. *)
Definition strip_padding (d : jstr) : jstr :=
  match rev d with
  | "="%char :: "="%char :: r => rev r
  | "="%char :: r => rev r
  | _ => d
  end.

(** The 24-bit buffer: every four values give three bytes; a last group
    of three or two values gives two or one byte, dropping the two or four
    extra bits. *)
Fixpoint b64_bytes (vs : list Z) : list Z :=
  match vs with
  | a :: b :: c :: d :: r =>
      let n := a * 262144 + b * 4096 + c * 64 + d in
      n / 65536 :: (n / 256) mod 256 :: n mod 256 :: b64_bytes r
  | [a; b; c] => let n := (a * 4096 + b * 64 + c) / 4 in [n / 256; n mod 256]
  | [a; b] => [(a * 64 + b) / 16]
  | _ => []
  end.

Definition forgiving_base64_decode (s : jstr) : option (list Z) :=
  let d0 := filter (fun c => negb (ascii_ws c)) s in
  let d := if Nat.eqb (List.length d0 mod 4) 0 then strip_padding d0 else d0 in
  if Nat.eqb (List.length d mod 4) 1 then None
  else match b64_values d with
       | Some vs => Some (b64_bytes vs)
       | None => None
       end.

(** [atob]: one character per byte; [None] when it throws. *)
Definition atob (s : jstr) : option jstr :=
  match forgiving_base64_decode s with
  | Some bytes => Some (map (fun b => ascii_of_nat (Z.to_nat b)) bytes)
  | None => None
  end.

(** [n.toString(16)] *)
Fixpoint hex_aux (fuel n : nat) (acc : jstr) : jstr :=
  match fuel with
  | O => acc
  | S f =>
      let d := (n mod 16)%nat in
      let acc' := ascii_of_nat (if (d <? 10)%nat then 48 + d else 87 + d)%nat :: acc in
      if (n <? 16)%nat then acc' else hex_aux f (n / 16)%nat acc'
  end.

Definition to_hex (n : nat) : jstr := hex_aux (S n) n [].

(** [s.slice(-2)] *)
Definition slice_last2 (s : jstr) : jstr := skipn (List.length s - 2) s.

Definition pct_escape (c : ascii) : jstr := "%"%char :: slice_last2 (js "00" ++ to_hex (code c)).

Definition percent_encode (s : jstr) : jstr := flat_map pct_escape s.

Definition hex_value (c : ascii) : option Z :=
  let n := Z.of_nat (code c) in
  if (48 <=? n) && (n <=? 57) then Some (n - 48)
  else if (97 <=? n) && (n <=? 102) then Some (n - 87)
  else if (65 <=? n) && (n <=? 70) then Some (n - 55)
  else None.

(** The two hexadecimal digits after a [%]. *)
Definition read_byte (s : jstr) : option (Z * jstr) :=
  match s with
  | h1 :: h2 :: r =>
      match hex_value h1, hex_value h2 with
      | Some a, Some b => Some (a * 16 + b, r)
      | _, _ => None
      end
  | _ => None
  end.

(** The number of leading one bits of a byte (any count above four is
    given as five). *)
Definition n_ones (b : Z) : nat :=
  if b <? 128 then 0 else if b <? 192 then 1 else if b <? 224 then 2
  else if b <? 240 then 3 else if b <? 248 then 4 else 5.

(** [k] further escapes, each a byte of the form [10xxxxxx]. *)
Fixpoint read_continuations (k : nat) (s : jstr) : option (list Z * jstr) :=
  match k with
  | O => Some ([], s)
  | S k' =>
      match s with
      | c :: r =>
          if Ascii.eqb c "%"%char then
            match read_byte r with
            | Some (b, r') =>
                if b / 64 =? 2 then
                  match read_continuations k' r' with
                  | Some (bs, r'') => Some (b :: bs, r'')
                  | None => None
                  end
                else None
            | None => None
            end
          else None
      | [] => None
      end
  end.

(** The code point of a well-formed UTF-8 sequence of [n] bytes: not
    overlong, not a surrogate, at most U+10FFFF. *)
Definition utf8_code_point (n : nat) (b : Z) (bs : list Z) : option Z :=
  match n, bs with
  | 2%nat, [c1] =>
      let v := (b mod 32) * 64 + c1 mod 64 in
      if 128 <=? v then Some v else None
  | 3%nat, [c1; c2] =>
      let v := (b mod 16) * 4096 + (c1 mod 64) * 64 + c2 mod 64 in
      if (2048 <=? v) && negb ((55296 <=? v) && (v <=? 57343)) then Some v else None
  | 4%nat, [c1; c2; c3] =>
      let v := (b mod 8) * 262144 + (c1 mod 64) * 4096 + (c2 mod 64) * 64 + c3 mod 64 in
      if (65536 <=? v) && (v <=? 1114111) then Some v else None
  | _, _ => None
  end.

(** [UTF16EncodeCodePoint] *)
Definition utf16 (v : Z) : list Z :=
  if v <? 65536 then [v]
  else [55296 + (v - 65536) / 1024; 56320 + (v - 65536) mod 1024].

(** The loop of [Decode]; every round reads at least one character, so
    the length of the input is enough fuel. *)
Fixpoint decode_uri (fuel : nat) (s : jstr) : option (list Z) :=
  match s with
  | [] => Some []
  | c :: s' =>
      match fuel with
      | O => None
      | S f =>
          if negb (Ascii.eqb c "%"%char) then
            match decode_uri f s' with Some u => Some (Z.of_nat (code c) :: u) | None => None end
          else
            match read_byte s' with
            | None => None
            | Some (b, r) =>
                let n := n_ones b in
                if Nat.eqb n 0 then
                  match decode_uri f r with Some u => Some (b :: u) | None => None end
                else if Nat.eqb n 1 || (4 <? n)%nat then None
                else
                  match read_continuations (n - 1) r with
                  | None => None
                  | Some (bs, r') =>
                      match utf8_code_point n b bs with
                      | None => None
                      | Some v =>
                          match decode_uri f r' with Some u => Some (utf16 v ++ u) | None => None end
                      end
                  end
            end
      end
  end.

Definition decodeURIComponent (s : jstr) : option (list Z) := decode_uri (List.length s) s.

(** [decodeURIComponent(atob(normalized).split('').map(...).join(''))] *)
Definition atob_utf8 (s : jstr) : option (list Z) :=
  match atob s with
  | Some bin => decodeURIComponent (percent_encode bin)
  | None => None
  end.

(** [decodeBase64(base64String)] *)
Definition decodeBase64 (s : jstr) : list Z :=
  match atob_utf8 (Gmail.normalize_b64 s) with
  | Some u => u
  | None => []
  end.

End Base64.

(** ** [gmail.js]: [getUnreadEmails], [getMessageDetails], [parseMessage] *)

Module GmailApi.
Import AI.

(** [Number.prototype.toString()] of a non-negative integer. *)
Fixpoint decimal_aux (fuel n : nat) (acc : jstr) : jstr :=
  match fuel with
  | 0 => acc
  | S f =>
      let acc' := ascii_of_nat (48 + n mod 10) :: acc in
      if n <? 10 then acc' else decimal_aux f (n / 10) acc'
  end.

Definition decimal (n : nat) : jstr := decimal_aux (S n) n [].

(** A header [{name, value}]. *)
Definition Header : Type := (jstr * jstr)%type.

(** [getHeader(name)] *)
Definition getHeader (headers : list Header) (name : jstr) : jstr :=
  match find (fun h => jstr_eqb (toLowerCase (fst h)) (toLowerCase name)) headers with
  | Some h => snd h
  | None => []
  end.

(** *** The [From] pattern of [parseMessage]

    The pattern is an optional group (an optional double quote, a run of
    characters other than the double quote as the first capture, an
    optional double quote and one whitespace character), then an optional
    [<], the second capture [[^<>@]+@[^<>@]+] and an optional [>], anchored
    at the start.  A backtracking matcher in continuation style, trying alternatives in
    the order of the ECMAScript semantics: greedy quantifiers try the
    longest run first and give back one character at a time. *)

(** [[class]*] then the continuation, which gets the run and the rest. *)
Fixpoint star_class {A : Type} (p : ascii -> bool) (s : jstr)
    (k : jstr -> jstr -> option A) : option A :=
  match s with
  | c :: s' =>
      if p c then
        match star_class p s' (fun run rest => k (c :: run) rest) with
        | Some r => Some r
        | None => k [] s
        end
      else k [] s
  | [] => k [] s
  end.

(** [[class]+] *)
Definition plus_class {A : Type} (p : ascii -> bool) (s : jstr)
    (k : jstr -> jstr -> option A) : option A :=
  match s with
  | c :: s' => if p c then star_class p s' (fun run rest => k (c :: run) rest) else None
  | [] => None
  end.

(** [x?] for a literal character. *)
Definition opt_char {A : Type} (x : ascii) (s : jstr) (k : jstr -> option A) : option A :=
  match s with
  | c :: s' =>
      if Ascii.eqb c x then match k s' with Some r => Some r | None => k s end
      else k s
  | [] => k s
  end.

Definition dq : ascii := "034"%char.
Definition at_char : ascii := "@"%char.

Definition not_dq (c : ascii) : bool := negb (Ascii.eqb c dq).

(** [[^<>@]] *)
Definition addr_char (c : ascii) : bool :=
  negb (Ascii.eqb c "<"%char || Ascii.eqb c ">"%char || Ascii.eqb c at_char).

(** [(?:<?([^<>@]+@[^<>@]+)>?)] at the end of the pattern: the second
    capture. *)
Definition addr_part (s : jstr) : option jstr :=
  opt_char "<"%char s (fun s1 =>
    plus_class addr_char s1 (fun local s2 =>
      match s2 with
      | c :: s3 =>
          if Ascii.eqb c at_char then
            plus_class addr_char s3 (fun domain s4 =>
              opt_char ">"%char s4 (fun _ => Some (local ++ at_char :: domain)))
          else None
      | [] => None
      end)).

(** [from.match(...)] with the two captures; [^] without the [m] flag only
    matches at index 0.  The optional group cannot match the empty string
    (it ends in [\s]), and when it is skipped the first capture is
    [undefined] ([None]). *)
Definition from_match (s : jstr) : option (option jstr * jstr) :=
  match opt_char dq s (fun s1 =>
          star_class not_dq s1 (fun name s2 =>
            opt_char dq s2 (fun s3 =>
              match s3 with
              | c :: s4 =>
                  if is_ws c then
                    match addr_part s4 with
                    | Some e => Some (Some name, e)
                    | None => None
                    end
                  else None
              | [] => None
              end))) with
  | Some r => Some r
  | None =>
      match addr_part s with
      | Some e => Some (None, e)
      | None => None
      end
  end.

(** [fromName = fromMatch?.[1] || ''] and [fromEmail = fromMatch?.[2] || from] *)
Definition parse_from (from : jstr) : jstr * jstr :=
  match from_match from with
  | Some (name, email) =>
      (match name with Some n => n | None => [] end,
       if is_empty email then from else email)
  | None => ([], from)
  end.

(** *** Messages *)

(** [messageData.payload]: its [headers] and its MIME tree. *)
Record Payload : Type := { headers : list Header; tree : Gmail.RawMessage }.

(** A message resource; absent strings are the empty string. *)
Record MessageData : Type := {
  md_id : jstr; md_threadId : jstr; md_snippet : jstr;
  md_payload : option Payload; md_internalDate : jstr }.

(** The object [parseMessage] returns. *)
Record ParsedEmail : Type := {
  email_id : jstr; threadId : jstr; subject : jstr; snippet : jstr; body : jstr;
  fromName : jstr; fromEmail : jstr; date : jstr; internalDate : jstr }.

(** [messages.list]: [listData.messages] as the ids of its entries. *)
Record ListData : Type := { messages : option (list jstr) }.

(** A [fetch] to the Gmail API: a rejected promise with its error message,
    or a response with status, status text and the outcome of
    [response.json()] (an error message when it throws). *)
Inductive api_outcome (A : Type) : Type :=
| ApiNetworkError (message : jstr)
| ApiResponse (status : nat) (statusText : jstr) (json : jstr + A).

Arguments ApiNetworkError {A} message.
Arguments ApiResponse {A} status statusText json.

(** [response.ok] *)
Definition ok_status (s : nat) : bool := (200 <=? s) && (s <=? 299).

(** An async result: a value or a thrown error's [message]. *)
Inductive outcome (A : Type) : Type :=
| Ok (a : A)
| Err (message : jstr).

Arguments Ok {A} a.
Arguments Err {A} message.

Section Fetching.

Variable atob_utf8 : jstr -> option jstr.
Variable stripHtml : jstr -> jstr.

Definition parseMessage (m : MessageData) : ParsedEmail :=
  let hs := match md_payload m with Some p => headers p | None => [] end in
  let subj := getHeader hs (js "Subject") in
  let from := getHeader hs (js "From") in
  let nm := parse_from from in
  {| email_id := md_id m; threadId := md_threadId m;
     subject := if is_empty subj then js "(No Subject)" else subj;
     snippet := md_snippet m;
     body := match md_payload m with
             | Some p => Gmail.extractEmailBody atob_utf8 stripHtml (tree p)
             | None => []
             end;
     fromName := fst nm; fromEmail := snd nm;
     date := getHeader hs (js "Date");
     internalDate := md_internalDate m |}.

(** [getMessageDetails(authToken, messageId)]: [None] is [null]. *)
Definition getMessageDetails (r : api_outcome MessageData) : option ParsedEmail :=
  match r with
  | ApiNetworkError _ => None
  | ApiResponse st _ j =>
      if ok_status st then
        match j with inr d => Some (parseMessage d) | inl _ => None end
      else None
  end.

Fixpoint filter_some {A : Type} (xs : list (option A)) : list A :=
  match xs with
  | [] => []
  | Some x :: xs' => x :: filter_some xs'
  | None :: xs' => filter_some xs'
  end.

(** [getUnreadEmails(authToken)], given the outcome of the listing request
    and of the details request of each id. *)
Definition getUnreadEmails (list_res : api_outcome ListData)
    (msg_res : jstr -> api_outcome MessageData) : outcome (list ParsedEmail) :=
  match list_res with
  | ApiNetworkError msg => Err msg
  | ApiResponse st txt j =>
      if negb (ok_status st) then
        Err (js "Gmail API error: " ++ decimal st ++ js " " ++ txt)
      else
        match j with
        | inl msg => Err msg
        | inr ld =>
            let ids := match messages ld with Some l => l | None => [] end in
            Ok (filter_some (map (fun i => getMessageDetails (msg_res i)) (firstn 10 ids)))
        end
  end.

End Fetching.

End GmailApi.

(** ** Stored settings: [chrome.storage.local] key [settings] *)

Module StoredSettings.
Import AI.

(** JavaScript truthiness of a JSON value. *)
Definition truthy (v : json) : bool :=
  match v with
  | JNull => false
  | JBool b => b
  | JNum r => negb (jstr_eqb r (js "0") || jstr_eqb r (js "NaN"))
  | JStr s => negb (is_empty s)
  | JArr _ | JObj _ => true
  end.

(** [data.settings || d] *)
Definition settings_or (d : json) (stored : option json) : json :=
  match stored with Some v => if truthy v then v else d | None => d end.

(** A JavaScript number: a finite double (as its exact rational value),
    [NaN] or an infinity. *)
Inductive jsnum : Type :=
| NumFinite (q : Q)
| NumNaN
| NumInfinity (positive : bool).

Section Conversion.

(** [StringToNumber], the conversion [Number] applies to strings. *)
Variable StringToNumber : jstr -> jsnum.

(** [Number(v)] on a property value; [None] is [undefined].  A number
    value is its own string form converted back, and an array or object is
    converted through [String(v)]. *)
Definition ToNumber (v : option json) : jsnum :=
  match v with
  | None => NumNaN
  | Some JNull => NumFinite 0
  | Some (JBool b) => NumFinite (if b then 1 else 0)
  | Some (JNum r) => StringToNumber r
  | Some (JStr s) => StringToNumber s
  | Some v' => StringToNumber (js_String v')
  end.

(** The sanitizing of [pollingInterval] in the background's
    [loadStoredData]: [Number(...)], then [60] unless finite and at least
    [60]. *)
Definition polling_interval (stored : option json) : Q :=
  let storedSettings := settings_or (JObj []) stored in
  match ToNumber (get storedSettings (js "pollingInterval")) with
  | NumFinite q => if negb (Qle_bool 60 q) then 60%Q else q
  | _ => 60%Q
  end.

End Conversion.

(** [obj.k = x] on an object (a primitive is left as it is). *)
Definition set_prop (v : json) (k : jstr) (x : json) : json :=
  match v with
  | JObj kvs =>
      JObj (if existsb (fun kv => jstr_eqb (fst kv) k) kvs
            then map (fun kv => if jstr_eqb (fst kv) k then (k, x) else kv) kvs
            else kvs ++ [(k, x)])
  | _ => v
  end.

(** The popup's save handler: [settings = currentSettings.settings || {}],
    [settings.aiApiKey = aiApiKeyInput.value.trim() || null], stored
    back. *)
Definition saveApiKey (stored : option json) (input : jstr) : json :=
  set_prop (settings_or (JObj []) stored) (js "aiApiKey")
    (let t := trim input in if is_empty t then JNull else JStr t).

(** [AIProcessor.loadSettings()]: [cache] is [this.settings]; returns the
    settings and the new cache. *)
Definition default_ai_settings : json := JObj [(js "aiApiKey", JNull)].

Definition loadSettings (stored : option json) (cache : option json) : json * option json :=
  match cache with
  | Some s => (s, cache)
  | None => let s := settings_or default_ai_settings stored in (s, Some s)
  end.

(** [settings.aiApiKey], which the popup stores as a string or [null];
    [null] is the empty string. *)
Definition api_key_of (settings : json) : jstr :=
  match get settings (js "aiApiKey") with Some (JStr s) => s | _ => [] end.

Definition ai_settings (settings : json) : Settings := {| aiApiKey := api_key_of settings |}.

End StoredSettings.

(** ** The background worker ([GmailNotifier] and its listeners) *)

Module Worker.
Import AI Background GmailApi StoredSettings.

Record Worker : Type := {
  notifier : Notifier;          (* processedMessages and the persisted list *)
  isRunning : bool;
  authToken : jstr;             (* null is the empty string *)
  pollingInterval : Q;          (* this.settings.pollingInterval *)
  settings_store : option json; (* chrome.storage.local settings *)
  alarm : option Q              (* period of the gmail-poll alarm, kept by chrome.alarms *)
}.

Definition with_notifier (n : Notifier) (w : Worker) : Worker :=
  {| notifier := n; isRunning := isRunning w; authToken := authToken w;
     pollingInterval := pollingInterval w; settings_store := settings_store w; alarm := alarm w |}.

Definition with_running (b : bool) (w : Worker) : Worker :=
  {| notifier := notifier w; isRunning := b; authToken := authToken w;
     pollingInterval := pollingInterval w; settings_store := settings_store w; alarm := alarm w |}.

Definition with_token (t : jstr) (w : Worker) : Worker :=
  {| notifier := notifier w; isRunning := isRunning w; authToken := t;
     pollingInterval := pollingInterval w; settings_store := settings_store w; alarm := alarm w |}.

Definition with_alarm (a : option Q) (w : Worker) : Worker :=
  {| notifier := notifier w; isRunning := isRunning w; authToken := authToken w;
     pollingInterval := pollingInterval w; settings_store := settings_store w; alarm := a |}.

Definition with_store (s : option json) (w : Worker) : Worker :=
  {| notifier := notifier w; isRunning := isRunning w; authToken := authToken w;
     pollingInterval := pollingInterval w; settings_store := s; alarm := alarm w |}.

(** The script's top level, run whenever the service worker starts:
    [new GmailNotifier()] on the same storage and alarms. *)
Definition fresh (w : Worker) : Worker :=
  {| notifier := {| processedMessages := []; storage := storage (notifier w) |};
     isRunning := false; authToken := []; pollingInterval := 60%Q;
     settings_store := settings_store w; alarm := alarm w |}.

(** [initialize()], i.e. [loadStoredData()]. *)
Definition initialize (StringToNumber : jstr -> jsnum) (w : Worker) : Worker :=
  {| notifier := loadStoredData (notifier w); isRunning := isRunning w;
     authToken := authToken w;
     pollingInterval := polling_interval StringToNumber (settings_store w);
     settings_store := settings_store w; alarm := alarm w |}.

(** The result of [chrome.identity.getAuthToken]. *)
Inductive auth_outcome : Type :=
| Granted (token : jstr)
| Denied (message : jstr).          (* chrome.runtime.lastError *)

(** [authenticate(forceRefresh)]: the new state and the rejection's
    message, if any. *)
Definition authenticate (force : bool) (o : auth_outcome) (w : Worker) : Worker * option jstr :=
  let w1 := if force && negb (is_empty (authToken w)) then with_token [] w else w in
  match o with
  | Granted t => (with_token t w1, None)
  | Denied m => (w1, Some m)
  end.

Record Notification : Type := { notif_id : jstr; title : jstr; message : jstr }.

(** The background's [processEmail(email)]: the notification it creates,
    given [aiProcessor.processEmail] as [summarize]. *)
Definition notify (summarize : jstr -> jstr -> Result) (e : ParsedEmail) : Notification :=
  let r := summarize (subject e) (if is_empty (body e) then snippet e else body e) in
  {| notif_id := js "gmail-" ++ email_id e;
     title := js "New Email from " ++
              (if negb (is_empty (fromName e)) then fromName e
               else if negb (is_empty (fromEmail e)) then fromEmail e
               else js "Unknown");
     message := summary r ++ [Html.nl] ++ tag r |}.

(** The [for] loop of [checkForNewEmails] (storage writes succeed). *)
Fixpoint process_unread (summarize : jstr -> jstr -> Result) (emails : list ParsedEmail)
    (n : Notifier) : Notifier * list Notification :=
  match emails with
  | [] => (n, [])
  | e :: es =>
      if set_has (processedMessages n) (email_id e) then process_unread summarize es n
      else
        let '(n', ns) := process_unread summarize es (markAsProcessed (email_id e) n) in
        (n', notify summarize e :: ns)
  end.

(** The [catch] of [checkForNewEmails]. *)
Definition recover (refresh : auth_outcome) (msg : jstr) (w : Worker) : Worker :=
  if contains (js "401") msg then fst (authenticate true refresh w) else w.

(** [checkForNewEmails()], given the outcomes of the token requests and
    of [gmailAPI.getUnreadEmails]; the [last_check] entry it writes is
    read by no code and left out. *)
Definition checkForNewEmails (first_auth refresh : auth_outcome)
    (unread : jstr -> outcome (list ParsedEmail)) (summarize : jstr -> jstr -> Result)
    (w : Worker) : Worker * list Notification :=
  if negb (isRunning w) then (w, [])
  else
    let '(w1, err) :=
      if is_empty (authToken w) then authenticate false first_auth w else (w, None) in
    match err with
    | Some msg => (recover refresh msg w1, [])
    | None =>
        match unread (authToken w1) with
        | Err msg => (recover refresh msg w1, [])
        | Ok emails =>
            let '(n, ns) := process_unread summarize emails (notifier w1) in
            (with_notifier n w1, ns)
        end
    end.

(** [startPolling()] up to the [checkForNewEmails()] it fires, which is
    the next check event. *)
Definition startPolling (w : Worker) : Worker :=
  if isRunning w then w
  else with_alarm (Some (pollingInterval w / 60)%Q) (with_running true w).

Definition stopPolling (w : Worker) : Worker := with_alarm None (with_running false w).

(** The [togglePolling] message: the new state and the response's
    [isRunning]. *)
Definition togglePolling (auth : auth_outcome) (w : Worker) : Worker * bool :=
  if isRunning w then let w' := stopPolling w in (w', isRunning w')
  else
    match authenticate false auth w with
    | (w1, None) => let w' := startPolling w1 in (w', isRunning w')
    | (w1, Some _) => (w1, false)
    end.

(** The [clearProcessed] message. *)
Definition clear (w : Worker) : Worker := with_notifier (clearProcessed (notifier w)) w.

(** The [getStatus] message's response. *)
Definition getStatus (w : Worker) : json :=
  JObj [(js "isRunning", JBool (isRunning w));
        (js "processedCount", JNum (decimal (List.length (processedMessages (notifier w)))))].

(** What happens to the worker, in order.  [run] executes the events one
    after another: each one, with all the awaits of the handler it starts,
    finishes before the next one begins.  Checks that overlap (an alarm or
    a toggle while a check still awaits the AI) are modelled by
    [Interleaving]. *)
Inductive Event : Type :=
| ECheck (first_auth refresh : auth_outcome) (unread : jstr -> outcome (list ParsedEmail))
         (summarize : jstr -> jstr -> Result)   (* an alarm, or the check startPolling fires *)
| EToggle (auth : auth_outcome)                 (* togglePolling from the popup *)
| EStartup                                      (* onInstalled / onStartup: a new worker, initialized *)
| EWake                                         (* the service worker restarted for an event *)
| EClear                                        (* clearProcessed from the popup *)
| ESaveKey (input : jstr).                      (* the popup's save button *)

Section Run.

Variable StringToNumber : jstr -> jsnum.

Definition step (ev : Event) (w : Worker) : Worker * list Notification :=
  match ev with
  | ECheck fa rf unread summ => checkForNewEmails fa rf unread summ w
  | EToggle a => (fst (togglePolling a w), [])
  | EStartup => (initialize StringToNumber (fresh w), [])
  | EWake => (fresh w, [])
  | EClear => (clear w, [])
  | ESaveKey input => (with_store (Some (saveApiKey (settings_store w) input)) w, [])
  end.

Fixpoint run (evs : list Event) (w : Worker) : Worker * list Notification :=
  match evs with
  | [] => (w, [])
  | ev :: evs' =>
      let '(w1, ns1) := step ev w in
      let '(w2, ns2) := run evs' w1 in
      (w2, ns1 ++ ns2)
  end.

End Run.

End Worker.

Module Interleaving.
Import AI Background GmailApi Worker.

(** A [checkForNewEmails] call in flight, after its listing resolved, at
    the await points of its [for] loop. *)
Inductive Task : Type :=
| TLoop (emails : list ParsedEmail)                  (* at the head of the loop *)
| TNotify (e : ParsedEmail) (rest : list ParsedEmail) (* awaiting [this.processEmail(e)] *)
| TMark (e : ParsedEmail) (rest : list ParsedEmail)   (* [processEmail] returned; [markAsProcessed] next *)
| TDone.

(** One resumption of a task, on the shared [Notifier]: the loop head
    tests [has(email.id)]; [processEmail] creates the notification when
    the AI result arrives; [markAsProcessed] adds the id and writes the
    snapshot of the set. *)
Definition advance (summarize : jstr -> jstr -> Result) (t : Task) (n : Notifier)
    : Task * Notifier * list Notification :=
  match t with
  | TLoop [] => (TDone, n, [])
  | TLoop (e :: rest) =>
      if set_has (processedMessages n) (email_id e) then (TLoop rest, n, [])
      else (TNotify e rest, n, [])
  | TNotify e rest => (TMark e rest, n, [notify summarize e])
  | TMark e rest => (TLoop rest, markAsProcessed (email_id e) n, [])
  | TDone => (TDone, n, [])
  end.

Fixpoint replace_nth {A : Type} (i : nat) (x : A) (l : list A) : list A :=
  match l, i with
  | [], _ => []
  | _ :: l', O => x :: l'
  | y :: l', S i' => y :: replace_nth i' x l'
  end.

(** The event loop resumes the tasks in the order [sched] names them. *)
Fixpoint run_tasks (summarize : jstr -> jstr -> Result) (sched : list nat) (ts : list Task)
    (n : Notifier) : list Task * Notifier * list Notification :=
  match sched with
  | [] => (ts, n, [])
  | i :: sched' =>
      let '(t', n1, ns1) := advance summarize (nth i ts TDone) n in
      let '(ts2, n2, ns2) := run_tasks summarize sched' (replace_nth i t' ts) n1 in
      (ts2, n2, ns1 ++ ns2)
  end.

End Interleaving.

(** ** [popup.js]: [loadStatus] *)

Module Popup.
Import AI StoredSettings.

Record StatusView : Type := { status_text : jstr; last_check_text : jstr; processed_count_text : jstr }.

Section View.

(** [new Date(v).toLocaleString()] *)
Variable toLocaleString : json -> jstr.

(** The texts [loadStatus] sets from the [getStatus] response. *)
Definition loadStatus (response : json) : StatusView :=
  {| status_text :=
       match get response (js "isRunning") with
       | Some v => if truthy v then js "Active" else js "Inactive"
       | None => js "Inactive"
       end;
     last_check_text :=
       match get response (js "lastCheck") with
       | Some v => if truthy v then toLocaleString v else js "Never"
       | None => js "Never"
       end;
     processed_count_text :=
       match get response (js "processedCount") with
       | Some v => if truthy v then js_String v else js "0"
       | None => js "0"
       end |}.

End View.

End Popup.

(** ** Predicates used by the statements *)

Module SanitizerSpec.
Import AI.

(** No [/https?:\/\/\S+/] match starts anywhere in [s]. *)
Fixpoint no_url (s : jstr) : bool :=
  match s with
  | [] => true
  | _ :: s' => negb (url_start s) && no_url s'
  end.

Definition starts_nonws (s : jstr) : bool :=
  match s with [] => true | c :: _ => negb (is_ws c) end.

Definition ends_nonws (s : jstr) : bool := starts_nonws (rev s).

(** The only whitespace is the space character. *)
Definition ws_only_space (s : jstr) : bool :=
  forallb (fun c => negb (is_ws c) || Ascii.eqb c " "%char) s.

Fixpoint no_double_ws (s : jstr) : bool :=
  match s with
  | c :: ((d :: _) as s') => negb (is_ws c && is_ws d) && no_double_ws s'
  | _ => true
  end.

(** Whitespace already collapsed to single spaces. *)
Definition normalized (s : jstr) : bool := ws_only_space s && no_double_ws s.

Definition no_letters (s : jstr) : bool := negb (existsb is_letter_ascii s).

(** [p] occurs in [s] as a contiguous piece. *)
Definition occurs_in (p s : jstr) : Prop := exists a b, s = a ++ p ++ b.

Definition no_ws (p : jstr) : bool := forallb (fun c => negb (is_ws c)) p.

End SanitizerSpec.

(** ** Concrete inputs *)

Module Fixtures.
Import AI.

(** [n] one-letter words: ["a a ... a "]. *)
Fixpoint a_words (n : nat) : jstr :=
  match n with
  | 0 => []
  | S n' => js "a " ++ a_words n'
  end.

(** ["on x\nwrote: y"]: the quoted-reply header is split over two lines. *)
Definition split_reply_header : jstr := js "on x" ++ ["010"%char] ++ js "wrote: y".

Definition dq : ascii := "034"%char.
Definition backslash : ascii := "092"%char.

(** String contents with double quotes and backslashes escaped by a
    backslash (the fixtures hold no control character). *)
Fixpoint json_escape (s : jstr) : jstr :=
  match s with
  | [] => []
  | c :: s' =>
      if Ascii.eqb c dq || Ascii.eqb c backslash then backslash :: c :: json_escape s'
      else c :: json_escape s'
  end.

(** The JSON text of a value. *)
Fixpoint json_text (v : json) : jstr :=
  match v with
  | JNull => js "null"
  | JBool true => js "true"
  | JBool false => js "false"
  | JNum r => r
  | JStr s => dq :: json_escape s ++ [dq]
  | JArr xs => js "[" ++ join_comma (map json_text xs) ++ js "]"
  | JObj kvs =>
      js "{" ++ join_comma (map (fun kv => dq :: json_escape (fst kv) ++ [dq] ++ js ":" ++ json_text (snd kv)) kvs)
      ++ js "}"
  end.

(** [JSON.parse] restricted to the texts of the given values. *)
Definition parse_of (vs : list json) (s : jstr) : option json :=
  find (fun v => jstr_eqb (json_text v) s) vs.

(** A chat-completion response whose message content is [content]. *)
Definition completion (content : json) : json :=
  JObj [(js "choices", JArr [JObj [(js "message", JObj [(js "content", JStr (json_text content))])]])].

(** The model's answer [{"summary": summ, "tag": tag}]. *)
Definition answer (summ tag : jstr) : json :=
  JObj [(js "summary", JStr summ); (js "tag", JStr tag)].

Definition parser_for (summ tag : jstr) : jstr -> option json :=
  parse_of [completion (answer summ tag); answer summ tag].

Definition response_for (summ tag : jstr) : fetch_outcome :=
  Response 200 (json_text (completion (answer summ tag))).

Definition with_key : Settings := {| aiApiKey := js "sk-test" |}.

Definition sixty_words : jstr := trim (a_words 60).

Definition otp_summary : jstr := js "The sender shares a one-time code.".

(** The example of the spec: an html part before a plain part, with
    base64 data ["<b>hi</b>"] and ["Hello world"]. *)
Definition html_then_plain : Gmail.RawMessage :=
  Gmail.Part (js "multipart/alternative") []
    (Some [Gmail.Part Gmail.text_html (js "PGI+aGk8L2I+") None;
           Gmail.Part Gmail.text_plain (js "SGVsbG8gd29ybGQ=") None]).

(** [atob] followed by UTF-8 decoding on the two data strings above. *)
Definition demo_atob (s : jstr) : option jstr :=
  if jstr_eqb s (js "SGVsbG8gd29ybGQ=") then Some (js "Hello world")
  else if jstr_eqb s (js "PGI+aGk8L2I+") then Some (js "<b>hi</b>")
  else None.

(** An attachment-only message. *)
Definition attachment_only : Gmail.RawMessage :=
  Gmail.Part (js "multipart/mixed") []
    (Some [Gmail.Part (js "application/pdf") (js "JVBERi0xLjQ=") None]).

End Fixtures.

(** ** Predicates and inputs for the remaining modules *)

Module ExtraSpec.
Import AI Background Worker.

(** No [<] in [s] has a [>] after it. *)
Fixpoint no_open_tag (s : jstr) : bool :=
  match s with
  | [] => true
  | c :: s' => negb (Ascii.eqb c Html.lt_char && Html.has_gt s') && no_open_tag s'
  end.

Definition count_char (c : ascii) (s : jstr) : nat :=
  List.length (filter (fun d => Ascii.eqb d c) s).

Definition no_angle (s : jstr) : bool :=
  forallb (fun c => negb (Ascii.eqb c "<"%char || Ascii.eqb c ">"%char)) s.

(** The persisted list is the in-memory set (or nothing was ever
    persisted and the set is empty), and the set has no duplicates. *)
Definition synced (n : Notifier) : Prop :=
  (processed_messages (storage n) = Some (processedMessages n) \/
   (processed_messages (storage n) = None /\ processedMessages n = [])) /\
  NoDup (processedMessages n).

Definition keeps_history (ev : Event) : bool :=
  match ev with EClear | EWake => false | _ => true end.

Definition no_wake (ev : Event) : bool :=
  match ev with EWake => false | _ => true end.

(** Drop from every rule the alternatives that already appear in an
    earlier rule with the [i] flag, and the rules left with none. *)
Fixpoint prune (seen : list jstr) (rules : list HintRule) : list HintRule :=
  match rules with
  | [] => []
  | r :: rs =>
      let seen' := if rule_ci r then rule_alts r ++ seen else seen in
      match filter (fun a => negb (existsb (jstr_eqb a) seen)) (rule_alts r) with
      | [] => prune seen' rs
      | alts => {| rule_ci := rule_ci r; rule_alts := alts; rule_hint := rule_hint r |}
                :: prune seen' rs
      end
  end.

(** The rules with the [i] flag, then the one alternative of the second
    block that none of them has. *)
Definition reachable_rules : list HintRule :=
  firstn 29 context_rules ++
  [{| rule_ci := false; rule_alts := [js "login attempt"];
      rule_hint := js "Security alert detected; review immediately." |}].

(** A fresh installation: nothing stored, no alarm. *)
Definition installed : Worker :=
  {| notifier := {| processedMessages := []; storage := {| processed_messages := None |} |};
     isRunning := false; authToken := []; pollingInterval := 60%Q;
     settings_store := None; alarm := None |}.

Definition sample_email : GmailApi.ParsedEmail :=
  {| GmailApi.email_id := js "18c2f"; GmailApi.threadId := js "18c2f";
     GmailApi.subject := js "Lunch"; GmailApi.snippet := js "see you at noon";
     GmailApi.body := js "see you at noon"; GmailApi.fromName := js "Ana";
     GmailApi.fromEmail := js "ana@example.com"; GmailApi.date := [];
     GmailApi.internalDate := [] |}.

Definition rule_summary (subject body : jstr) : Result :=
  basicFallback subject (cleanEmail body).

(** [StringToNumber] on the decimal integers the fixtures store. *)
Fixpoint digits_value (acc : nat) (s : jstr) : option nat :=
  match s with
  | [] => Some acc
  | c :: s' =>
      if (48 <=? code c) && (code c <=? 57) then digits_value (acc * 10 + (code c - 48)) s'
      else None
  end.

Definition int_string_to_number (s : jstr) : StoredSettings.jsnum :=
  match s with
  | [] => StoredSettings.NumFinite 0
  | _ => match digits_value 0 s with
         | Some n => StoredSettings.NumFinite (inject_Z (Z.of_nat n))
         | None => StoredSettings.NumNaN
         end
  end.

(** A session: the user turns notifications on, two checks list the same
    email twice, the API key is saved and the browser restarts. *)
Definition demo_token : jstr := js "ya29.token".

Definition demo_unread (t : jstr) : GmailApi.outcome (list GmailApi.ParsedEmail) :=
  GmailApi.Ok [sample_email; sample_email].

Definition demo_check : Event :=
  ECheck (Granted demo_token) (Granted demo_token) demo_unread rule_summary.

Definition demo_session : list Event :=
  [EToggle (Granted demo_token); demo_check; ESaveKey (js " sk-1 "); demo_check;
   EStartup; demo_check].

Definition demo_message (i : jstr) : GmailApi.MessageData :=
  {| GmailApi.md_id := i; GmailApi.md_threadId := i; GmailApi.md_snippet := js "hi";
     GmailApi.md_payload := None; GmailApi.md_internalDate := [] |}.

Definition stored_120 : option json := Some (JObj [(js "pollingInterval", JStr (js "120"))]).

End ExtraSpec.

(** ** Encoders for the base64 statements *)

Module Base64Spec.

Local Open Scope Z_scope.

(** The URL-safe base64 alphabet Gmail uses for [body.data]. *)
Definition b64url_char (v : Z) : ascii :=
  ascii_of_nat (Z.to_nat (if v <? 26 then v + 65 else if v <? 52 then v + 71
                          else if v <? 62 then v - 4 else if v =? 62 then 45 else 95)).

Fixpoint sextets (bytes : list Z) : list Z :=
  match bytes with
  | a :: b :: c :: r =>
      let n := a * 65536 + b * 256 + c in
      n / 262144 :: (n / 4096) mod 64 :: (n / 64) mod 64 :: n mod 64 :: sextets r
  | [a; b] => let n := (a * 256 + b) * 4 in [n / 4096; (n / 64) mod 64; n mod 64]
  | [a] => let n := a * 16 in [n / 64; n mod 64]
  | [] => []
  end.

(** Base64url without padding. *)
Definition b64url_encode (bytes : list Z) : jstr := map b64url_char (sextets bytes).

Definition utf8_encode (v : Z) : list Z :=
  if v <? 128 then [v]
  else if v <? 2048 then [192 + v / 64; 128 + v mod 64]
  else if v <? 65536 then [224 + v / 4096; 128 + (v / 64) mod 64; 128 + v mod 64]
  else [240 + v / 262144; 128 + (v / 4096) mod 64; 128 + (v / 64) mod 64; 128 + v mod 64].

Definition scalar_value (v : Z) : bool :=
  (0 <=? v) && (v <=? 1114111) && negb ((55296 <=? v) && (v <=? 57343)).

Definition is_byte (b : Z) : bool := (0 <=? b) && (b <? 256).

End Base64Spec.

(** * Properties *)

(** ** Strings *)

Lemma jstr_eqb_eq (a b : jstr) : jstr_eqb a b = true <-> a = b.
Proof.
  revert b; induction a as [|x a IH]; intros [|y b]; simpl; split; intro H;
    try discriminate; try reflexivity.
  - apply andb_prop in H as [H1 H2]. apply Ascii.eqb_eq in H1.
    apply IH in H2. subst. reflexivity.
  - injection H as -> ->. rewrite Ascii.eqb_refl. simpl. apply IH. reflexivity.
Qed.

Lemma jstr_eqb_refl (a : jstr) : jstr_eqb a a = true.
Proof. apply jstr_eqb_eq. reflexivity. Qed.

(** ** Body extraction *)

Module GmailProofs.
Import Gmail.

Section WithDecoder.
Variable atob_utf8 : jstr -> option jstr.
Variable stripHtml : jstr -> jstr.

Local Abbreviation extract := (extractEmailBody atob_utf8 stripHtml).
Local Abbreviation decode := (decodeBase64 atob_utf8).

Lemma find_part_after (f : RawMessage -> bool) pre p post :
  forallb (fun q => negb (f q)) pre = true -> f p = true ->
  find_part f (pre ++ p :: post) = Some p.
Proof.
  induction pre as [|q pre IH]; simpl; intros Hpre Hp.
  - rewrite Hp. reflexivity.
  - apply andb_prop in Hpre as [Hq Hpre].
    destruct (f q); [discriminate|]. apply IH; assumption.
Qed.

Lemma find_part_none (f : RawMessage -> bool) ps :
  forallb (fun q => negb (f q)) ps = true -> find_part f ps = None.
Proof.
  induction ps as [|q ps IH]; simpl; intro H; [reflexivity|].
  apply andb_prop in H as [Hq H].
  destruct (f q); [discriminate|]. apply IH; assumption.
Qed.

(** A node that is not itself a text part with data goes to its [parts]. *)
Lemma extract_not_text_leaf t d ps :
  is_plain_part (Part t d ps) = false -> is_html_part (Part t d ps) = false ->
  extract (Part t d ps) =
  match ps with
  | None => []
  | Some ps =>
      match find_part is_plain_part ps with
      | Some p => decode (data p)
      | None =>
          match find_part is_html_part ps with
          | Some p => stripHtml (decode (data p))
          | None => first_nonempty extract ps
          end
      end
  end.
Proof.
  unfold is_plain_part, is_html_part; simpl. intros Hp Hh.
  destruct (negb (is_empty t) && negb (is_empty d)) eqn:E; [|reflexivity].
  apply andb_prop in E as [_ Ed]. rewrite Ed in Hp, Hh.
  rewrite andb_true_r in Hp, Hh. rewrite Hp, Hh. reflexivity.
Qed.

Lemma extract_text_leaf_decode_fail m :
  stripHtml [] = [] ->
  is_plain_part m || is_html_part m = true ->
  atob_utf8 (normalize_b64 (data m)) = None ->
  extract m = [].
Proof.
  intros Hs Htext Hfail. destruct m as [t d ps]. simpl in Hfail |- *.
  unfold decodeBase64. rewrite Hfail.
  unfold is_plain_part, is_html_part in Htext; simpl in Htext.
  apply orb_true_iff in Htext as [H|H]; apply andb_prop in H as [Ht Hd];
    apply jstr_eqb_eq in Ht; subst t; rewrite Hd; simpl.
  - reflexivity.
  - exact Hs.
Qed.

Lemma has_textual_root q :
  has_textual q = false -> is_plain_part q = false /\ is_html_part q = false.
Proof.
  destruct q as [t d ps]. simpl. intro H.
  apply orb_false_iff in H as [H _]. apply orb_false_iff in H. exact H.
Qed.

Lemma extract_no_textual (m : RawMessage) :
  has_textual m = false -> extract m = [].
Proof.
  induction m as [t d ps IH] using RawMessage_ind'.
  intro H. simpl in H.
  apply orb_false_iff in H as [H Hps]. apply orb_false_iff in H as [Hp Hh].
  rewrite extract_not_text_leaf by assumption.
  destruct ps as [l|]; [|reflexivity].
  assert (Hall : forall q, In q l -> has_textual q = false).
  { intros q Hq. destruct (has_textual q) eqn:E; [|reflexivity].
    exfalso. assert (existsb has_textual l = true) by (apply existsb_exists; eauto).
    congruence. }
  rewrite find_part_none.
  2:{ apply forallb_forall. intros q Hq.
      destruct (has_textual_root q (Hall q Hq)) as [-> _]. reflexivity. }
  rewrite find_part_none.
  2:{ apply forallb_forall. intros q Hq.
      destruct (has_textual_root q (Hall q Hq)) as [_ ->]. reflexivity. }
  clear Hps Hp Hh. induction IH as [|q l Hq Hl IHl]; simpl; [reflexivity|].
  rewrite Hq by (apply Hall; left; reflexivity).
  apply IHl. intros r Hr. apply Hall. right. exact Hr.
Qed.

End WithDecoder.

(** [C1] For a node that is not itself a [text/plain] or [text/html] part
    with data (a multipart node) and its children [ps]: when some child is
    a [text/plain] part with data, the result is the decoded data of the
    first such child, wherever [text/html] children stand in the sequence;
    when there is none but a [text/html] child, the first html child is
    decoded and stripped; when the children hold neither, the result is the
    first non-empty extraction of the children in order ([''] if none). *)
Theorem extract_plain_over_html_same_level :
  forall (atob_utf8 : jstr -> option jstr) (stripHtml : jstr -> jstr)
         (m : RawMessage) (ps : list RawMessage),
  is_plain_part m = false -> is_html_part m = false -> parts m = Some ps ->
  (forall pre p post, ps = pre ++ p :: post -> is_plain_part p = true ->
     forallb (fun q => negb (is_plain_part q)) pre = true ->
     extractEmailBody atob_utf8 stripHtml m = decodeBase64 atob_utf8 (data p)) /\
  (forallb (fun q => negb (is_plain_part q)) ps = true ->
   forall pre h post, ps = pre ++ h :: post -> is_html_part h = true ->
     forallb (fun q => negb (is_html_part q)) pre = true ->
     extractEmailBody atob_utf8 stripHtml m = stripHtml (decodeBase64 atob_utf8 (data h))) /\
  (forallb (fun q => negb (is_plain_part q) && negb (is_html_part q)) ps = true ->
     extractEmailBody atob_utf8 stripHtml m
     = first_nonempty (extractEmailBody atob_utf8 stripHtml) ps).
Proof.
  intros atob strip [t d ps0] ps Hp Hh Hps. simpl in Hps. subst ps0.
  rewrite extract_not_text_leaf by assumption.
  split; [|split].
  - intros pre p post -> Hplain Hpre. rewrite find_part_after by assumption.
    reflexivity.
  - intros Hnoplain pre h post Heq Hhtml Hpre.
    rewrite find_part_none by assumption. subst ps.
    rewrite find_part_after by assumption. reflexivity.
  - intros Hnone. rewrite !find_part_none; [reflexivity| |];
      apply forallb_forall; intros q Hq;
      pose proof (proj1 (forallb_forall _ _) Hnone q Hq) as Hq';
      apply andb_prop in Hq' as [H1 H2]; assumption.
Qed.

(** [C2] Extraction always yields a string: on a tree with no [text/plain]
    or [text/html] part carrying data it returns [''], [decodeBase64]
    returns [''] when decoding throws, and a text part whose data fails to
    decode yields [''] (for [text/html], as [stripHtml('')] is ['']). *)
Theorem extract_total_empty_without_text :
  forall (atob_utf8 : jstr -> option jstr) (stripHtml : jstr -> jstr),
  stripHtml [] = [] ->
  (forall m, has_textual m = false -> extractEmailBody atob_utf8 stripHtml m = []) /\
  (forall s, atob_utf8 (normalize_b64 s) = None -> decodeBase64 atob_utf8 s = []) /\
  (forall m, is_plain_part m || is_html_part m = true ->
     atob_utf8 (normalize_b64 (data m)) = None ->
     extractEmailBody atob_utf8 stripHtml m = []).
Proof.
  intros atob strip Hs. split; [|split].
  - apply extract_no_textual.
  - intros s0 H. unfold decodeBase64. rewrite H. reflexivity.
  - intros m. apply extract_text_leaf_decode_fail. exact Hs.
Qed.

End GmailProofs.

(** ** The sanitizer *)

Module SanitizerProofs.
Import AI SanitizerSpec Fixtures.

(** *** Prefixes and suffixes *)

Lemma normalized_cons c s :
  normalized (c :: s) = true ->
  normalized s = true /\ (is_ws c = true -> Ascii.eqb c " "%char = true /\ starts_nonws s = true).
Proof.
  unfold normalized, ws_only_space. simpl. intro H.
  apply andb_prop in H as [H1 H2]. apply andb_prop in H1 as [Hc Hs].
  destruct s as [|d s]; simpl in *.
  - split; [reflexivity|]. intro Hw. rewrite Hw in Hc. simpl in Hc. auto.
  - apply andb_prop in H2 as [Hcd H2]. rewrite Hs, H2. split; [reflexivity|].
    intro Hw. rewrite Hw in Hc, Hcd. simpl in Hc, Hcd. split; [exact Hc|].
    destruct (is_ws d); [discriminate|reflexivity].
Qed.

Lemma normalized_app a b :
  normalized (a ++ b) = true -> normalized a = true /\ normalized b = true.
Proof.
  unfold normalized, ws_only_space. rewrite forallb_app. intro H.
  apply andb_prop in H as [H1 H2]. apply andb_prop in H1 as [Ha Hb].
  rewrite Ha, Hb. simpl.
  assert (no_double_ws a = true /\ no_double_ws b = true) as [-> ->]; [|auto].
  induction a as [|c a IH]; simpl in *; [auto|].
  destruct a as [|d a].
  - destruct b as [|e b]; simpl in H2; [auto|].
    apply andb_prop in H2 as [_ H2]. auto.
  - apply andb_prop in H2 as [Hcd H2]. apply andb_prop in Ha as [_ Ha].
    destruct (IH Ha H2) as [-> ->]. rewrite Hcd. auto.
Qed.

Lemma url_start_nil : url_start [] = false.
Proof. reflexivity. Qed.

Lemma prefixb_app p s r : prefixb p s = true -> prefixb p (s ++ r) = true.
Proof.
  revert s; induction p as [|a p IH]; intros [|b s]; simpl; try easy.
  intro H. apply andb_prop in H as [H1 H2]. rewrite H1. simpl. auto.
Qed.

Lemma prefixb_skipn p s k r :
  prefixb p s = true -> List.length p <= k ->
  (exists c t, skipn k s = c :: t) ->
  skipn k (s ++ r) = skipn k s ++ r.
Proof.
  intros _ _ [c [t Ht]]. rewrite skipn_app.
  assert (Hk : k - List.length s = 0).
  { destruct (Nat.le_gt_cases k (List.length s)) as [H|H]; [lia|].
    rewrite skipn_all2 in Ht by lia. discriminate. }
  rewrite Hk. reflexivity.
Qed.

(** A URL match stays a match when text is appended. *)
Lemma url_start_app s r : url_start s = true -> url_start (s ++ r) = true.
Proof.
  unfold url_start. intro H. apply orb_true_iff in H as [H|H]; apply andb_prop in H as [Hp Hc].
  - destruct (skipn 7 s) as [|c t] eqn:E; [discriminate|].
    rewrite (prefixb_app _ _ _ Hp).
    rewrite (prefixb_skipn (js "http://") s 7 r Hp) by (simpl; lia || eauto).
    rewrite E. simpl. rewrite Hc. reflexivity.
  - destruct (skipn 8 s) as [|c t] eqn:E; [discriminate|].
    rewrite (prefixb_app _ _ _ Hp).
    rewrite (prefixb_skipn (js "https://") s 8 r Hp) by (simpl; lia || eauto).
    rewrite E. simpl. rewrite Hc. apply orb_true_r.
Qed.

Lemma url_start_app_false s r : url_start (s ++ r) = false -> url_start s = false.
Proof.
  intro H. destruct (url_start s) eqn:E; [|reflexivity].
  rewrite (url_start_app _ _ E) in H. discriminate.
Qed.

Lemma no_url_app a b : no_url (a ++ b) = true -> no_url a = true /\ no_url b = true.
Proof.
  induction a as [|c a IH]; simpl; intro H; [auto|].
  apply andb_prop in H as [Hc H]. destruct (IH H) as [-> ->].
  rewrite (url_start_app_false (c :: a) b) by (apply negb_true_iff; exact Hc).
  auto.
Qed.

Lemma starts_nonws_app a b : starts_nonws (a ++ b) = true -> starts_nonws a = true.
Proof. destruct a; simpl; auto. Qed.

Lemma firstn_split n (s : jstr) : s = firstn n s ++ skipn n s.
Proof. symmetry. apply firstn_skipn. Qed.

Lemma space_of_code c : Ascii.eqb c " "%char = true -> c = " "%char.
Proof. intro H. apply Ascii.eqb_eq. exact H. Qed.

Lemma space_is_ws : is_ws " "%char = true.
Proof. reflexivity. Qed.

Lemma prefixb_split p s : prefixb p s = true -> s = p ++ skipn (List.length p) s.
Proof.
  revert s; induction p as [|a p IH]; intros [|b s]; simpl; try easy.
  intro H. apply andb_prop in H as [H1 H2]. apply Ascii.eqb_eq in H1. subst.
  f_equal. apply IH. exact H2.
Qed.

(** Every URL match starts with a block of non-whitespace that is itself a
    match. *)
Lemma url_start_block s :
  url_start s = true ->
  exists b r, s = b ++ r /\ forallb (fun c => negb (is_ws c)) b = true /\ url_start b = true.
Proof.
  unfold url_start. intro H. apply orb_true_iff in H as [H|H]; apply andb_prop in H as [Hp Hc].
  - destruct (skipn 7 s) as [|c t] eqn:E; [discriminate|].
    exists (js "http://" ++ [c]), t.
    assert (Hs : s = js "http://" ++ skipn 7 s) by exact (prefixb_split _ _ Hp).
    rewrite E in Hs. split; [rewrite Hs; reflexivity|].
    simpl. rewrite Hc. split; reflexivity.
  - destruct (skipn 8 s) as [|c t] eqn:E; [discriminate|].
    exists (js "https://" ++ [c]), t.
    assert (Hs : s = js "https://" ++ skipn 8 s) by exact (prefixb_split _ _ Hp).
    rewrite E in Hs. split; [rewrite Hs; reflexivity|].
    simpl. rewrite Hc. split; reflexivity.
Qed.

(** If [f] copies every leading non-whitespace block of its argument,
    a URL match at the start of [c :: f s] is one at the start of [c :: s]. *)
Lemma url_start_transfer c (s fs : jstr) :
  (forall b, forallb (fun c => negb (is_ws c)) b = true ->
     (exists r, fs = b ++ r) -> exists r, s = b ++ r) ->
  url_start (c :: s) = false -> url_start (c :: fs) = false.
Proof.
  intros Hf Hs. destruct (url_start (c :: fs)) eqn:E; [|reflexivity].
  destruct (url_start_block _ E) as [b [r [Heq [Hb Hu]]]].
  destruct b as [|c' b]; [discriminate|].
  simpl in Heq. injection Heq as <- Hfs.
  simpl in Hb. apply andb_prop in Hb as [_ Hb].
  destruct (Hf b Hb (ex_intro _ r Hfs)) as [r' ->].
  rewrite <- (url_start_app (c :: b) r' Hu). rewrite <- Hs. reflexivity.
Qed.

(** *** Whitespace collapse *)

Lemma skip_url_starts s : starts_nonws (skip_url s) = false \/ skip_url s = [].
Proof.
  induction s as [|c s IH]; simpl; [auto|].
  destruct (is_ws c) eqn:E; simpl; [left; rewrite E; reflexivity|exact IH].
Qed.

Lemma collapse_copies_block s :
  forall b, forallb (fun c => negb (is_ws c)) b = true ->
  (exists r, collapse_ws s = b ++ r) -> exists r, s = b ++ r.
Proof.
  induction s as [|c s IH]; intros b Hb [r Hr]; simpl in Hr.
  - destruct b; [exists []; reflexivity|discriminate].
  - destruct b as [|c' b]; [exists (c :: s); reflexivity|].
    simpl in Hb. apply andb_prop in Hb as [Hc' Hb].
    destruct (is_ws c) eqn:E; injection Hr as <- Hr.
    + rewrite space_is_ws in Hc'. discriminate.
    + destruct (IH b Hb (ex_intro _ r Hr)) as [r' ->]. exists r'. reflexivity.
Qed.

Lemma remove_urls_copies_block s :
  forall b, forallb (fun c => negb (is_ws c)) b = true ->
  (exists r, remove_urls s = b ++ r) -> exists r, s = b ++ r.
Proof.
  induction s as [|c s IH]; intros b Hb [r Hr]; simpl in Hr.
  - destruct b; [exists []; reflexivity|discriminate].
  - destruct b as [|c' b]; [exists (c :: s); reflexivity|].
    simpl in Hb. apply andb_prop in Hb as [Hc' Hb].
    destruct (url_start (c :: s)) eqn:E.
    + exfalso. destruct (skip_url_starts s) as [H|H]; rewrite Hr in H; simpl in H.
      * rewrite Hc' in H. discriminate.
      * discriminate.
    + injection Hr as <- Hr.
      destruct (IH b Hb (ex_intro _ r Hr)) as [r' ->]. exists r'. reflexivity.
Qed.

Lemma url_start_ws c s : is_ws c = true -> url_start (c :: s) = false.
Proof.
  intro H. destruct (url_start (c :: s)) eqn:E; [|reflexivity].
  unfold url_start in E.
  apply orb_true_iff in E as [E|E]; apply andb_prop in E as [E _];
    apply prefixb_split in E; injection E as Ec _; subst c; discriminate H.
Qed.

Lemma remove_urls_no_url s :
  no_url (remove_urls s) = true /\ no_url (skip_url s) = true.
Proof.
  induction s as [|c s [IH1 IH2]]; simpl; [auto|]. split.
  - destruct (url_start (c :: s)) eqn:E; [exact IH2|].
    simpl. rewrite IH1, andb_true_r.
    rewrite (url_start_transfer c s (remove_urls s)); [reflexivity| |exact E].
    apply remove_urls_copies_block.
  - destruct (is_ws c) eqn:E; [|exact IH2].
    simpl. rewrite url_start_ws by exact E. exact IH1.
Qed.

Lemma collapse_no_url s :
  no_url s = true -> no_url (collapse_ws s) = true /\ no_url (drop_ws_run s) = true.
Proof.
  induction s as [|c s IH]; cbn [no_url collapse_ws drop_ws_run]; intro H; [auto|].
  apply andb_prop in H as [Hc H]. destruct (IH H) as [IH1 IH2].
  destruct (is_ws c) eqn:E; cbn [no_url].
  - rewrite url_start_ws by reflexivity. auto.
  - assert (Hu : url_start (c :: collapse_ws s) = false).
    { apply (url_start_transfer c s); [apply collapse_copies_block|].
      apply negb_true_iff. exact Hc. }
    rewrite Hu, IH1. auto.
Qed.

Lemma collapse_normalized s :
  normalized (collapse_ws s) = true /\
  normalized (drop_ws_run s) = true /\ starts_nonws (drop_ws_run s) = true.
Proof.
  induction s as [|c s [IH1 [IH2 IH3]]]; simpl; [auto|].
  destruct (is_ws c) eqn:E.
  - repeat split; try assumption.
    unfold normalized, ws_only_space in *. simpl.
    apply andb_prop in IH2 as [Ha Hb]. rewrite Ha. simpl.
    destruct (drop_ws_run s) as [|d t]; simpl in *; [reflexivity|].
    rewrite IH3, Hb. reflexivity.
  - assert (Hn : normalized (c :: collapse_ws s) = true).
    { unfold normalized, ws_only_space in *. simpl. rewrite E. simpl.
      apply andb_prop in IH1 as [Ha Hb]. rewrite Ha. simpl.
      destruct (collapse_ws s); [reflexivity|]. rewrite Hb. reflexivity. }
    simpl. rewrite E. auto.
Qed.

Lemma collapse_id s :
  normalized s = true ->
  collapse_ws s = s /\ (starts_nonws s = true -> drop_ws_run s = s).
Proof.
  induction s as [|c s IH]; simpl; intro H; [auto|].
  destruct (normalized_cons c s H) as [Hs Hc]. destruct (IH Hs) as [IH1 IH2].
  destruct (is_ws c) eqn:E.
  - destruct (Hc eq_refl) as [Hsp Hst]. apply space_of_code in Hsp. subst c.
    rewrite (IH2 Hst). split; [reflexivity|discriminate].
  - rewrite IH1. auto.
Qed.

(** *** Trimming, cutting, greeting removal *)

Lemma trim_start_suffix s : exists a, s = a ++ trim_start s.
Proof.
  induction s as [|c s [a Ha]]; simpl; [exists []; reflexivity|].
  destruct (is_ws c); [exists (c :: a); rewrite Ha at 1; reflexivity|exists []; reflexivity].
Qed.

Lemma trim_start_starts s : starts_nonws (trim_start s) = true.
Proof.
  induction s as [|c s IH]; simpl; [reflexivity|].
  destruct (is_ws c) eqn:E; simpl; [exact IH|rewrite E; reflexivity].
Qed.

Lemma trim_start_id s : starts_nonws s = true -> trim_start s = s.
Proof.
  destruct s as [|c s]; simpl; [reflexivity|].
  intro H. destruct (is_ws c); [discriminate|reflexivity].
Qed.

Lemma rtrim_prefix u : exists b, u = rev (trim_start (rev u)) ++ b.
Proof.
  destruct (trim_start_suffix (rev u)) as [a Ha].
  exists (rev a). rewrite <- rev_app_distr, <- Ha, rev_involutive. reflexivity.
Qed.

Lemma trim_sub s : exists a b, s = a ++ trim s ++ b.
Proof.
  destruct (trim_start_suffix s) as [a Ha].
  destruct (rtrim_prefix (trim_start s)) as [b Hb].
  exists a, b. unfold trim. rewrite <- Hb. exact Ha.
Qed.

Lemma trim_starts s : starts_nonws (trim s) = true.
Proof.
  destruct (rtrim_prefix (trim_start s)) as [b Hb].
  apply (starts_nonws_app _ b). unfold trim. rewrite <- Hb. apply trim_start_starts.
Qed.

Lemma trim_prefix s : starts_nonws s = true -> exists b, s = trim s ++ b.
Proof.
  intro H. unfold trim. rewrite (trim_start_id s H). apply rtrim_prefix.
Qed.

Lemma trim_id s : starts_nonws s = true -> ends_nonws s = true -> trim s = s.
Proof.
  intros H1 H2. unfold trim, ends_nonws in *.
  rewrite (trim_start_id s H1), (trim_start_id (rev s) H2). apply rev_involutive.
Qed.

Lemma cut_from_first_prefix m s : exists r, s = cut_from_first m s ++ r.
Proof.
  induction s as [|c s [r Hr]]; simpl.
  - destruct (m []); exists []; reflexivity.
  - destruct (m (c :: s)); [exists (c :: s); reflexivity|].
    exists r. simpl. rewrite <- Hr. reflexivity.
Qed.

Lemma lt_not_space c : (negb (is_ws c) || Ascii.eqb c " "%char) = true -> is_lt c = false.
Proof. destruct c as [[] [] [] [] [] [] [] []]; vm_compute; congruence. Qed.

Lemma after_first_newline_none r :
  forallb (fun c => negb (is_lt c)) r = true -> after_first_newline r = None.
Proof.
  induction r as [|c r IH]; simpl; intro H; [reflexivity|].
  apply andb_prop in H as [Hc H]. apply negb_true_iff in Hc.
  assert (H10 : (code c =? 10) = false).
  { unfold is_lt in Hc. apply orb_false_iff in Hc as [Hc _]. exact Hc. }
  rewrite H10, Hc. apply IH. exact H.
Qed.

Lemma forallb_skipn {A} (f : A -> bool) n l :
  forallb f l = true -> forallb f (skipn n l) = true.
Proof.
  rewrite <- (firstn_skipn n l) at 1. rewrite forallb_app.
  intro H. apply andb_prop in H as [_ H]. exact H.
Qed.

Lemma remove_greeting_no_lt s :
  forallb (fun c => negb (is_lt c)) s = true -> remove_greeting s = s.
Proof.
  intro H. unfold remove_greeting, greeting_alt.
  rewrite !after_first_newline_none by (apply forallb_skipn; exact H).
  destruct (prefix_ci (js "hi") s), (prefix_ci (js "hello") s), (prefix_ci (js "dear") s);
    reflexivity.
Qed.

Lemma ws_only_space_no_lt s :
  ws_only_space s = true -> forallb (fun c => negb (is_lt c)) s = true.
Proof.
  unfold ws_only_space. induction s as [|c s IH]; simpl; intro H; [reflexivity|].
  apply andb_prop in H as [Hc H]. rewrite (lt_not_space c Hc). simpl. auto.
Qed.

Lemma remove_urls_id s : no_url s = true -> remove_urls s = s.
Proof.
  induction s as [|c s IH]; cbn [no_url remove_urls]; intro H; [reflexivity|].
  apply andb_prop in H as [Hc H]. apply negb_true_iff in Hc. rewrite Hc.
  rewrite IH by exact H. reflexivity.
Qed.

Lemma count_tokens_bound s :
  2 * count_tokens true s <= List.length s + 1 /\ 2 * count_tokens false s <= List.length s.
Proof.
  induction s as [|c s [IH1 IH2]]; simpl; [lia|].
  destruct (is_ws c); simpl; lia.
Qed.

(** *** The output of [cleanEmail] *)

Lemma cleanEmail_output x :
  normalized (cleanEmail x) = true /\ no_url (cleanEmail x) = true /\
  starts_nonws (cleanEmail x) = true /\ List.length (cleanEmail x) <= 900.
Proof.
  unfold cleanEmail, slice0.
  set (u := remove_urls _).
  assert (Hu : no_url u = true) by apply remove_urls_no_url.
  set (y := collapse_ws u).
  assert (Hyn : normalized y = true) by apply collapse_normalized.
  assert (Hyu : no_url y = true) by (apply collapse_no_url; exact Hu).
  destruct (trim_sub y) as [a [b Hab]].
  assert (Htn : normalized (trim y) = true).
  { rewrite Hab in Hyn. apply normalized_app in Hyn as [_ Hyn].
    apply normalized_app in Hyn as [Hyn _]. exact Hyn. }
  assert (Htu : no_url (trim y) = true).
  { rewrite Hab in Hyu. apply no_url_app in Hyu as [_ Hyu].
    apply no_url_app in Hyu as [Hyu _]. exact Hyu. }
  pose proof (trim_starts y) as Hts.
  rewrite (firstn_split 900 (trim y)) in Htn, Htu, Hts.
  apply normalized_app in Htn as [Htn _].
  apply no_url_app in Htu as [Htu _].
  apply starts_nonws_app in Hts.
  repeat split; try assumption. apply firstn_le_length.
Qed.

(** A second pass over an output of [cleanEmail] only cuts a suffix. *)
Lemma cleanEmail_again_prefix o :
  normalized o = true -> no_url o = true -> starts_nonws o = true ->
  exists r, o = cleanEmail o ++ r.
Proof.
  intros Hn Hu Hs. unfold cleanEmail, slice0.
  rewrite remove_greeting_no_lt
    by (apply ws_only_space_no_lt; apply andb_prop in Hn as [Hn _]; exact Hn).
  set (p := cut_from_first sent_from_at _).
  assert (Hp : exists r, o = p ++ r).
  { destruct (cut_from_first_prefix on_wrote_at o) as [r1 H1].
    destruct (cut_from_first_prefix original_at (cut_from_first on_wrote_at o)) as [r2 H2].
    destruct (cut_from_first_prefix sent_from_at
                (cut_from_first original_at (cut_from_first on_wrote_at o))) as [r3 H3].
    exists (r3 ++ r2 ++ r1). unfold p.
    rewrite H1 at 1. rewrite H2 at 1. rewrite H3 at 1. rewrite !app_assoc. reflexivity. }
  destruct Hp as [r Hr].
  assert (Hpn : normalized p = true) by (rewrite Hr in Hn; apply normalized_app in Hn; tauto).
  assert (Hpu : no_url p = true) by (rewrite Hr in Hu; apply no_url_app in Hu; tauto).
  assert (Hps : starts_nonws p = true) by (rewrite Hr in Hs; exact (starts_nonws_app _ _ Hs)).
  rewrite (remove_urls_id p Hpu), (proj1 (collapse_id p Hpn)).
  destruct (trim_prefix p Hps) as [b Hb].
  exists (skipn 900 (trim p) ++ b ++ r).
  rewrite app_assoc, firstn_skipn, app_assoc, <- Hb. exact Hr.
Qed.

(** *** Letter-free text *)

Lemma fold_ci_letter c : is_letter_ascii (fold_ci c) = is_letter_ascii c.
Proof. destruct c as [[] [] [] [] [] [] [] []]; reflexivity. Qed.

Lemma prefix_ci_letter p t :
  prefix_ci p t = true -> existsb is_letter_ascii p = true -> existsb is_letter_ascii t = true.
Proof.
  revert t; induction p as [|a p IH]; intros [|b t]; simpl; try easy.
  intros H Hl. apply andb_prop in H as [Hab H]. apply Ascii.eqb_eq in Hab.
  apply orb_true_iff in Hl as [Hl|Hl].
  - rewrite <- fold_ci_letter, <- Hab, fold_ci_letter, Hl. reflexivity.
  - rewrite (IH t H Hl). apply orb_true_r.
Qed.

Lemma url_start_letter t : url_start t = true -> existsb is_letter_ascii t = true.
Proof.
  intro E. unfold url_start in E.
  apply orb_true_iff in E as [E|E]; apply andb_prop in E as [E _];
    apply prefixb_split in E; rewrite E; reflexivity.
Qed.

Lemma no_letters_no_url s : existsb is_letter_ascii s = false -> no_url s = true.
Proof.
  induction s as [|c s IH]; cbn [no_url]; intro H; [reflexivity|].
  destruct (url_start (c :: s)) eqn:E.
  - rewrite (url_start_letter _ E) in H. discriminate.
  - simpl in H |- *. apply orb_false_iff in H as [_ H]. auto.
Qed.

Lemma cut_from_first_id m s :
  (forall t, existsb is_letter_ascii t = false -> m t = false) ->
  existsb is_letter_ascii s = false -> cut_from_first m s = s.
Proof.
  intro Hm. induction s as [|c s IH]; simpl; intro H.
  - rewrite Hm by reflexivity. reflexivity.
  - rewrite Hm by exact H. apply orb_false_iff in H as [_ H]. rewrite IH by exact H.
    reflexivity.
Qed.

Lemma prefix_ci_no_letter p t :
  existsb is_letter_ascii p = true -> existsb is_letter_ascii t = false ->
  prefix_ci p t = false.
Proof.
  intros Hp Ht. destruct (prefix_ci p t) eqn:E; [|reflexivity].
  rewrite (prefix_ci_letter p t E Hp) in Ht. discriminate.
Qed.

Lemma cleanEmail_letter_free_id x :
  no_letters x = true -> normalized x = true -> starts_nonws x = true ->
  ends_nonws x = true -> List.length x <= 900 -> cleanEmail x = x.
Proof.
  unfold no_letters. intros Hl Hn Hs He Hlen. apply negb_true_iff in Hl.
  unfold cleanEmail, slice0.
  assert (Hg : remove_greeting x = x).
  { unfold remove_greeting, greeting_alt.
    rewrite !prefix_ci_no_letter by (reflexivity || exact Hl). reflexivity. }
  rewrite Hg.
  rewrite (cut_from_first_id on_wrote_at)
    by (exact Hl || (intros t Ht; unfold on_wrote_at;
                     rewrite prefix_ci_no_letter by (reflexivity || exact Ht); reflexivity)).
  rewrite (cut_from_first_id original_at)
    by (exact Hl || (intros t Ht; unfold original_at;
                     rewrite prefix_ci_no_letter by (reflexivity || exact Ht); reflexivity)).
  rewrite (cut_from_first_id sent_from_at)
    by (exact Hl || (intros t Ht; unfold sent_from_at;
                     rewrite prefix_ci_no_letter by (reflexivity || exact Ht); reflexivity)).
  rewrite (remove_urls_id x (no_letters_no_url x Hl)).
  rewrite (proj1 (collapse_id x Hn)), (trim_id x Hs He).
  apply firstn_all2. exact Hlen.
Qed.

(** *** Sanitizer claims *)

(** [C3] (as amended) [cleanEmail] caps its output by characters, not by
    tokens: it keeps the first 900 characters, so the output has at most
    900 characters and therefore at most 450 whitespace-delimited tokens. *)
Theorem cleanEmail_length_cap :
  forall x, List.length (cleanEmail x) <= 900 /\ word_count (cleanEmail x) <= 450.
Proof.
  intro x. destruct (cleanEmail_output x) as [_ [_ [_ Hlen]]].
  split; [exact Hlen|].
  destruct (count_tokens_bound (cleanEmail x)) as [H _].
  unfold word_count. lia.
Qed.

(** [C3] The 400-token cap fails: 450 one-letter words come out of
    [cleanEmail] as 450 tokens. *)
Lemma cleanEmail_keeps_450_tokens : 400 < word_count (cleanEmail (a_words 450)).
Proof. vm_compute. lia. Qed.

(** [C4] (as amended) A second application of [cleanEmail] can only cut
    text off the end: [cleanEmail (cleanEmail x)] is a prefix of
    [cleanEmail x]. *)
Theorem cleanEmail_twice_prefix :
  forall x, exists r, cleanEmail x = cleanEmail (cleanEmail x) ++ r.
Proof.
  intro x. destruct (cleanEmail_output x) as [Hn [Hu [Hs _]]].
  apply cleanEmail_again_prefix; assumption.
Qed.

(** [C4] [cleanEmail] is not idempotent: the first pass joins the two
    lines into ["on x wrote: y"], which the second pass removes. *)
Lemma cleanEmail_not_idempotent :
  cleanEmail split_reply_header = js "on x wrote: y" /\
  cleanEmail (cleanEmail split_reply_header) = [].
Proof. split; vm_compute; reflexivity. Qed.

Lemma occurs_prefix p t q : occurs_in p t -> occurs_in p (t ++ q).
Proof. intros [a [b ->]]. exists a, (b ++ q). rewrite <- !app_assoc. reflexivity. Qed.

Lemma occurs_suffix p t q : occurs_in p t -> occurs_in p (q ++ t).
Proof. intros [a [b ->]]. exists (q ++ a), b. rewrite <- !app_assoc. reflexivity. Qed.

Lemma occurs_cons p c t : occurs_in p t -> occurs_in p (c :: t).
Proof. apply (occurs_suffix p t [c]). Qed.

Lemma occurs_nil p : occurs_in [] p.
Proof. exists [], p. reflexivity. Qed.

(** An occurrence at the head or further on. *)
Lemma occurs_cons_inv p c t :
  occurs_in p (c :: t) -> (exists b, c :: t = p ++ b) \/ occurs_in p t.
Proof.
  intros [[|d a] [b E]].
  - left. exists b. exact E.
  - right. injection E as _ E. exists a, b. exact E.
Qed.

Lemma no_ws_head c p : no_ws (c :: p) = true -> is_ws c = false.
Proof. cbn. destruct (is_ws c); [discriminate|reflexivity]. Qed.

Lemma no_ws_tail c p : no_ws (c :: p) = true -> no_ws p = true.
Proof. cbn. intro H. apply andb_prop in H. apply H. Qed.

Lemma skip_url_head s : skip_url s = [] \/ exists c r, skip_url s = c :: r /\ is_ws c = true.
Proof.
  induction s as [|c s IH]; [left; reflexivity|]. cbn.
  destruct (is_ws c) eqn:W; [right; exists c, (remove_urls s); auto|exact IH].
Qed.

Lemma remove_urls_prefix p s b :
  no_ws p = true -> remove_urls s = p ++ b -> exists q, s = p ++ q.
Proof.
  revert s b. induction p as [|d p IH]; intros s b N E; [exists s; reflexivity|].
  destruct s as [|c s]; [discriminate|]. cbn in E.
  destruct (url_start (c :: s)).
  - exfalso. destruct (skip_url_head s) as [H|[c' [r [H W]]]]; rewrite H in E; [discriminate|].
    injection E as -> _. rewrite (no_ws_head _ _ N) in W. discriminate.
  - injection E as -> E. destruct (IH s b (no_ws_tail _ _ N) E) as [q ->]. exists q. reflexivity.
Qed.

Lemma remove_urls_occurs p s :
  no_ws p = true ->
  (occurs_in p (remove_urls s) -> occurs_in p s) /\ (occurs_in p (skip_url s) -> occurs_in p s).
Proof.
  intro N. destruct p as [|d p']; [split; intros _; apply occurs_nil|].
  induction s as [|c s [IHr IHs]].
  - split; intros [[|x a] [b E]]; discriminate.
  - split; intro H; cbn in H.
    + destruct (url_start (c :: s)); [apply occurs_cons, IHs, H|].
      destruct (occurs_cons_inv _ _ _ H) as [[b E]|H'].
      * injection E as -> E. destruct (remove_urls_prefix p' s b (no_ws_tail _ _ N) E) as [q ->].
        exists [], q. reflexivity.
      * apply occurs_cons, IHr, H'.
    + destruct (is_ws c) eqn:W; [|apply occurs_cons, IHs, H].
      destruct (occurs_cons_inv _ _ _ H) as [[b E]|H'].
      * injection E as -> _. rewrite (no_ws_head _ _ N) in W. discriminate.
      * apply occurs_cons, IHr, H'.
Qed.

Lemma collapse_ws_prefix p s b :
  no_ws p = true -> collapse_ws s = p ++ b -> exists q, s = p ++ q.
Proof.
  revert s b. induction p as [|d p IH]; intros s b N E; [exists s; reflexivity|].
  destruct s as [|c s]; [discriminate|]. cbn in E.
  destruct (is_ws c).
  - injection E as <- _. pose proof (no_ws_head _ _ N) as W0. rewrite space_is_ws in W0. discriminate.
  - injection E as -> E. destruct (IH s b (no_ws_tail _ _ N) E) as [q ->]. exists q. reflexivity.
Qed.

Lemma collapse_ws_occurs p s :
  no_ws p = true ->
  (occurs_in p (collapse_ws s) -> occurs_in p s) /\ (occurs_in p (drop_ws_run s) -> occurs_in p s).
Proof.
  intro N. destruct p as [|d p']; [split; intros _; apply occurs_nil|].
  induction s as [|c s [IHc IHd]].
  - split; intros [[|x a] [b E]]; discriminate.
  - assert (Hnon : occurs_in (d :: p') (c :: collapse_ws s) -> occurs_in (d :: p') (c :: s)).
    { intro H. destruct (occurs_cons_inv _ _ _ H) as [[b E]|H'].
      - injection E as -> E. destruct (collapse_ws_prefix p' s b (no_ws_tail _ _ N) E) as [q ->].
        exists [], q. reflexivity.
      - apply occurs_cons, IHc, H'. }
    split; intro H; cbn in H; destruct (is_ws c) eqn:W.
    + destruct (occurs_cons_inv _ _ _ H) as [[b E]|H'].
      * injection E as <- _. pose proof (no_ws_head _ _ N) as W0. rewrite space_is_ws in W0. discriminate.
      * apply occurs_cons, IHd, H'.
    + exact (Hnon H).
    + apply occurs_cons, IHd, H.
    + exact (Hnon H).
Qed.

Lemma after_first_newline_suffix r r' : after_first_newline r = Some r' -> exists q, r = q ++ r'.
Proof.
  revert r'. induction r as [|c r IH]; intros r' H; [discriminate|]. cbn in H.
  destruct (code c =? 10); [injection H as <-; exists [c]; reflexivity|].
  destruct (is_lt c); [discriminate|]. destruct (IH r' H) as [q ->]. exists (c :: q). reflexivity.
Qed.

Lemma greeting_alt_suffix p s r : greeting_alt p s = Some r -> exists q, s = q ++ r.
Proof.
  unfold greeting_alt. destruct (prefix_ci p s); [|discriminate]. intro H.
  destruct (after_first_newline_suffix _ _ H) as [q Hq].
  exists (firstn (List.length p) s ++ q). rewrite <- app_assoc, <- Hq. symmetry. apply firstn_skipn.
Qed.

Lemma remove_greeting_suffix s : exists q, s = q ++ remove_greeting s.
Proof.
  unfold remove_greeting.
  destruct (greeting_alt (js "hi") s) eqn:G1; [exact (greeting_alt_suffix _ _ _ G1)|].
  destruct (greeting_alt (js "hello") s) eqn:G2; [exact (greeting_alt_suffix _ _ _ G2)|].
  destruct (greeting_alt (js "dear") s) eqn:G3; [exact (greeting_alt_suffix _ _ _ G3)|].
  exists []. reflexivity.
Qed.

Lemma cut_from_first_occurs m p s : occurs_in p (cut_from_first m s) -> occurs_in p s.
Proof. intro H. destruct (cut_from_first_prefix m s) as [r Hr]. rewrite Hr. apply occurs_prefix, H. Qed.

(** No stage of [cleanEmail] makes up a whitespace-free piece of text. *)
Lemma cleanEmail_occurs p x : no_ws p = true -> occurs_in p (cleanEmail x) -> occurs_in p x.
Proof.
  intros N H. unfold cleanEmail, slice0 in H.
  assert (H1 : occurs_in p (trim (collapse_ws (remove_urls (cut_from_first sent_from_at
                 (cut_from_first original_at (cut_from_first on_wrote_at (remove_greeting x)))))))).
  { rewrite <- (firstn_skipn 900 (trim _)). apply occurs_prefix, H. }
  clear H.
  destruct (trim_sub (collapse_ws (remove_urls (cut_from_first sent_from_at
                 (cut_from_first original_at (cut_from_first on_wrote_at (remove_greeting x))))))) as [a [b E]].
  assert (H2 : occurs_in p (collapse_ws (remove_urls (cut_from_first sent_from_at
                 (cut_from_first original_at (cut_from_first on_wrote_at (remove_greeting x))))))).
  { rewrite E. apply occurs_suffix, occurs_prefix, H1. }
  apply (proj1 (collapse_ws_occurs p _ N)) in H2.
  apply (proj1 (remove_urls_occurs p _ N)) in H2.
  apply cut_from_first_occurs, cut_from_first_occurs, cut_from_first_occurs in H2.
  destruct (remove_greeting_suffix x) as [q Hq]. rewrite Hq. apply occurs_suffix, H2.
Qed.

(** [C5] (as amended) [cleanEmail] deletes URLs without a placeholder, so
    no [http://] or [https://] URL start remains in its output, and it has
    no phone-number stage. It inserts nothing: every whitespace-free piece
    of its output, such as [[URL]] or [[PHONE]], already occurs in its
    input. A letter-free text that is already single-spaced and trimmed,
    of at most 900 characters (a digit group such as ["555-123-4567"]),
    comes out unchanged. *)
Theorem cleanEmail_deletes_urls_keeps_digits :
  (forall x, no_url (cleanEmail x) = true) /\
  (forall x, no_letters x = true -> normalized x = true -> starts_nonws x = true ->
     ends_nonws x = true -> List.length x <= 900 -> cleanEmail x = x) /\
  (forall p x, no_ws p = true -> occurs_in p (cleanEmail x) -> occurs_in p x) /\
  (forall x, (occurs_in (js "[URL]") (cleanEmail x) -> occurs_in (js "[URL]") x) /\
             (occurs_in (js "[PHONE]") (cleanEmail x) -> occurs_in (js "[PHONE]") x)).
Proof.
  split; [intro x; apply cleanEmail_output|].
  split; [exact cleanEmail_letter_free_id|].
  split; [exact cleanEmail_occurs|].
  intro x. split; apply cleanEmail_occurs; reflexivity.
Qed.

(** [C5] No placeholder appears: the URL is deleted and the phone number
    is kept. *)
Lemma cleanEmail_no_placeholders :
  cleanEmail (js "see http://example.com") = js "see" /\
  cleanEmail (js "call 555-123-4567") = js "call 555-123-4567".
Proof. split; vm_compute; reflexivity. Qed.

End SanitizerProofs.

(** ** Classification *)

Module ClassifierProofs.
Import AI Fixtures.

Lemma is_empty_false (s : jstr) : s <> [] -> is_empty s = false.
Proof. destruct s; [contradiction|reflexivity]. Qed.

Lemma basicFallback_tag_subject s1 s2 text :
  tag (basicFallback s1 text) = tag (basicFallback s2 text).
Proof.
  unfold basicFallback.
  destruct (test true _ text); [reflexivity|].
  destruct (test true _ text); [reflexivity|].
  destruct (test true _ text); [reflexivity|].
  destruct (test true _ text); reflexivity.
Qed.

Lemma basicFallback_summary_long text :
  10 <= List.length (summary (basicFallback [] text)).
Proof.
  unfold basicFallback.
  destruct (test true _ text); [simpl; lia|].
  destruct (test true _ text); [simpl; lia|].
  destruct (test true _ text); [simpl; lia|].
  destruct (test true _ text); simpl; lia.
Qed.

(** The path of [processEmail] where the AI reply parsed. *)
Lemma processEmail_parsed JSON_parse settings subject body res s t :
  aiApiKey settings <> [] -> cleanEmail body <> [] ->
  ai_reply JSON_parse res = Some (s, t) -> 10 <= List.length (trim s) ->
  processEmail JSON_parse settings subject body res =
  {| summary := addContextHint (trim s) subject (cleanEmail body) (validateTag t);
     tag := validateTag t |}.
Proof.
  intros Hk Hc Hr Hl. unfold processEmail, callAI.
  rewrite (is_empty_false _ Hk), (is_empty_false _ Hc), Hr. simpl.
  assert (Hn : trim s <> []) by (intro E; rewrite E in Hl; simpl in Hl; lia).
  rewrite (is_empty_false _ Hn).
  replace (List.length (trim s) <? 10) with false by (symmetry; apply Nat.ltb_ge; exact Hl).
  reflexivity.
Qed.

(** [C6] (as amended) The rule fallback is a first-match cascade over
    interview vocabulary, event vocabulary and reply requests (all three
    tagged [Reply Required]), then update vocabulary ([FYI]), with the
    default [No Reply Needed]; it never yields [Urgent]. *)
Theorem basicFallback_cascade :
  forall subject text,
  In (tag (basicFallback subject text))
     [js "Reply Required"; js "FYI"; js "No Reply Needed"] /\
  (tag (basicFallback subject text) = js "Reply Required" <->
   (test true [js "interview"; js "hr"; js "recruiter"; js "hiring"] text ||
    test true [js "invite"; js "event"; js "meetup"; js "session"] text ||
    test true [js "let us know"; js "would you"; js "please reply"; js "respond"] text)
   = true) /\
  (tag (basicFallback subject text) = js "FYI" <->
   (negb (test true [js "interview"; js "hr"; js "recruiter"; js "hiring"] text ||
          test true [js "invite"; js "event"; js "meetup"; js "session"] text ||
          test true [js "let us know"; js "would you"; js "please reply"; js "respond"] text) &&
    test true [js "update"; js "announcement"; js "newsletter"; js "inform"] text) = true).
Proof.
  intros subject text. unfold basicFallback.
  destruct (test true [js "interview"; js "hr"; js "recruiter"; js "hiring"] text);
    [simpl; intuition discriminate|].
  destruct (test true [js "invite"; js "event"; js "meetup"; js "session"] text);
    [simpl; intuition discriminate|].
  destruct (test true [js "let us know"; js "would you"; js "please reply"; js "respond"] text);
    [simpl; intuition discriminate|].
  destruct (test true [js "update"; js "announcement"; js "newsletter"; js "inform"] text);
    simpl; intuition discriminate.
Qed.

(** [C6] Text with ["urgent deadline tomorrow"] is classified
    [No Reply Needed], by the fallback and by the whole pipeline without
    an API key. *)
Lemma urgent_text_not_urgent :
  tag (basicFallback [] (js "urgent deadline tomorrow")) = js "No Reply Needed" /\
  tag (processEmail (fun _ => None) {| aiApiKey := [] |} [] (js "urgent deadline tomorrow")
         NetworkError) = js "No Reply Needed".
Proof. split; vm_compute; reflexivity. Qed.

(** [C7] (as amended) [processEmail] checks no word count: when the AI
    reply parses with a trimmed summary of at least 10 characters and no
    context pattern matches, that summary is returned as it is, whatever
    its length in words, with the validated tag. *)
Theorem processEmail_keeps_ai_summary :
  forall JSON_parse settings subject body res s t,
  aiApiKey settings <> [] -> cleanEmail body <> [] ->
  ai_reply JSON_parse res = Some (s, t) -> 10 <= List.length (trim s) ->
  first_hint context_rules (toLowerCase (subject ++ js " " ++ cleanEmail body)) = None ->
  processEmail JSON_parse settings subject body res =
  {| summary := trim s; tag := validateTag t |}.
Proof.
  intros JSON_parse settings subject body res s t Hk Hc Hr Hl Hh.
  rewrite (processEmail_parsed JSON_parse settings subject body res s t Hk Hc Hr Hl).
  unfold addContextHint. rewrite Hh. reflexivity.
Qed.

(** [C7] A 60-word model summary is delivered unchanged. *)
Lemma sixty_word_summary_returned :
  word_count (summary (processEmail (parser_for sixty_words (js "FYI")) with_key []
                         (js "lunch at noon") (response_for sixty_words (js "FYI")))) = 60.
Proof. vm_compute. reflexivity. Qed.

(** [C8] (as amended) The status code is never inspected and a network
    error gives no reply; when the AI call yields no reply (network error,
    unparsable body or content, or a missing field), [callAI] returns
    [basicFallback('', text)], and [processEmail] does not raise and
    returns the rule fallback's tag for the sanitized text, with the
    summary of [basicFallback('', text)] passed through [addContextHint]. *)
Theorem processEmail_ai_failure :
  forall (JSON_parse : jstr -> option json),
  (forall st st' b, ai_reply JSON_parse (Response st b) = ai_reply JSON_parse (Response st' b)) /\
  ai_reply JSON_parse NetworkError = None /\
  (forall text apiKey res, ai_reply JSON_parse res = None ->
   callAI JSON_parse text apiKey res = basicFallback [] text) /\
  (forall settings subject body res,
   aiApiKey settings <> [] -> cleanEmail body <> [] -> ai_reply JSON_parse res = None ->
   tag (processEmail JSON_parse settings subject body res)
     = tag (basicFallback subject (cleanEmail body)) /\
   summary (processEmail JSON_parse settings subject body res)
     = addContextHint (summary (basicFallback [] (cleanEmail body))) subject (cleanEmail body)
         (tag (basicFallback subject (cleanEmail body)))).
Proof.
  intro JSON_parse. split; [reflexivity|]. split; [reflexivity|].
  split; [intros text apiKey res Hr; unfold callAI; rewrite Hr; reflexivity|].
  intros settings subject body res Hk Hc Hr.
  unfold processEmail, callAI.
  rewrite (is_empty_false _ Hk), (is_empty_false _ Hc), Hr. simpl.
  pose proof (basicFallback_summary_long (cleanEmail body)) as Hl.
  assert (Hn : summary (basicFallback [] (cleanEmail body)) <> [])
    by (intro E; rewrite E in Hl; simpl in Hl; lia).
  rewrite (is_empty_false _ Hn).
  replace (List.length (summary (basicFallback [] (cleanEmail body))) <? 10) with false
    by (symmetry; apply Nat.ltb_ge; exact Hl).
  simpl. rewrite (basicFallback_tag_subject [] subject). split; reflexivity.
Qed.

(** [C8] After a network error the delivered result is not the rule
    fallback's: the context hint replaces its summary. *)
Lemma network_error_result_differs :
  processEmail (fun _ => None) with_key [] (js "join us for the event") NetworkError
  <> basicFallback [] (cleanEmail (js "join us for the event")).
Proof. vm_compute. congruence. Qed.

(** [C10] (as amended) When the AI reply parses with a trimmed summary of
    at least 10 characters, the delivered summary is the canned sentence
    of the first context pattern matching the lower-cased subject and
    sanitized body, and the model's summary only when none matches. *)
Theorem processEmail_context_hint :
  forall JSON_parse settings subject body res s t,
  aiApiKey settings <> [] -> cleanEmail body <> [] ->
  ai_reply JSON_parse res = Some (s, t) -> 10 <= List.length (trim s) ->
  summary (processEmail JSON_parse settings subject body res) =
  match first_hint context_rules (toLowerCase (subject ++ js " " ++ cleanEmail body)) with
  | Some hint => hint
  | None => trim s
  end.
Proof.
  intros JSON_parse settings subject body res s t Hk Hc Hr Hl.
  rewrite (processEmail_parsed JSON_parse settings subject body res s t Hk Hc Hr Hl).
  reflexivity.
Qed.

(** [C10] A model summary shorter than 10 characters sends the message to
    the rule fallback, so the matching OTP hint is not delivered. *)
Lemma short_ai_summary_skips_hint :
  first_hint context_rules (toLowerCase ([] ++ js " " ++ cleanEmail (js "your otp is 1234")))
    = Some (js "One-time password received for account verification.") /\
  summary (processEmail (parser_for (js "ok") (js "FYI")) with_key [] (js "your otp is 1234")
             (response_for (js "ok") (js "FYI")))
    = js "This email contains general information.".
Proof. split; vm_compute; reflexivity. Qed.

End ClassifierProofs.

(** ** The processed-message set *)

Module DedupProofs.
Import Background.

Lemma jstr_eqb_sym a b : jstr_eqb a b = jstr_eqb b a.
Proof.
  destruct (jstr_eqb a b) eqn:E, (jstr_eqb b a) eqn:F; try reflexivity.
  - apply jstr_eqb_eq in E. subst. rewrite jstr_eqb_refl in F. discriminate.
  - apply jstr_eqb_eq in F. subst. rewrite jstr_eqb_refl in E. discriminate.
Qed.

Lemma set_has_add s x y : set_has (set_add y s) x = set_has s x || jstr_eqb x y.
Proof.
  unfold set_add, set_has.
  destruct (existsb (jstr_eqb y) s) eqn:E.
  - destruct (jstr_eqb x y) eqn:F; [|rewrite orb_false_r; reflexivity].
    apply jstr_eqb_eq in F. subst. rewrite E. reflexivity.
  - rewrite existsb_app. simpl. rewrite orb_false_r. reflexivity.
Qed.

Lemma set_has_fold a acc x :
  set_has (fold_left (fun acc y => set_add y acc) a acc) x = set_has acc x || existsb (jstr_eqb x) a.
Proof.
  revert acc; induction a as [|y a IH]; intro acc; simpl.
  - rewrite orb_false_r. reflexivity.
  - rewrite IH, set_has_add, orb_assoc. reflexivity.
Qed.

(** [C9] Membership survives the set-to-array-to-set round trip: after
    [markAsProcessed id] a reload from storage has [id]; after the
    [clearProcessed] handler a reload has no id; and rebuilding a set from
    its persisted array keeps exactly its members. *)
Theorem dedup_persistence_roundtrip :
  (forall n id, set_has (processedMessages (reload (markAsProcessed id n))) id = true) /\
  (forall n id, set_has (processedMessages (reload (clearProcessed n))) id = false) /\
  (forall (s : IdSet) x, set_has (set_of_array (array_from s)) x = set_has s x).
Proof.
  split; [|split].
  - intros n id. unfold reload, loadStoredData, markAsProcessed, set_of_array, array_from.
    cbn [processedMessages storage processed_messages]. rewrite set_has_fold.
    change (existsb (jstr_eqb id) (set_add id (processedMessages n)))
      with (set_has (set_add id (processedMessages n)) id).
    rewrite set_has_add, jstr_eqb_refl, !orb_true_r. reflexivity.
  - intros n id. reflexivity.
  - intros s x. unfold set_of_array, array_from. rewrite set_has_fold. reflexivity.
Qed.

End DedupProofs.

(** ** Instances of the theorems *)

Module Witnesses.
Import Gmail AI Fixtures.

(** [C1] The plain part of [html_then_plain] is chosen over the html part
    listed before it. *)
Lemma extract_plain_over_html_same_level_witness :
  extractEmailBody demo_atob (fun s => s) html_then_plain = js "Hello world".
Proof.
  destruct (GmailProofs.extract_plain_over_html_same_level demo_atob (fun s => s)
              html_then_plain
              [Part text_html (js "PGI+aGk8L2I+") None;
               Part text_plain (js "SGVsbG8gd29ybGQ=") None]
              eq_refl eq_refl eq_refl) as [H1 _].
  rewrite (H1 [Part text_html (js "PGI+aGk8L2I+") None]
              (Part text_plain (js "SGVsbG8gd29ybGQ=") None) [] eq_refl eq_refl eq_refl).
  vm_compute. reflexivity.
Defined.

(** [C2] An attachment-only message and an undecodable string both give
    the empty string. *)
Lemma extract_total_empty_without_text_witness :
  extractEmailBody demo_atob (fun s => s) attachment_only = [] /\
  decodeBase64 demo_atob (js "not*base64") = [].
Proof.
  destruct (GmailProofs.extract_total_empty_without_text demo_atob (fun s => s) eq_refl)
    as [H1 [H2 _]].
  split; [apply H1 | apply H2]; vm_compute; reflexivity.
Defined.

(** [C5] A phone number passes the sanitizer unchanged. *)
Lemma cleanEmail_deletes_urls_keeps_digits_witness :
  cleanEmail (js "555-123-4567") = js "555-123-4567".
Proof.
  apply (proj1 (proj2 SanitizerProofs.cleanEmail_deletes_urls_keeps_digits));
    [vm_compute; reflexivity | vm_compute; reflexivity | vm_compute; reflexivity
    | vm_compute; reflexivity | apply Nat.leb_le; vm_compute; reflexivity].
Defined.

(** [C7] The 60-word model summary is returned as it is. *)
Lemma processEmail_keeps_ai_summary_witness :
  processEmail (parser_for sixty_words (js "FYI")) with_key [] (js "lunch at noon")
    (response_for sixty_words (js "FYI"))
  = {| summary := trim sixty_words; tag := validateTag (Some (js "FYI")) |}.
Proof.
  apply ClassifierProofs.processEmail_keeps_ai_summary.
  - discriminate.
  - vm_compute. discriminate.
  - vm_compute. reflexivity.
  - apply Nat.leb_le. vm_compute. reflexivity.
  - vm_compute. reflexivity.
Defined.

(** [C8] A network error on an invitation gives the fallback's tag. *)
Lemma processEmail_ai_failure_witness :
  tag (processEmail (fun _ => None) with_key [] (js "join us for the event") NetworkError)
  = js "Reply Required".
Proof.
  destruct (ClassifierProofs.processEmail_ai_failure (fun _ => None)) as [_ [_ [_ H]]].
  destruct (H with_key [] (js "join us for the event") NetworkError) as [Ht _].
  - discriminate.
  - vm_compute. discriminate.
  - reflexivity.
  - rewrite Ht. vm_compute. reflexivity.
Defined.

(** [C10] The OTP hint replaces a model summary of ten characters or more. *)
Lemma processEmail_context_hint_witness :
  summary (processEmail (parser_for otp_summary (js "FYI")) with_key [] (js "your otp is 1234")
             (response_for otp_summary (js "FYI")))
  = js "One-time password received for account verification.".
Proof.
  rewrite (ClassifierProofs.processEmail_context_hint (parser_for otp_summary (js "FYI"))
             with_key [] (js "your otp is 1234") (response_for otp_summary (js "FYI"))
             otp_summary (Some (js "FYI"))).
  - vm_compute. reflexivity.
  - discriminate.
  - vm_compute. discriminate.
  - vm_compute. reflexivity.
  - apply Nat.leb_le. vm_compute. reflexivity.
Defined.

End Witnesses.

(** ** [stripHtml] *)

Module HtmlProofs.
Import AI SanitizerSpec Html ExtraSpec SanitizerProofs.

Lemma squeeze_no_nl s :
  forallb (fun c => negb (Ascii.eqb c nl)) s = true -> squeeze_blank_lines None s = s.
Proof.
  induction s as [|c s IH]; simpl; intro H; [reflexivity|].
  apply andb_prop in H as [Hc H]. apply negb_true_iff in Hc. rewrite Hc, IH by exact H.
  reflexivity.
Qed.

Lemma normalized_no_nl s :
  normalized s = true -> forallb (fun c => negb (Ascii.eqb c nl)) s = true.
Proof.
  intro H. unfold normalized in H. apply andb_prop in H as [H _].
  apply ws_only_space_no_lt in H. rewrite forallb_forall in *. intros c Hc.
  specialize (H c Hc). destruct (Ascii.eqb c nl) eqn:E; [|reflexivity].
  apply Ascii.eqb_eq in E. subst. discriminate.
Qed.

Lemma trim_normalized s : normalized s = true -> normalized (trim s) = true.
Proof.
  intro H. destruct (trim_sub s) as [a [b E]]. rewrite E in H.
  apply normalized_app in H as [_ H]. apply normalized_app in H as [H _]. exact H.
Qed.

Lemma trim_start_rev_ends s : ends_nonws (trim s) = true.
Proof.
  unfold trim, ends_nonws. rewrite rev_involutive. apply trim_start_starts.
Qed.

Lemma remove_tags_chars s :
  (forall c, In c (remove_tags s) -> In c s) /\ (forall c, In c (skip_tag s) -> In c s).
Proof.
  induction s as [|d s [IH1 IH2]]; simpl; [split; intros c []|].
  split; intros c Hc.
  - destruct (Ascii.eqb d lt_char && has_gt s); [right; auto|].
    destruct Hc as [<-|Hc]; [left; reflexivity|right; auto].
  - destruct (Ascii.eqb d gt_char); right; auto.
Qed.

Lemma has_gt_sub a b : (forall c, In c a -> In c b) -> has_gt a = true -> has_gt b = true.
Proof.
  unfold has_gt. intros Hs H. apply existsb_exists in H as [c [Hc Hg]].
  apply existsb_exists. exists c. auto.
Qed.

Lemma remove_tags_no_open s :
  no_open_tag (remove_tags s) = true /\ no_open_tag (skip_tag s) = true.
Proof.
  induction s as [|c s [IH1 IH2]]; simpl; [auto|]. split.
  - destruct (Ascii.eqb c lt_char && has_gt s) eqn:E; [exact IH2|].
    simpl. rewrite IH1, andb_true_r.
    destruct (Ascii.eqb c lt_char) eqn:F; [|reflexivity]. simpl in *.
    destruct (has_gt (remove_tags s)) eqn:G; [|reflexivity].
    rewrite (has_gt_sub _ _ (proj1 (remove_tags_chars s)) G) in E. discriminate.
  - destruct (Ascii.eqb c gt_char); assumption.
Qed.

Lemma ws_not_angle c : is_ws c = true -> Ascii.eqb c gt_char = false /\ Ascii.eqb c lt_char = false.
Proof.
  intro H. split.
  - destruct (Ascii.eqb c gt_char) eqn:E; [|reflexivity].
    apply Ascii.eqb_eq in E. subst. discriminate.
  - destruct (Ascii.eqb c lt_char) eqn:E; [|reflexivity].
    apply Ascii.eqb_eq in E. subst. discriminate.
Qed.

Lemma collapse_has_gt s :
  has_gt (collapse_ws s) = has_gt s /\ has_gt (drop_ws_run s) = has_gt s.
Proof.
  unfold has_gt. induction s as [|c s [IH1 IH2]]; simpl; [auto|].
  destruct (is_ws c) eqn:E; simpl.
  - rewrite (proj1 (ws_not_angle c E)), IH2. auto.
  - rewrite IH1. auto.
Qed.

Lemma collapse_no_open s :
  no_open_tag s = true ->
  no_open_tag (collapse_ws s) = true /\ no_open_tag (drop_ws_run s) = true.
Proof.
  induction s as [|c s IH]; simpl; intro H; [auto|].
  apply andb_prop in H as [Hc H]. destruct (IH H) as [IH1 IH2].
  destruct (is_ws c) eqn:E; simpl.
  - rewrite IH2. auto.
  - rewrite (proj1 (collapse_has_gt s)), Hc, IH1. auto.
Qed.

Lemma no_open_tag_app a b :
  no_open_tag (a ++ b) = true -> no_open_tag a = true /\ no_open_tag b = true.
Proof.
  induction a as [|c a IH]; simpl; intro H; [auto|].
  apply andb_prop in H as [Hc H]. destruct (IH H) as [-> ->]. split; [|reflexivity].
  rewrite andb_true_r. destruct (Ascii.eqb c lt_char); [|reflexivity]. simpl in *.
  destruct (has_gt a) eqn:G; [|reflexivity].
  assert (has_gt (a ++ b) = true) as G'.
  { apply (has_gt_sub a); [intros x Hx; apply in_or_app; auto|exact G]. }
  rewrite G' in Hc. discriminate.
Qed.

(** *** [X1] The text path: the result is trimmed and its whitespace is
    single spaces; the blank-line replacement never changes anything,
    because the preceding collapse leaves no line feed. *)
Theorem stripHtml_dom_text (dom_text : jstr -> option jstr) (html : jstr) :
  let r := stripHtml dom_text html in
  normalized r = true /\ starts_nonws r = true /\ ends_nonws r = true /\
  (forall text, dom_text html = Some text -> r = trim (collapse_ws text)).
Proof.
  assert (Hd : forall text, squeeze_blank_lines None (collapse_ws text) = collapse_ws text).
  { intro text. apply squeeze_no_nl, normalized_no_nl, collapse_normalized. }
  unfold stripHtml. destruct (dom_text html) as [text|].
  - rewrite Hd. repeat split.
    + apply trim_normalized, collapse_normalized.
    + apply trim_starts.
    + apply trim_start_rev_ends.
    + intros t Ht. injection Ht as ->. reflexivity.
  - repeat split.
    + apply trim_normalized, collapse_normalized.
    + apply trim_starts.
    + apply trim_start_rev_ends.
    + intros t Ht. discriminate.
Qed.

(** *** [X2] The fallback without a DOM (the service worker): no [<] of the
    result has a [>] after it, and the result is the input itself when the
    input has no [<], no whitespace run and no edge whitespace. *)
Theorem stripHtml_fallback_no_tags (html : jstr) :
  no_open_tag (stripHtml (fun _ => None) html) = true /\
  (existsb (fun c => Ascii.eqb c lt_char) html = false -> normalized html = true ->
   starts_nonws html = true -> ends_nonws html = true ->
   stripHtml (fun _ => None) html = html).
Proof.
  unfold stripHtml. split.
  - destruct (trim_sub (collapse_ws (remove_tags html))) as [a [b E]].
    pose proof (proj1 (collapse_no_open _ (proj1 (remove_tags_no_open html)))) as H.
    rewrite E in H. apply no_open_tag_app in H as [_ H]. apply no_open_tag_app in H as [H _].
    exact H.
  - intros Hlt Hn Hs He.
    assert (Hr : remove_tags html = html).
    { clear Hn Hs He. induction html as [|c s IH]; simpl in *; [reflexivity|].
      apply orb_false_iff in Hlt as [Hc Hlt]. rewrite Hc. simpl. rewrite IH by exact Hlt.
      reflexivity. }
    rewrite Hr, (proj1 (collapse_id html Hn)). apply trim_id; assumption.
Qed.

End HtmlProofs.

(** ** [parseMessage] and [getUnreadEmails] *)

Module GmailApiProofs.
Import AI GmailApi ExtraSpec.

Lemma star_class_some {A} p s (k : jstr -> jstr -> option A) r :
  star_class p s k = Some r ->
  exists run rest, s = run ++ rest /\ forallb p run = true /\ k run rest = Some r.
Proof.
  revert k; induction s as [|c s IH]; intros k H; simpl in H.
  - exists [], []. auto.
  - destruct (p c) eqn:Ep.
    + destruct (star_class p s (fun run rest => k (c :: run) rest)) eqn:E.
      * injection H as <-. destruct (IH _ E) as [run [rest [-> [Hf Hk]]]].
        exists (c :: run), rest. simpl. rewrite Ep, Hf. auto.
      * exists [], (c :: s). auto.
    + exists [], (c :: s). auto.
Qed.

Lemma plus_class_some {A} p s (k : jstr -> jstr -> option A) r :
  plus_class p s k = Some r ->
  exists run rest, run <> [] /\ s = run ++ rest /\ forallb p run = true /\ k run rest = Some r.
Proof.
  unfold plus_class. destruct s as [|c s]; [discriminate|].
  destruct (p c) eqn:Ep; [|discriminate]. intro H.
  destruct (star_class_some _ _ _ _ H) as [run [rest [-> [Hf Hk]]]].
  exists (c :: run), rest. simpl. rewrite Ep, Hf. repeat split; [discriminate|exact Hk].
Qed.

Lemma opt_char_some {A} x s (k : jstr -> option A) r :
  opt_char x s k = Some r -> exists s', (s = s' \/ s = x :: s') /\ k s' = Some r.
Proof.
  unfold opt_char. destruct s as [|c s]; [intro H; exists []; auto|].
  destruct (Ascii.eqb c x) eqn:E.
  - apply Ascii.eqb_eq in E. subst. destruct (k s) eqn:F.
    + intro H. exists s. injection H as ->. auto.
    + intro H. exists (x :: s). auto.
  - intro H. exists (c :: s). auto.
Qed.

Lemma count_char_addr l : forallb addr_char l = true -> count_char at_char l = 0.
Proof.
  unfold count_char. induction l as [|c l IH]; simpl; intro H; [reflexivity|].
  apply andb_prop in H as [Hc H]. unfold addr_char in Hc.
  destruct (Ascii.eqb c at_char); [rewrite orb_true_r in Hc; discriminate|]. auto.
Qed.

Lemma no_angle_addr l : forallb addr_char l = true -> no_angle l = true.
Proof.
  unfold no_angle. induction l as [|c l IH]; simpl; intro H; [reflexivity|].
  apply andb_prop in H as [Hc H]. unfold addr_char in Hc.
  destruct (Ascii.eqb c "<"%char || Ascii.eqb c ">"%char); [discriminate|]. simpl. auto.
Qed.

(** What the second capture is. *)
Definition address_shape (e : jstr) : Prop :=
  e <> [] /\ count_char at_char e = 1 /\ no_angle e = true.

Lemma addr_part_some s e :
  addr_part s = Some e -> (exists pre post, s = pre ++ e ++ post) /\ address_shape e.
Proof.
  unfold addr_part. intro H.
  destruct (opt_char_some _ _ _ _ H) as [s1 [Hs1 H1]]. clear H.
  destruct (plus_class_some _ _ _ _ H1) as [local [s2 [Hl [-> [Hlf H2]]]]]. clear H1.
  destruct s2 as [|c s3]; [discriminate|].
  destruct (Ascii.eqb c at_char) eqn:Ec; [|discriminate]. apply Ascii.eqb_eq in Ec. subst c.
  destruct (plus_class_some _ _ _ _ H2) as [domain [s4 [Hd [-> [Hdf H4]]]]]. clear H2.
  destruct (opt_char_some _ _ _ _ H4) as [s5 [_ H5]]. injection H5 as <-.
  split.
  - destruct Hs1 as [-> | ->].
    + exists [], s4. rewrite <- app_assoc. reflexivity.
    + exists ["<"%char], s4. rewrite <- app_assoc. reflexivity.
  - repeat split.
    + destruct local; [contradiction|discriminate].
    + unfold count_char in *. rewrite filter_app. simpl. rewrite length_app.
      pose proof (count_char_addr _ Hlf) as A1. pose proof (count_char_addr _ Hdf) as A2.
      unfold count_char in A1, A2. simpl. rewrite A1, A2. reflexivity.
    + pose proof (no_angle_addr _ Hlf) as B1. pose proof (no_angle_addr _ Hdf) as B2.
      unfold no_angle in *. rewrite forallb_app. simpl. rewrite B1, B2. reflexivity.
Qed.

Lemma from_match_some s n e :
  from_match s = Some (n, e) ->
  (exists pre post, s = pre ++ e ++ post) /\ address_shape e /\
  match n with
  | Some nm => forallb not_dq nm = true /\ exists pre post, s = pre ++ nm ++ post
  | None => True
  end.
Proof.
  unfold from_match.
  destruct (opt_char dq s _) as [[n' e']|] eqn:E.
  - intro H. injection H as Hn He. subst n' e'.
    destruct (opt_char_some _ _ _ _ E) as [s1 [Hs1 H1]]. clear E.
    destruct (star_class_some _ _ _ _ H1) as [name [s2 [-> [Hnf H2]]]]. clear H1.
    destruct (opt_char_some _ _ _ _ H2) as [s3 [Hs3 H3]]. clear H2.
    destruct s3 as [|c s4]; [discriminate|]. destruct (is_ws c); [|discriminate].
    destruct (addr_part s4) as [e0|] eqn:Ea; [|discriminate]. injection H3 as <- ->.
    destruct (addr_part_some _ _ Ea) as [[pre [post ->]] Hshape].
    assert (exists q, s = q ++ name ++ s2) as [q ->].
    { destruct Hs1 as [-> | ->]; [exists []|exists [dq]]; reflexivity. }
    assert (exists q', s2 = q' ++ pre ++ e ++ post) as [q' ->].
    { destruct Hs3 as [-> | ->]; [exists [c]|exists [dq; c]]; reflexivity. }
    split; [|split; [exact Hshape|split; [exact Hnf|]]].
    + exists (q ++ name ++ q' ++ pre), post. repeat rewrite <- app_assoc. reflexivity.
    + exists q, (q' ++ pre ++ e ++ post). reflexivity.
  - destruct (addr_part s) as [e0|] eqn:Ea; [|discriminate]. intro H. injection H as <- <-.
    destruct (addr_part_some _ _ Ea) as [He Hshape]. auto.
Qed.

Lemma address_shape_has_at e : address_shape e -> existsb (fun c => Ascii.eqb c at_char) e = true.
Proof.
  intros [_ [H _]]. unfold count_char in H.
  destruct (existsb (fun c => Ascii.eqb c at_char) e) eqn:E; [reflexivity|].
  assert (filter (fun d => Ascii.eqb d at_char) e = []) as F.
  { induction e as [|c e IH]; simpl in *; [reflexivity|].
    apply orb_false_iff in E as [E1 E2]. rewrite E1. apply IH; [|exact E2].
    rewrite E1 in H. exact H. }
  rewrite F in H. discriminate.
Qed.

(** *** [X3] The [From] header: the name is a piece of the header with no
    double quote; the address is the whole header when the pattern fails
    (always so when the header has no [@]), and otherwise a piece of the
    header with exactly one [@] and no angle bracket. *)
Theorem parse_from_shape (from : jstr) :
  let '(name, email) := parse_from from in
  forallb not_dq name = true /\ (exists pre post, from = pre ++ name ++ post) /\
  ((name = [] /\ email = from) \/
   ((exists pre post, from = pre ++ email ++ post) /\ address_shape email)) /\
  (existsb (fun c => Ascii.eqb c at_char) from = false -> name = [] /\ email = from).
Proof.
  unfold parse_from. destruct (from_match from) as [[n e]|] eqn:E.
  - destruct (from_match_some _ _ _ E) as [[pre [post Hf]] [Hshape Hn]].
    assert (Hne : is_empty e = false) by (destruct e; [destruct Hshape; contradiction|reflexivity]).
    rewrite Hne.
    assert (Hat : existsb (fun c => Ascii.eqb c at_char) from = true).
    { rewrite Hf, !existsb_app, (address_shape_has_at e Hshape), orb_true_r. reflexivity. }
    rewrite Hat.
    destruct n as [nm|].
    + destruct Hn as [Hnf Hin].
      split; [exact Hnf|split; [exact Hin|split; [|discriminate]]].
      right. split; [exists pre, post; exact Hf|exact Hshape].
    + split; [reflexivity|split; [exists [], from; reflexivity|split; [|discriminate]]].
      right. split; [exists pre, post; exact Hf|exact Hshape].
  - split; [reflexivity|split; [exists [], from; reflexivity|split]].
    + left. split; reflexivity.
    + intros _. split; reflexivity.
Qed.

Lemma filter_some_length {A} (xs : list (option A)) : List.length (filter_some xs) <= List.length xs.
Proof. induction xs as [|[x|] xs IH]; simpl; lia. Qed.

Lemma filter_some_all {A B} (f : A -> option B) (g : A -> B) l :
  (forall i, In i l -> f i = Some (g i)) -> filter_some (map f l) = map g l.
Proof.
  induction l as [|i l IH]; simpl; intro H; [reflexivity|].
  rewrite (H i (or_introl eq_refl)), IH; [reflexivity|]. intros j Hj. apply H. auto.
Qed.

(** *** [X4] [getUnreadEmails] returns at most ten emails, and when the
    listing succeeds and every detail request of the first ten ids succeeds
    it returns exactly those ten, parsed, in listing order. *)
Theorem getUnreadEmails_first_ten (atob_utf8 : jstr -> option jstr) (stripHtml : jstr -> jstr)
    (list_res : api_outcome ListData) (msg_res : jstr -> api_outcome MessageData) :
  (forall l, getUnreadEmails atob_utf8 stripHtml list_res msg_res = Ok l -> List.length l <= 10) /\
  (forall st txt ld (d : jstr -> MessageData),
     list_res = ApiResponse st txt (inr ld) -> ok_status st = true ->
     let ids := firstn 10 (match messages ld with Some l => l | None => [] end) in
     (forall i, In i ids -> exists st' txt',
        msg_res i = ApiResponse st' txt' (inr (d i)) /\ ok_status st' = true) ->
     getUnreadEmails atob_utf8 stripHtml list_res msg_res =
       Ok (map (fun i => parseMessage atob_utf8 stripHtml (d i)) ids)).
Proof.
  split.
  - intros l. unfold getUnreadEmails. destruct list_res as [m|st txt [m|ld]];
      [discriminate|destruct (negb (ok_status st)); discriminate|].
    destruct (negb (ok_status st)); [discriminate|]. intro H. injection H as <-.
    eapply Nat.le_trans; [apply filter_some_length|]. rewrite length_map.
    exact (firstn_le_length 10 (match messages ld with Some l => l | None => [] end)).
  - intros st txt ld d -> Hok ids Hd. unfold getUnreadEmails. rewrite Hok. simpl. f_equal.
    apply filter_some_all. intros i Hi. destruct (Hd i Hi) as [st' [txt' [-> Hok']]].
    simpl. rewrite Hok'. reflexivity.
Qed.

End GmailApiProofs.

(** ** [processEmail], [addContextHint] and the stored settings *)

Module AIProofs.
Import AI StoredSettings ExtraSpec.

Lemma basicFallback_tag_allowed subject text : In (tag (basicFallback subject text)) allowed_tags.
Proof.
  unfold basicFallback.
  destruct (test true _ text); [simpl; auto|].
  destruct (test true _ text); [simpl; auto|].
  destruct (test true _ text); [simpl; auto|].
  destruct (test true _ text); simpl; auto 6.
Qed.

Lemma validateTag_allowed t : In (validateTag t) allowed_tags.
Proof.
  unfold validateTag. destruct t as [s|]; [|simpl; auto].
  destruct (existsb (jstr_eqb s) allowed_tags) eqn:E; [|simpl; auto].
  apply existsb_exists in E as [x [Hx Hs]]. apply jstr_eqb_eq in Hs. subst. exact Hx.
Qed.

Lemma callAI_tag_allowed JSON_parse text key res : In (tag (callAI JSON_parse text key res)) allowed_tags.
Proof.
  unfold callAI. destruct (ai_reply JSON_parse res) as [[s t]|].
  - apply validateTag_allowed.
  - apply basicFallback_tag_allowed.
Qed.

Lemma basicFallback_summary_min subject text : 10 <= List.length (summary (basicFallback subject text)).
Proof.
  unfold basicFallback.
  destruct (test true _ text); [simpl; lia|].
  destruct (test true _ text); [simpl; lia|].
  destruct (test true _ text); [simpl; lia|].
  destruct (test true _ text); [simpl; lia|].
  cbn [summary]. destruct (negb (is_empty subject)); [|simpl; lia].
  rewrite length_app. simpl. lia.
Qed.

Lemma first_hint_in rules t h : first_hint rules t = Some h -> In h (map rule_hint rules).
Proof.
  induction rules as [|r rs IH]; simpl; [discriminate|].
  destruct (test (rule_ci r) (rule_alts r) t); [intro H; injection H as <-; auto|auto].
Qed.

Lemma context_hints_long : forallb (fun h => 10 <=? List.length h) (map rule_hint context_rules) = true.
Proof. vm_compute. reflexivity. Qed.

Lemma addContextHint_long s subject body t :
  10 <= List.length s -> 10 <= List.length (addContextHint s subject body t).
Proof.
  unfold addContextHint. intro H.
  destruct (first_hint context_rules _) as [h|] eqn:E; [|exact H].
  apply first_hint_in in E. pose proof context_hints_long as L.
  rewrite forallb_forall in L. apply Nat.leb_le. exact (L h E).
Qed.

(** *** [X5] Whatever the key, the body and the AI reply, the tag of
    [processEmail] is one of the four allowed tags and its summary has at
    least ten characters. *)
Theorem processEmail_tag_and_summary (JSON_parse : jstr -> option json) (settings : Settings)
    (subject body : jstr) (res : fetch_outcome) :
  let r := processEmail JSON_parse settings subject body res in
  In (tag r) allowed_tags /\ 10 <= List.length (summary r).
Proof.
  unfold processEmail.
  destruct (is_empty (aiApiKey settings) || is_empty (cleanEmail body)).
  - split; [apply basicFallback_tag_allowed|apply basicFallback_summary_min].
  - destruct (is_empty (summary (callAI JSON_parse (cleanEmail body) (aiApiKey settings) res))
              || (List.length (summary (callAI JSON_parse (cleanEmail body) (aiApiKey settings) res)) <? 10))
        eqn:E.
    + split; [apply basicFallback_tag_allowed|apply basicFallback_summary_min].
    + apply orb_false_iff in E as [_ E]. apply Nat.ltb_ge in E.
      cbn [tag summary]. split; [apply callAI_tag_allowed|apply addContextHint_long; exact E].
Qed.

(** *** Setting a property *)

Lemma assoc_last_append kvs k k' x :
  assoc_last k' (kvs ++ [(k, x)]) = if jstr_eqb k' k then Some x else assoc_last k' kvs.
Proof.
  induction kvs as [|[k0 v0] kvs IH]; simpl.
  - destruct (jstr_eqb k' k); reflexivity.
  - rewrite IH. destruct (jstr_eqb k' k); reflexivity.
Qed.

Lemma assoc_last_replace kvs k k' x :
  assoc_last k' (map (fun kv => if jstr_eqb (fst kv) k then (k, x) else kv) kvs) =
  if jstr_eqb k' k
  then (if existsb (fun kv => jstr_eqb (fst kv) k) kvs then Some x else None)
  else assoc_last k' kvs.
Proof.
  induction kvs as [|[k0 v0] kvs IH]; simpl; [destruct (jstr_eqb k' k); reflexivity|].
  destruct (jstr_eqb k0 k) eqn:F; cbn [fst]; rewrite IH; destruct (jstr_eqb k' k) eqn:E.
  - destruct (existsb _ kvs); reflexivity.
  - apply jstr_eqb_eq in F. subst k0. rewrite E. destruct (assoc_last k' kvs); reflexivity.
  - apply jstr_eqb_eq in E. subst k'. rewrite (DedupProofs.jstr_eqb_sym k k0), F.
    simpl. destruct (existsb _ kvs); reflexivity.
  - reflexivity.
Qed.

Lemma get_set_prop kvs k k' x :
  get (set_prop (JObj kvs) k x) k' = if jstr_eqb k' k then Some x else get (JObj kvs) k'.
Proof.
  unfold set_prop, get.
  destruct (existsb (fun kv => jstr_eqb (fst kv) k) kvs) eqn:E.
  - rewrite assoc_last_replace, E. reflexivity.
  - apply assoc_last_append.
Qed.

Lemma api_key_of_default : api_key_of default_ai_settings = [].
Proof. reflexivity. Qed.

Lemma api_key_saved stored input :
  api_key_of (settings_or default_ai_settings (Some (saveApiKey stored input))) =
  match settings_or (JObj []) stored with JObj _ => trim input | _ => [] end.
Proof.
  unfold saveApiKey. cbv zeta.
  set (v := if is_empty (trim input) then JNull else JStr (trim input)).
  destruct (settings_or (JObj []) stored) as [|b|r|s0|xs|kvs].
  - reflexivity.
  - destruct b; reflexivity.
  - cbn [set_prop]. unfold settings_or. destruct (truthy (JNum r)); reflexivity.
  - cbn [set_prop]. unfold settings_or. destruct (truthy (JStr s0)); reflexivity.
  - reflexivity.
  - assert (E0 : exists kvs', set_prop (JObj kvs) (js "aiApiKey") v = JObj kvs')
      by (eexists; reflexivity).
    destruct E0 as [kvs' E0]. unfold settings_or. rewrite E0. cbn [truthy].
    unfold api_key_of. rewrite <- E0, get_set_prop. simpl. unfold v.
    destruct (is_empty (trim input)) eqn:F; [|reflexivity].
    destruct (trim input); [reflexivity|discriminate].
Qed.

(** *** [X6] An [AIProcessor] that has not loaded its settings yet
    (cache [this.settings] empty, as in a newly started service worker)
    never uses the AI without a key: with nothing stored, and after the
    popup saves a blank key, [processEmail] gives the rule fallback on the
    cleaned body, whatever the reply would have been.  One that loaded its
    settings before the save keeps them: the saved value does not reach its
    [processEmail]. *)
Theorem processEmail_no_key (JSON_parse : jstr -> option json) (stored : option json)
    (input subject body : jstr) (res : fetch_outcome) :
  processEmail JSON_parse (ai_settings (fst (loadSettings None None))) subject body res =
    basicFallback subject (cleanEmail body) /\
  (trim input = [] ->
   processEmail JSON_parse (ai_settings (fst (loadSettings (Some (saveApiKey stored input)) None)))
     subject body res = basicFallback subject (cleanEmail body)) /\
  (forall stored0,
   processEmail JSON_parse
     (ai_settings (fst (loadSettings (Some (saveApiKey stored input)) (snd (loadSettings stored0 None)))))
     subject body res =
   processEmail JSON_parse (ai_settings (fst (loadSettings stored0 None))) subject body res).
Proof.
  split; [reflexivity|]. split; [|intro stored0; reflexivity]. intro H.
  unfold processEmail, ai_settings, loadSettings. cbn [fst aiApiKey].
  rewrite api_key_saved, H.
  destruct (settings_or (JObj []) stored); reflexivity.
Qed.

(** *** [X7] The popup's save only touches [aiApiKey]: on the settings the
    popup and the background write (nothing yet, or an object) the polling
    interval the background derives is unchanged.  An [AIProcessor] that
    has not loaded its settings yet then loads the trimmed input as its
    key; one that loaded them before the save keeps its earlier key. *)
Theorem saveApiKey_keeps_interval (StringToNumber : jstr -> jsnum) (stored : option json)
    (input : jstr) :
  (stored = None \/ exists kvs, stored = Some (JObj kvs)) ->
  polling_interval StringToNumber (Some (saveApiKey stored input)) =
    polling_interval StringToNumber stored /\
  api_key_of (fst (loadSettings (Some (saveApiKey stored input)) None)) = trim input /\
  (forall stored0,
   api_key_of (fst (loadSettings (Some (saveApiKey stored input)) (snd (loadSettings stored0 None)))) =
   api_key_of (fst (loadSettings stored0 None))).
Proof.
  intro Hs.
  assert (exists kvs, settings_or (JObj []) stored = JObj kvs) as [kvs Hk].
  { destruct Hs as [-> | [kvs ->]]; [exists []; reflexivity|exists kvs; reflexivity]. }
  split; [|split; [|intro stored0; reflexivity]].
  - unfold polling_interval. unfold saveApiKey at 1. rewrite Hk.
    unfold settings_or at 1. unfold set_prop at 1.
    cbn [truthy]. fold (set_prop (JObj kvs) (js "aiApiKey")
                        (if is_empty (trim input) then JNull else JStr (trim input))).
    rewrite get_set_prop. reflexivity.
  - unfold loadSettings. cbn [fst]. rewrite api_key_saved, Hk. reflexivity.
Qed.

Lemma prefixb_ci p s : prefixb p s = true -> prefix_ci p s = true.
Proof.
  revert s; induction p as [|a p IH]; intros [|b s]; simpl; try discriminate; auto.
  intro H. apply andb_prop in H as [H1 H2]. apply Ascii.eqb_eq in H1. subst.
  rewrite Ascii.eqb_refl. simpl. auto.
Qed.

Lemma contains_ci_of_contains p s : contains p s = true -> contains_ci p s = true.
Proof.
  induction s as [|c s IH]; simpl; intro H.
  - rewrite orb_false_r in *. apply prefixb_ci. exact H.
  - apply orb_true_iff in H as [H|H].
    + rewrite (prefixb_ci _ _ H). reflexivity.
    + rewrite IH by exact H. apply orb_true_r.
Qed.

Lemma test_filter ci alts seen t :
  (forall a, In a seen -> contains_ci a t = false) ->
  test ci (filter (fun a => negb (existsb (jstr_eqb a) seen)) alts) t = test ci alts t.
Proof.
  intro Hs. unfold test. induction alts as [|a alts IH]; simpl; [reflexivity|].
  destruct (existsb (jstr_eqb a) seen) eqn:E; simpl.
  - apply existsb_exists in E as [b [Hb Hab]]. apply jstr_eqb_eq in Hab. subst b.
    pose proof (Hs a Hb) as Hc.
    assert (contains a t = false) as Hc'.
    { destruct (contains a t) eqn:F; [|reflexivity]. rewrite (contains_ci_of_contains _ _ F) in Hc.
      discriminate. }
    rewrite IH. destruct ci; [rewrite Hc|rewrite Hc']; reflexivity.
  - rewrite IH. reflexivity.
Qed.

Lemma test_false_alts ci alts t :
  test ci alts t = false -> ci = true -> forall a, In a alts -> contains_ci a t = false.
Proof.
  intros H -> a Ha. unfold test in H.
  destruct (contains_ci a t) eqn:E; [|reflexivity].
  assert (existsb (fun p => contains_ci p t) alts = true) as F.
  { apply existsb_exists. exists a. auto. }
  rewrite F in H. discriminate.
Qed.

Lemma first_hint_prune rules seen t :
  (forall a, In a seen -> contains_ci a t = false) ->
  first_hint rules t = first_hint (prune seen rules) t.
Proof.
  revert seen; induction rules as [|r rs IH]; intros seen Hs; [reflexivity|].
  cbn [prune first_hint].
  pose proof (test_filter (rule_ci r) (rule_alts r) seen t Hs) as Ht.
  assert (Hs' : test (rule_ci r) (rule_alts r) t = false ->
                forall a, In a (if rule_ci r then rule_alts r ++ seen else seen) ->
                contains_ci a t = false).
  { intros Hf a Ha. destruct (rule_ci r) eqn:Ci; [|auto].
    apply in_app_or in Ha as [Ha|Ha]; [|auto]. exact (test_false_alts _ _ _ Hf eq_refl a Ha). }
  destruct (filter (fun a => negb (existsb (jstr_eqb a) seen)) (rule_alts r)) as [|a0 l] eqn:E.
  - assert (Hf : test (rule_ci r) (rule_alts r) t = false) by (rewrite <- Ht; reflexivity).
    rewrite Hf. apply IH. apply Hs'. exact Hf.
  - cbn [first_hint rule_ci rule_alts rule_hint]. rewrite Ht.
    destruct (test (rule_ci r) (rule_alts r) t) eqn:F; [reflexivity|].
    apply IH. apply Hs'. reflexivity.
Qed.

Lemma prune_context_rules : prune [] context_rules = prune [] reachable_rules.
Proof. vm_compute. reflexivity. Qed.

(** *** [X8] Of the second block of [addContextHint] (the rules without
    the [i] flag) only the alternative [login attempt] can ever fire: its
    other alternatives are all alternatives of earlier rules with the flag,
    so [addContextHint] is the same as over the flagged rules followed by a
    single [login attempt] rule. *)
Theorem addContextHint_reachable (summary subject body tag : jstr) :
  addContextHint summary subject body tag =
  match first_hint reachable_rules (toLowerCase (subject ++ js " " ++ body)) with
  | Some hint => hint
  | None => summary
  end.
Proof.
  unfold addContextHint.
  assert (H0 : forall a, In a [] -> contains_ci a (toLowerCase (subject ++ js " " ++ body)) = false)
    by (intros a []).
  rewrite (first_hint_prune context_rules [] _ H0), (first_hint_prune reachable_rules [] _ H0),
    prune_context_rules.
  reflexivity.
Qed.

Lemma prefix_ci_self p s : prefix_ci p (p ++ s) = true.
Proof. induction p as [|a p IH]; simpl; [reflexivity|]. rewrite Ascii.eqb_refl. exact IH. Qed.

Lemma contains_ci_infix p pre post : contains_ci p (pre ++ p ++ post) = true.
Proof.
  induction pre as [|c pre IH]; simpl.
  - pose proof (prefix_ci_self p post) as H.
    destruct (p ++ post); simpl; rewrite H; reflexivity.
  - rewrite IH. apply orb_true_r.
Qed.

(** *** [X9] The rule fallback reads any text with the letters [hr] in it
    (as in three, through or shrink) as an interview email. *)
Theorem basicFallback_hr_anywhere (subject pre post : jstr) :
  basicFallback subject (pre ++ js "hr" ++ post) =
  {| summary := js "Interview-related email; reply to confirm next steps.";
     tag := js "Reply Required" |}.
Proof.
  unfold basicFallback.
  replace (test true [js "interview"; js "hr"; js "recruiter"; js "hiring"] (pre ++ js "hr" ++ post))
    with true; [reflexivity|].
  pose proof (contains_ci_infix (js "hr") pre post) as H.
  unfold test. cbn [existsb]. rewrite H, orb_true_r. reflexivity.
Qed.

End AIProofs.

(** ** The worker *)

Module WorkerProofs.
Import AI Background GmailApi StoredSettings Worker ExtraSpec.

Lemma set_has_in s x : set_has s x = true <-> In x s.
Proof.
  unfold set_has. rewrite existsb_exists. split.
  - intros [y [Hy Hxy]]. apply jstr_eqb_eq in Hxy. subst. exact Hy.
  - intro H. exists x. split; [exact H|apply jstr_eqb_refl].
Qed.

Lemma set_has_false s x : set_has s x = false <-> ~ In x s.
Proof.
  rewrite <- set_has_in. destruct (set_has s x); split; congruence.
Qed.

Lemma in_set_add x y s : In x (set_add y s) <-> In x s \/ x = y.
Proof.
  unfold set_add. destruct (set_has s y) eqn:E.
  - apply set_has_in in E. split; [auto|]. intros [H| ->]; auto.
  - rewrite in_app_iff. simpl. split; intros [H|H]; auto; destruct H as [H|[]]; auto.
Qed.

Lemma set_add_nodup x s : NoDup s -> NoDup (set_add x s).
Proof.
  intro H. unfold set_add. destruct (set_has s x) eqn:E; [exact H|].
  apply set_has_false in E. apply NoDup_app; [exact H|constructor; [intros []|constructor]|].
  intros y Hy [<-|[]]. contradiction.
Qed.

Lemma set_of_array_fold l acc :
  NoDup (acc ++ l) -> fold_left (fun acc x => set_add x acc) l acc = acc ++ l.
Proof.
  revert acc; induction l as [|x l IH]; intros acc H; simpl; [rewrite app_nil_r; reflexivity|].
  assert (Hx : set_has acc x = false).
  { apply set_has_false. intro Hin. apply NoDup_remove_2 in H. apply H, in_or_app. left. exact Hin. }
  unfold set_add at 2. rewrite Hx, IH; [rewrite <- app_assoc; reflexivity|].
  rewrite <- app_assoc. exact H.
Qed.

Lemma set_of_array_id l : NoDup l -> set_of_array l = l.
Proof. intro H. apply (set_of_array_fold l []). exact H. Qed.

Lemma synced_mark id n : synced n -> synced (markAsProcessed id n).
Proof.
  intros [_ H]. split; [left; reflexivity|]. apply set_add_nodup. exact H.
Qed.

Lemma synced_reload n : synced n -> reload n = n.
Proof.
  destruct n as [p [st]]. intros [[H|[H1 H2]] Hd]; cbn [storage processed_messages processedMessages] in *;
    unfold reload, loadStoredData; cbn [storage processed_messages].
  - rewrite H, (set_of_array_id p Hd). reflexivity.
  - subst. reflexivity.
Qed.

Lemma contains_app_l p a b : contains p a = true -> contains p (a ++ b) = true.
Proof.
  induction a as [|c a IH]; intro H.
  - simpl in H. rewrite orb_false_r in H. destruct p; [|discriminate].
    destruct b; reflexivity.
  - cbn [contains] in H. apply orb_true_iff in H as [H|H].
    + change ((c :: a) ++ b) with (c :: (a ++ b)).
      pose proof (SanitizerProofs.prefixb_app p (c :: a) b H) as H'.
      cbn [app] in H'. cbn [contains]. rewrite H'. reflexivity.
    + change ((c :: a) ++ b) with (c :: (a ++ b)).
      cbn [contains]. rewrite (IH H). apply orb_true_r.
Qed.

Lemma gmail_inj a b : js "gmail-" ++ a = js "gmail-" ++ b -> a = b.
Proof. apply app_inv_head. Qed.

(** What a batch of notifications satisfies with respect to the set
    before ([p]) and after ([p']) it. *)
Definition fresh_batch (p p' : IdSet) (ns : list Notification) : Prop :=
  NoDup (map notif_id ns) /\
  forall x, In x (map notif_id ns) -> exists id, x = js "gmail-" ++ id /\ ~ In id p /\ In id p'.

Lemma fresh_batch_nil p : fresh_batch p p [].
Proof. split; [constructor|intros x []]. Qed.

Lemma process_unread_spec summ es n :
  let '(n', ns) := process_unread summ es n in
  (synced n -> synced n') /\
  incl (processedMessages n) (processedMessages n') /\
  (forall e, In e es -> In (email_id e) (processedMessages n')) /\
  (forall e, In e es -> ~ In (email_id e) (processedMessages n) ->
             In (js "gmail-" ++ email_id e) (map notif_id ns)) /\
  fresh_batch (processedMessages n) (processedMessages n') ns.
Proof.
  revert n; induction es as [|e es IH]; intro n; cbn [process_unread].
  - split; [auto|split; [apply incl_refl|split; [intros e []|split; [intros e []|]]]].
    apply fresh_batch_nil.
  - destruct (set_has (processedMessages n) (email_id e)) eqn:E.
    + specialize (IH n). destruct (process_unread summ es n) as [n' ns].
      destruct IH as [H1 [H3 [H4 [H5 H6]]]].
      split; [exact H1|split; [exact H3|split; [|split; [|exact H6]]]].
      * intros e0 [<-|He]; [apply H3, set_has_in, E|auto].
      * intros e0 [<-|He] Hn; [apply set_has_in in E; contradiction|auto].
    + specialize (IH (markAsProcessed (email_id e) n)).
      destruct (process_unread summ es (markAsProcessed (email_id e) n)) as [n' ns].
      destruct IH as [H1 [H3 [H4 [H5 [H6 H7]]]]].
      assert (Hp : In (email_id e) (processedMessages n')).
      { apply H3. cbn. apply in_set_add. right. reflexivity. }
      apply set_has_false in E.
      split; [intro Hs; apply H1, synced_mark, Hs|].
      split; [intros x Hx; apply H3; cbn; apply in_set_add; left; exact Hx|].
      split; [intros e0 [<-|He]; [exact Hp|auto]|].
      split.
      * intros e0 [<-|He] Hn; [left; reflexivity|].
        destruct (list_eq_dec ascii_dec (email_id e0) (email_id e)) as [Eq|Ne].
        -- left. cbn. rewrite Eq. reflexivity.
        -- right. apply H5; [exact He|]. cbn. rewrite in_set_add. intros [Hx|Hx]; contradiction.
      * split.
        -- cbn [map]. constructor; [|exact H6]. intro Hin.
           destruct (H7 _ Hin) as [id [Hid [Hn _]]]. cbn in Hid. apply gmail_inj in Hid.
           apply Hn. cbn. apply in_set_add. right. symmetry. exact Hid.
        -- intros x [<-|Hx].
           ++ exists (email_id e). split; [reflexivity|split; [exact E|exact Hp]].
           ++ destruct (H7 x Hx) as [id [-> [Hn Hin]]]. exists id.
              split; [reflexivity|split; [|exact Hin]].
              intro Hc. apply Hn. cbn. apply in_set_add. left. exact Hc.
Qed.

Lemma notifier_authenticate force o w : notifier (fst (authenticate force o w)) = notifier w.
Proof.
  unfold authenticate. destruct (force && negb (is_empty (authToken w))), o; reflexivity.
Qed.

Lemma notifier_recover rf msg w : notifier (recover rf msg w) = notifier w.
Proof. unfold recover. destruct (contains _ msg); [apply notifier_authenticate|reflexivity]. Qed.

Lemma check_cases fa rf unread summ w :
  let '(w', ns) := checkForNewEmails fa rf unread summ w in
  (notifier w' = notifier w /\ ns = []) \/
  exists es, process_unread summ es (notifier w) = (notifier w', ns).
Proof.
  unfold checkForNewEmails. destruct (isRunning w); [|left; auto]. cbn [negb].
  destruct (is_empty (authToken w)).
  - destruct (authenticate false fa w) as [w1 err] eqn:A.
    assert (N : notifier w1 = notifier w)
      by (rewrite <- (notifier_authenticate false fa w), A; reflexivity).
    destruct err as [msg|]; [left; rewrite notifier_recover; auto|].
    destruct (unread (authToken w1)) as [es|msg]; [|left; rewrite notifier_recover; auto].
    destruct (process_unread summ es (notifier w1)) as [n ns] eqn:P.
    right. exists es. rewrite <- N, P. reflexivity.
  - destruct (unread (authToken w)) as [es|msg]; [|left; rewrite notifier_recover; auto].
    destruct (process_unread summ es (notifier w)) as [n ns] eqn:P.
    right. exists es. exact P.
Qed.

Lemma notifier_toggle a w : notifier (fst (togglePolling a w)) = notifier w.
Proof.
  unfold togglePolling. destruct (isRunning w); [reflexivity|].
  destruct (authenticate false a w) as [w1 [m|]] eqn:A;
    rewrite <- (notifier_authenticate false a w), A; cbn [fst]; [reflexivity|].
  unfold startPolling. destruct (isRunning w1); reflexivity.
Qed.

Lemma step_keeps S2N ev w :
  synced (notifier w) -> keeps_history ev = true ->
  let '(w', ns) := step S2N ev w in
  synced (notifier w') /\ incl (processedMessages (notifier w)) (processedMessages (notifier w')) /\
  fresh_batch (processedMessages (notifier w)) (processedMessages (notifier w')) ns.
Proof.
  intros Hs Hk. destruct ev as [fa rf unread summ|a| | | |input]; cbn [step]; try discriminate.
  - pose proof (check_cases fa rf unread summ w) as C.
    destruct (checkForNewEmails fa rf unread summ w) as [w' ns].
    destruct C as [[-> ->]|[es P]].
    + split; [exact Hs|split; [apply incl_refl|apply fresh_batch_nil]].
    + pose proof (process_unread_spec summ es (notifier w)) as S. rewrite P in S.
      destruct S as [H1 [H3 [_ [_ H6]]]]. auto.
  - rewrite notifier_toggle. split; [exact Hs|split; [apply incl_refl|apply fresh_batch_nil]].
  - assert (N : notifier (initialize S2N (fresh w)) = notifier w) by (change (reload (notifier w) = notifier w); apply synced_reload, Hs).
    rewrite N. split; [exact Hs|split; [apply incl_refl|apply fresh_batch_nil]].
  - cbn [notifier with_store]. split; [exact Hs|split; [apply incl_refl|apply fresh_batch_nil]].
Qed.

Lemma run_keeps S2N evs w :
  synced (notifier w) -> forallb keeps_history evs = true ->
  let '(w', ns) := run S2N evs w in
  synced (notifier w') /\ incl (processedMessages (notifier w)) (processedMessages (notifier w')) /\
  fresh_batch (processedMessages (notifier w)) (processedMessages (notifier w')) ns.
Proof.
  revert w; induction evs as [|ev evs IH]; intros w Hs Hk; cbn [run].
  - split; [exact Hs|split; [apply incl_refl|apply fresh_batch_nil]].
  - cbn [forallb] in Hk. apply andb_prop in Hk as [Hk1 Hk2].
    pose proof (step_keeps S2N ev w Hs Hk1) as S1.
    destruct (step S2N ev w) as [w1 ns1].
    destruct S1 as [Hs1 [Hi1 [Hd1 Hf1]]].
    specialize (IH w1 Hs1 Hk2). destruct (run S2N evs w1) as [w2 ns2].
    destruct IH as [Hs2 [Hi2 [Hd2 Hf2]]].
    split; [exact Hs2|split; [intros x Hx; apply Hi2, Hi1, Hx|split]].
    + rewrite map_app. apply NoDup_app; [exact Hd1|exact Hd2|].
      intros x Hx1 Hx2.
      destruct (Hf1 x Hx1) as [id [-> [_ Hin]]].
      destruct (Hf2 _ Hx2) as [id' [Hid [Hn _]]]. apply gmail_inj in Hid. subst id'.
      contradiction.
    + intros x Hx. rewrite map_app in Hx. apply in_app_or in Hx as [Hx|Hx].
      * destruct (Hf1 x Hx) as [id [-> [Hn Hin]]]. exists id. split; [reflexivity|split; [exact Hn|]].
        apply Hi2. exact Hin.
      * destruct (Hf2 x Hx) as [id [-> [Hn Hin]]]. exists id. split; [reflexivity|split; [|exact Hin]].
        intro Hc. apply Hn, Hi1, Hc.
Qed.

(** *** [X10] When every event finishes before the next one starts (no
    check overlaps another), as long as the popup does not clear the list and
    the service worker is not restarted, no email is notified twice: over any
    sequence of checks, toggles, browser starts and key saves the
    notification ids are distinct and none belongs to an email processed
    before. *)
Theorem run_notifies_once (StringToNumber : jstr -> jsnum) (evs : list Event) (w : Worker) :
  synced (notifier w) -> forallb keeps_history evs = true ->
  let '(w', ns) := run StringToNumber evs w in
  NoDup (map notif_id ns) /\
  (forall id, In id (processedMessages (notifier w)) -> ~ In (js "gmail-" ++ id) (map notif_id ns)) /\
  synced (notifier w').
Proof.
  intros Hs Hk. pose proof (run_keeps StringToNumber evs w Hs Hk) as R.
  destruct (run StringToNumber evs w) as [w' ns]. destruct R as [Hs' [_ [Hd Hf]]].
  split; [exact Hd|split; [|exact Hs']].
  intros id Hid Hin. destruct (Hf _ Hin) as [id' [Heq [Hn _]]]. apply gmail_inj in Heq. subst id'.
  contradiction.
Qed.

Lemma step_synced S2N ev w :
  synced (notifier w) -> no_wake ev = true -> synced (notifier (fst (step S2N ev w))).
Proof.
  intros Hs Hk. destruct ev as [fa rf unread summ|a| | | |input]; cbn [step fst]; try discriminate.
  - pose proof (check_cases fa rf unread summ w) as C.
    destruct (checkForNewEmails fa rf unread summ w) as [w' ns]. cbn [fst].
    destruct C as [[-> _]|[es P]]; [exact Hs|].
    pose proof (process_unread_spec summ es (notifier w)) as S. rewrite P in S.
    apply (proj1 S), Hs.
  - rewrite notifier_toggle. exact Hs.
  - assert (N : notifier (initialize S2N (fresh w)) = notifier w) by (change (reload (notifier w) = notifier w); apply synced_reload, Hs).
    rewrite N. exact Hs.
  - split; [left; reflexivity|constructor].
  - exact Hs.
Qed.

(** *** [X11] Until the service worker is restarted, the persisted list is
    the in-memory set (clearing included), so a browser start restores
    exactly the set the worker had. *)
Theorem startup_restores_set (StringToNumber : jstr -> jsnum) (evs : list Event) (w : Worker) :
  synced (notifier w) -> forallb no_wake evs = true ->
  let w' := fst (run StringToNumber evs w) in
  synced (notifier w') /\ notifier (fst (step StringToNumber EStartup w')) = notifier w'.
Proof.
  intros Hs Hk.
  assert (H : synced (notifier (fst (run StringToNumber evs w)))).
  { revert w Hs; induction evs as [|ev evs IH]; intros w Hs; cbn [run]; [exact Hs|].
    cbn [forallb] in Hk. apply andb_prop in Hk as [Hk1 Hk2].
    pose proof (step_synced StringToNumber ev w Hs Hk1) as H1.
    destruct (step StringToNumber ev w) as [w1 ns1]. cbn [fst] in H1.
    specialize (IH Hk2 w1 H1). destruct (run StringToNumber evs w1) as [w2 ns2]. exact IH. }
  split; [exact H|]. change (reload (notifier (fst (run StringToNumber evs w))) =
                             notifier (fst (run StringToNumber evs w))).
  apply synced_reload. exact H.
Qed.

(** *** [X12] A restart of the service worker forgets the set: the alarm
    is kept but its checks do nothing until polling is turned on again, and
    then an email processed before is notified a second time and the
    persisted list is overwritten with its id alone. *)
Theorem wake_renotifies (StringToNumber : jstr -> jsnum) (w : Worker) (t : jstr)
    (fa rf : auth_outcome) (unread : jstr -> outcome (list ParsedEmail))
    (summ : jstr -> jstr -> Result) (e : ParsedEmail) :
  set_has (processedMessages (notifier w)) (email_id e) = true -> t <> [] ->
  run StringToNumber [EWake; ECheck fa rf unread summ] w = (fresh w, []) /\
  alarm (fresh w) = alarm w /\
  let '(w', ns) := run StringToNumber
                     [EWake; EToggle (Granted t); ECheck fa rf (fun _ => Ok [e]) summ] w in
  ns = [notify summ e] /\ processed_messages (storage (notifier w')) = Some [email_id e].
Proof.
  intros _ Ht. split; [reflexivity|split; [reflexivity|]].
  destruct t as [|c t]; [contradiction|]. cbn. split; reflexivity.
Qed.

(** The token a running check lists with: the one it holds, or the one
    its first request returns when it holds none. *)
Lemma check_listing_token fa rf unread summ w t :
  isRunning w = true ->
  (authToken w <> [] /\ t = authToken w \/ authToken w = [] /\ fa = Granted t) ->
  checkForNewEmails fa rf unread summ w =
  match unread t with
  | Err msg => (recover rf msg (with_token t w), [])
  | Ok emails =>
      let '(n, ns) := process_unread summ emails (notifier w) in (with_notifier n (with_token t w), ns)
  end.
Proof.
  intros Hr [[Hne ->]|[He ->]]; unfold checkForNewEmails; rewrite Hr; cbn [negb].
  - assert (E : is_empty (authToken w) = false) by (destruct (authToken w); [contradiction|reflexivity]).
    rewrite E. replace (with_token (authToken w) w) with w by (destruct w; reflexivity).
    reflexivity.
  - rewrite He. reflexivity.
Qed.

(** *** [X13] When a check fails it notifies nothing, and the only state
    it changes is the token: a token it obtained because it held none is
    kept, and an error whose message contains [401] makes it drop the
    token and take the one a new request returns (none if refused).  A
    stopped worker is left as it is, and a [401] status of the listing is
    such an error. *)
Theorem check_error_recovery (fa rf : auth_outcome)
    (unread : jstr -> outcome (list ParsedEmail)) (summ : jstr -> jstr -> Result) (w : Worker) :
  (isRunning w = false -> checkForNewEmails fa rf unread summ w = (w, [])) /\
  (forall t msg, isRunning w = true ->
   (authToken w <> [] /\ t = authToken w \/ authToken w = [] /\ fa = Granted t) ->
   unread t = Err msg ->
   checkForNewEmails fa rf unread summ w =
     (if contains (js "401") msg
      then with_token (match rf with Granted t' => t' | Denied _ => [] end) (with_token t w)
      else with_token t w, [])) /\
  (forall m, isRunning w = true -> authToken w = [] -> fa = Denied m ->
   checkForNewEmails fa rf unread summ w =
     (if contains (js "401") m
      then with_token (match rf with Granted t' => t' | Denied _ => [] end) w else w, [])) /\
  (forall atob_utf8 stripHtml txt j msg_res, exists msg,
     getUnreadEmails atob_utf8 stripHtml (ApiResponse 401 txt j) msg_res = Err msg /\
     contains (js "401") msg = true).
Proof.
  split; [intro Hr; unfold checkForNewEmails; rewrite Hr; reflexivity|].
  split; [|split].
  - intros t msg Hr Ht Hu. rewrite (check_listing_token fa rf unread summ w t Hr Ht), Hu.
    unfold recover, authenticate. destruct (contains (js "401") msg); [|reflexivity].
    destruct t as [|c t']; destruct rf; reflexivity.
  - intros m Hr He Hf. unfold checkForNewEmails. rewrite Hr, He, Hf. cbn [negb is_empty].
    unfold recover, authenticate. rewrite He. cbn [is_empty negb andb].
    destruct (contains (js "401") m); [|reflexivity].
    destruct w; cbn in He |- *. subst. destruct rf; reflexivity.
  - intros. eexists. split; [reflexivity|].
    rewrite app_assoc. apply contains_app_l. vm_compute. reflexivity.
Qed.

End WorkerProofs.

(** ** Polling, the popup, and one check *)

Module PollingProofs.
Import AI Background GmailApi StoredSettings Worker Popup ExtraSpec WorkerProofs.

Lemma sixty_over_sixty : (1 <= 60 / 60)%Q.
Proof. apply Qle_bool_iff. reflexivity. Qed.

(** *** [X14] The polling interval the background loads is at least 60
    seconds, so the alarm period is at least one minute; a finite stored
    value of at least 60 is kept as it is. *)
Theorem polling_interval_floor (StringToNumber : jstr -> jsnum) (stored : option json) :
  let p := polling_interval StringToNumber stored in
  (60 <= p)%Q /\ (1 <= p / 60)%Q /\
  (forall q, ToNumber StringToNumber (get (settings_or (JObj []) stored) (js "pollingInterval"))
             = NumFinite q -> (60 <= q)%Q -> p = q).
Proof.
  assert (D : forall p, (60 <= p)%Q -> (1 <= p / 60)%Q).
  { intros p H. apply Qle_shift_div_l; [unfold Qlt; simpl; lia|]. rewrite Qmult_1_l. exact H. }
  unfold polling_interval.
  destruct (ToNumber StringToNumber (get (settings_or (JObj []) stored) (js "pollingInterval")))
    as [q| |b] eqn:E.
  - destruct (Qle_bool 60 q) eqn:F; cbn [negb].
    + apply Qle_bool_iff in F. split; [exact F|split; [apply D, F|]].
      intros q' H _. injection H as ->. reflexivity.
    + split; [apply Qle_refl|split; [apply sixty_over_sixty|]].
      intros q' H Hq. injection H as <-. apply Qle_bool_iff in Hq. rewrite Hq in F. discriminate.
  - split; [apply Qle_refl|split; [apply sixty_over_sixty|discriminate]].
  - split; [apply Qle_refl|split; [apply sixty_over_sixty|discriminate]].
Qed.

(** *** [X15] After a browser start, turning polling on with a granted
    token starts it with that token and an alarm period of at least one
    minute, and turning it on with a refused token leaves it off; turning
    it off again clears the alarm, whatever the token request would give. *)
Theorem toggle_after_startup (StringToNumber : jstr -> jsnum) (w : Worker) (t m : jstr)
    (a : auth_outcome) :
  let w0 := initialize StringToNumber (fresh w) in
  togglePolling (Denied m) w0 = (w0, false) /\
  let '(w1, r1) := togglePolling (Granted t) w0 in
  r1 = true /\ isRunning w1 = true /\ authToken w1 = t /\
  (exists p, alarm w1 = Some p /\ (1 <= p)%Q) /\
  togglePolling a w1 = (with_alarm None (with_running false w1), false).
Proof.
  cbn zeta. split; [reflexivity|].
  cbn -[polling_interval Qdiv]. split; [reflexivity|split; [reflexivity|split; [reflexivity|split]]].
  - eexists. split; [reflexivity|]. apply (polling_interval_floor StringToNumber (settings_store w)).
  - reflexivity.
Qed.

Lemma decimal_digits n :
  forallb (fun c => (48 <=? code c) && (code c <=? 57)) (decimal n) = true.
Proof.
  unfold decimal.
  assert (H : forall fuel m acc,
             forallb (fun c => (48 <=? code c) && (code c <=? 57)) acc = true ->
             forallb (fun c => (48 <=? code c) && (code c <=? 57)) (decimal_aux fuel m acc) = true).
  { induction fuel as [|f IH]; intros m acc Ha; cbn [decimal_aux]; [exact Ha|].
    assert (Hc : forallb (fun c => (48 <=? code c) && (code c <=? 57))
                   (ascii_of_nat (48 + m mod 10) :: acc) = true).
    { cbn [forallb]. rewrite Ha, andb_true_r. unfold code.
      rewrite nat_ascii_embedding by (pose proof (Nat.mod_upper_bound m 10); lia).
      pose proof (Nat.mod_upper_bound m 10). apply andb_true_intro; split; apply Nat.leb_le; lia. }
    destruct (m <? 10); [exact Hc|apply IH, Hc]. }
  apply H. reflexivity.
Qed.

Lemma decimal_truthy n :
  (if truthy (JNum (decimal n)) then js_String (JNum (decimal n)) else js "0") = decimal n.
Proof.
  cbn [truthy js_String].
  destruct (jstr_eqb (decimal n) (js "0")) eqn:E; cbn [orb negb].
  - apply jstr_eqb_eq in E. rewrite E. reflexivity.
  - destruct (jstr_eqb (decimal n) (js "NaN")) eqn:F; [|reflexivity].
    apply jstr_eqb_eq in F. pose proof (decimal_digits n) as D. rewrite F in D. discriminate.
Qed.

(** *** [X16] What the popup shows for the background's status: Active or
    Inactive as the worker runs, the size of its set, and always Never for
    the last check, which the status response does not carry. *)
Theorem popup_shows_status (toLocaleString : json -> jstr) (w : Worker) :
  loadStatus toLocaleString (getStatus w) =
  {| status_text := if isRunning w then js "Active" else js "Inactive";
     last_check_text := js "Never";
     processed_count_text := decimal (List.length (processedMessages (notifier w))) |}.
Proof.
  unfold loadStatus, getStatus.
  generalize (decimal_truthy (List.length (processedMessages (notifier w)))).
  generalize (decimal (List.length (processedMessages (notifier w)))). intros d Hd.
  cbn in Hd |- *. rewrite Hd. destruct (isRunning w); reflexivity.
Qed.

Lemma process_unread_from summ es n :
  forall x, In x (snd (process_unread summ es n)) -> exists e, In e es /\ x = notify summ e.
Proof.
  revert n; induction es as [|e es IH]; intros n x; cbn [process_unread]; [intros []|].
  destruct (set_has (processedMessages n) (email_id e)).
  - intro H. destruct (IH n x H) as [e0 [He ->]]. exists e0. split; [right; exact He|reflexivity].
  - specialize (IH (markAsProcessed (email_id e) n) x).
    destruct (process_unread summ es (markAsProcessed (email_id e) n)) as [n' ns].
    cbn [snd] in *. intros [<-|H]; [exists e; split; [left|]; reflexivity|].
    destruct (IH H) as [e0 [He ->]]. exists e0. split; [right; exact He|reflexivity].
Qed.

(** *** [X17] A successful check marks every listed email as processed,
    notifies each listed email that was not processed before, and every
    notification it creates is that of such an email; the emails are
    listed with the token the worker holds, or, when it holds none, with
    the one the check's first request returns, which it keeps. *)
Theorem check_notifies_new (fa rf : auth_outcome) (unread : jstr -> outcome (list ParsedEmail))
    (summ : jstr -> jstr -> Result) (w : Worker) (t : jstr) (es : list ParsedEmail) :
  isRunning w = true ->
  (authToken w <> [] /\ t = authToken w \/ authToken w = [] /\ fa = Granted t) ->
  unread t = Ok es ->
  let '(w', ns) := checkForNewEmails fa rf unread summ w in
  (forall e, In e es -> set_has (processedMessages (notifier w')) (email_id e) = true) /\
  (forall e, In e es -> set_has (processedMessages (notifier w)) (email_id e) = false ->
             In (js "gmail-" ++ email_id e) (map notif_id ns)) /\
  (forall x, In x ns -> exists e, In e es /\ x = notify summ e /\
             set_has (processedMessages (notifier w)) (email_id e) = false) /\
  authToken w' = t.
Proof.
  intros Hr Ht Hu. rewrite (check_listing_token fa rf unread summ w t Hr Ht), Hu.
  pose proof (process_unread_spec summ es (notifier w)) as S.
  pose proof (process_unread_from summ es (notifier w)) as F.
  destruct (process_unread summ es (notifier w)) as [n ns]. cbn [snd] in F.
  destruct S as [_ [_ [H4 [H5 [_ H7]]]]]. cbn [notifier with_notifier with_token authToken].
  split; [intros e He; apply set_has_in, H4, He|split; [|split; [|reflexivity]]].
  - intros e He Hn. apply H5; [exact He|]. apply set_has_false. exact Hn.
  - intros x Hx. destruct (F x Hx) as [e [He ->]]. exists e. split; [exact He|split; [reflexivity|]].
    destruct (H7 (notif_id (notify summ e))) as [id [Hid [Hn _]]]; [apply in_map, Hx|].
    cbn [notify notif_id] in Hid. apply gmail_inj in Hid. subst id. apply set_has_false. exact Hn.
Qed.

End PollingProofs.

Module Base64Proofs.
Import Base64 Base64Spec.
Local Open Scope Z_scope.

Lemma list3_ind (P : list Z -> Prop) :
  P [] -> (forall a, P [a]) -> (forall a b, P [a; b]) ->
  (forall a b c r, P r -> P (a :: b :: c :: r)) -> forall l, P l.
Proof.
  intros H0 H1 H2 H3. fix F 1. intros [|a [|b [|c r]]].
  - exact H0.
  - apply H1.
  - apply H2.
  - apply H3, F.
Qed.

Definition norm_char (c : ascii) : ascii :=
  if Ascii.eqb c "-"%char then "+"%char else if Ascii.eqb c "_"%char then "/"%char else c.

Lemma normalize_b64_map s : Gmail.normalize_b64 s = map norm_char s.
Proof. reflexivity. Qed.

Definition char_ok (v : Z) : bool :=
  let c := norm_char (b64url_char v) in
  match b64_value c with Some w => w =? v | None => false end &&
  negb (ascii_ws c) && negb (Ascii.eqb c "="%char).

Lemma char_table : forallb char_ok (map Z.of_nat (seq 0 64)) = true.
Proof. vm_compute. reflexivity. Qed.

Lemma char_ok_all v : 0 <= v < 64 -> char_ok v = true.
Proof.
  intro H. pose proof char_table as T. rewrite forallb_forall in T. apply T.
  apply in_map_iff. exists (Z.to_nat v). split; [lia|]. apply in_seq. lia.
Qed.

Definition sextet (v : Z) : Prop := 0 <= v < 64.

Lemma sextets_range bytes :
  forallb is_byte bytes = true -> Forall sextet (sextets bytes).
Proof.
  induction bytes as [|a|a b|a b c r IH] using list3_ind; cbn [forallb sextets]; intro H;
    unfold is_byte in H; repeat rewrite andb_true_iff in H; repeat rewrite Z.leb_le in H;
    repeat rewrite Z.ltb_lt in H; unfold sextet.
  - constructor.
  - repeat constructor; Z.div_mod_to_equations; lia.
  - repeat constructor; Z.div_mod_to_equations; lia.
  - destruct H as [[Ha1 Ha2] [[Hb1 Hb2] [[Hc1 Hc2] Hr]]].
    repeat constructor; try (Z.div_mod_to_equations; lia). apply IH.
    exact Hr.
Qed.

Lemma b64_bytes_sextets bytes :
  forallb is_byte bytes = true -> b64_bytes (sextets bytes) = bytes.
Proof.
  induction bytes as [|a|a b|a b c r IH] using list3_ind; cbn [forallb sextets]; intro H;
    unfold is_byte in H; repeat rewrite andb_true_iff in H; repeat rewrite Z.leb_le in H;
    repeat rewrite Z.ltb_lt in H.
  - reflexivity.
  - destruct H as [[H1 H2] _]. cbn [b64_bytes]. f_equal. Z.div_mod_to_equations. lia.
  - destruct H as [[H1 H2] [[H3 H4] _]]. cbn [b64_bytes]. f_equal; [|f_equal];
      Z.div_mod_to_equations; lia.
  - destruct H as [[H1 H2] [[H3 H4] [[H5 H6] Hr]]]. cbn [b64_bytes].
    rewrite (IH Hr). f_equal; [|f_equal; [|f_equal]]; Z.div_mod_to_equations; lia.
Qed.

Lemma length_sextets bytes :
  exists q r, List.length (sextets bytes) = (4 * q + r)%nat /\ (r = 0 \/ r = 2 \/ r = 3)%nat.
Proof.
  induction bytes as [|a|a b|a b c r IH] using list3_ind.
  - exists 0%nat, 0%nat. auto.
  - exists 0%nat, 2%nat. auto.
  - exists 0%nat, 3%nat. auto.
  - destruct IH as [q [k [Hl Hk]]]. exists (S q), k. cbn [sextets List.length]. rewrite Hl.
    split; [lia|exact Hk].
Qed.

Lemma mod4_form q r : (r = 0 \/ r = 2 \/ r = 3)%nat -> ((4 * q + r) mod 4 = r)%nat.
Proof.
  intro H. rewrite Nat.add_comm, Nat.mul_comm, Nat.Div0.mod_add.
  destruct H as [->|[->| ->]]; reflexivity.
Qed.

Lemma strip_padding_id d :
  forallb (fun c => negb (Ascii.eqb c "="%char)) d = true -> strip_padding d = d.
Proof.
  intro H. unfold strip_padding.
  assert (H' : forallb (fun c => negb (Ascii.eqb c "="%char)) (rev d) = true).
  { rewrite forallb_forall in *. intros x Hx. apply H, in_rev, Hx. }
  destruct (rev d) as [|x r]; [reflexivity|]. cbn [forallb] in H'.
  apply andb_prop in H' as [Hx _].
  destruct x as [[] [] [] [] [] [] [] []]; try reflexivity; discriminate.
Qed.

Lemma encoded_chars vs :
  Forall sextet vs ->
  let d := map norm_char (map b64url_char vs) in
  filter (fun c => negb (ascii_ws c)) d = d /\ b64_values d = Some vs /\
  forallb (fun c => negb (Ascii.eqb c "="%char)) d = true /\ List.length d = List.length vs.
Proof.
  induction vs as [|v vs IH]; intro H; cbn zeta; [auto|].
  inversion H as [|? ? Hv Hvs]; subst. destruct (IH Hvs) as [F [B [P L]]].
  pose proof (char_ok_all v Hv) as C. unfold char_ok in C.
  apply andb_prop in C as [C P1]. apply andb_prop in C as [C W].
  cbn [map filter b64_values forallb List.length].
  apply negb_true_iff in W.
  destruct (b64_value (norm_char (b64url_char v))) as [w|] eqn:E; [|discriminate].
  apply Z.eqb_eq in C. subst w.
  rewrite W, F, B, P1, P, L. cbn. auto.
Qed.

(** [atob] inverts the encoder on bytes, after the URL-safe substitution of [decodeBase64]. *)
Lemma base64url_roundtrip bytes :
  forallb is_byte bytes = true ->
  forgiving_base64_decode (Gmail.normalize_b64 (b64url_encode bytes)) = Some bytes.
Proof.
  intro Hb. unfold forgiving_base64_decode, b64url_encode. rewrite normalize_b64_map.
  destruct (encoded_chars _ (sextets_range bytes Hb)) as [F [B [P L]]].
  rewrite F. destruct (length_sextets bytes) as [q [r [Hl Hr]]].
  rewrite (strip_padding_id _ P).
  assert (M : (List.length (map norm_char (map b64url_char (sextets bytes))) mod 4 = r)%nat)
    by (rewrite L, Hl; apply mod4_form, Hr).
  rewrite M. destruct (Nat.eqb r 0); rewrite M;
    (replace (Nat.eqb r 1) with false by (destruct Hr as [->|[->| ->]]; reflexivity));
    rewrite B, b64_bytes_sextets by exact Hb; reflexivity.
Qed.


Definition esc (b : Z) : jstr := pct_escape (ascii_of_nat (Z.to_nat b)).

Definition esc_ok (b : Z) : bool :=
  match esc b with
  | [p; h1; h2] =>
      Ascii.eqb p "%"%char &&
      match read_byte [h1; h2] with Some (b', []) => b' =? b | _ => false end
  | _ => false
  end.

Lemma esc_table : forallb esc_ok (map Z.of_nat (seq 0 256)) = true.
Proof. vm_compute. reflexivity. Qed.

Lemma esc_spec b :
  0 <= b < 256 ->
  exists h1 h2, esc b = ["%"%char; h1; h2] /\ forall r, read_byte (h1 :: h2 :: r) = Some (b, r).
Proof.
  intro H. assert (E : esc_ok b = true).
  { pose proof esc_table as T. rewrite forallb_forall in T. apply T.
    apply in_map_iff. exists (Z.to_nat b). split; [lia|]. apply in_seq. lia. }
  unfold esc_ok in E. destruct (esc b) as [|p [|h1 [|h2 [|x l]]]]; try discriminate.
  apply andb_prop in E as [P R]. apply Ascii.eqb_eq in P. subst p.
  exists h1, h2. split; [reflexivity|]. intro r. unfold read_byte in *.
  destruct (hex_value h1), (hex_value h2); try discriminate.
  apply Z.eqb_eq in R. subst. reflexivity.
Qed.

Lemma percent_encode_bytes bytes :
  percent_encode (map (fun b => ascii_of_nat (Z.to_nat b)) bytes) = flat_map esc bytes.
Proof. induction bytes as [|b bytes IH]; [reflexivity|]. cbn. rewrite <- IH. reflexivity. Qed.

Lemma flat_map_esc_cons b bs r :
  flat_map esc (b :: bs) ++ r = esc b ++ (flat_map esc bs ++ r).
Proof. cbn [flat_map]. apply eq_sym, app_assoc. Qed.

Ltac zcmp :=
  repeat match goal with
  | |- context [?x <? ?y] =>
      let E := fresh "E" in destruct (x <? y) eqn:E; [apply Z.ltb_lt in E|apply Z.ltb_ge in E]
  | |- context [?x <=? ?y] =>
      let E := fresh "E" in destruct (x <=? y) eqn:E; [apply Z.leb_le in E|apply Z.leb_gt in E]
  | |- context [?x =? ?y] =>
      let E := fresh "E" in destruct (x =? y) eqn:E; [apply Z.eqb_eq in E|apply Z.eqb_neq in E]
  end.

Lemma n_ones_range b :
  0 <= b < 256 ->
  (b < 128 -> n_ones b = 0%nat) /\ (128 <= b < 192 -> n_ones b = 1%nat) /\
  (192 <= b < 224 -> n_ones b = 2%nat) /\ (224 <= b < 240 -> n_ones b = 3%nat) /\
  (240 <= b < 248 -> n_ones b = 4%nat) /\ (248 <= b -> n_ones b = 5%nat).
Proof. intro H. unfold n_ones. zcmp; repeat split; intros; lia. Qed.

Lemma esc_cons b r :
  0 <= b < 256 -> exists h1 h2, esc b ++ r = "%"%char :: h1 :: h2 :: r /\ read_byte (h1 :: h2 :: r) = Some (b, r).
Proof.
  intro H. destruct (esc_spec b H) as [h1 [h2 [E R]]]. exists h1, h2. rewrite E. auto.
Qed.

Lemma read_cont_bytes bs r :
  Forall (fun c => 128 <= c < 192) bs ->
  read_continuations (List.length bs) (flat_map esc bs ++ r) = Some (bs, r).
Proof.
  induction bs as [|c bs IH]; intro H; [reflexivity|].
  inversion H as [|? ? Hc Hbs]; subst.
  cbn [List.length flat_map read_continuations]. rewrite <- app_assoc.
  destruct (esc_cons c (flat_map esc bs ++ r)) as [h1 [h2 [E R]]]; [lia|].
  rewrite E. cbn [Ascii.eqb]. rewrite R.
  replace (c / 64 =? 2) with true by (symmetry; apply Z.eqb_eq; Z.div_mod_to_equations; lia).
  rewrite (IH Hbs). reflexivity.
Qed.

Lemma decode_one v f r :
  scalar_value v = true ->
  decode_uri (S f) (flat_map esc (utf8_encode v) ++ r) =
  match decode_uri f r with Some u => Some (utf16 v ++ u) | None => None end.
Proof.
  unfold scalar_value. intro H. repeat rewrite andb_true_iff in H.
  destruct H as [[H1 H2] H3]. apply Z.leb_le in H1. apply Z.leb_le in H2.
  unfold utf8_encode, utf16.
  destruct (v <? 128) eqn:E1; [apply Z.ltb_lt in E1|apply Z.ltb_ge in E1].
  - cbn [flat_map]. rewrite app_nil_r.
    destruct (esc_cons v r) as [h1 [h2 [E R]]]; [lia|]. rewrite E.
    cbn [decode_uri Ascii.eqb Bool.eqb negb]. rewrite R.
    rewrite (proj1 (n_ones_range v ltac:(lia)) E1). cbn [Nat.eqb].
    replace (v <? 65536) with true by (symmetry; apply Z.ltb_lt; lia). reflexivity.
  - destruct (v <? 2048) eqn:E2; [apply Z.ltb_lt in E2|apply Z.ltb_ge in E2].
    + set (b0 := 192 + v / 64). set (b1 := 128 + v mod 64).
      rewrite (flat_map_esc_cons b0 [b1] r).
      destruct (esc_cons b0 (flat_map esc [b1] ++ r)) as [h1 [h2 [E R]]];
        [subst b0; Z.div_mod_to_equations; lia|]. rewrite E.
      cbn [decode_uri Ascii.eqb Bool.eqb negb]. rewrite R.
      rewrite (proj1 (proj2 (proj2 (n_ones_range b0 ltac:(subst b0; Z.div_mod_to_equations; lia))))
                 ltac:(subst b0; Z.div_mod_to_equations; lia)).
      cbn [Nat.eqb orb Nat.ltb Nat.leb Nat.sub].
      assert (RC : read_continuations (List.length [b1]) (flat_map esc [b1] ++ r) = Some ([b1], r))
        by (apply read_cont_bytes; repeat constructor; subst b1; Z.div_mod_to_equations; lia).
      cbn [List.length] in RC. rewrite RC.
      unfold utf8_code_point.
      replace ((b0 mod 32) * 64 + b1 mod 64) with v by (subst b0 b1; Z.div_mod_to_equations; lia).
      replace (128 <=? v) with true by (symmetry; apply Z.leb_le; lia).
      unfold utf16. replace (v <? 65536) with true by (symmetry; apply Z.ltb_lt; lia). reflexivity.
    + destruct (v <? 65536) eqn:E3; [apply Z.ltb_lt in E3|apply Z.ltb_ge in E3].
      * set (b0 := 224 + v / 4096). set (b1 := 128 + (v / 64) mod 64). set (b2 := 128 + v mod 64).
        rewrite (flat_map_esc_cons b0 [b1; b2] r).
        destruct (esc_cons b0 (flat_map esc [b1; b2] ++ r)) as [h1 [h2 [E R]]];
          [subst b0; Z.div_mod_to_equations; lia|]. rewrite E.
        cbn [decode_uri Ascii.eqb Bool.eqb negb]. rewrite R.
        rewrite (proj1 (proj2 (proj2 (proj2 (n_ones_range b0 ltac:(subst b0; Z.div_mod_to_equations; lia)))))
                   ltac:(subst b0; Z.div_mod_to_equations; lia)).
        cbn [Nat.eqb orb Nat.ltb Nat.leb Nat.sub].
        assert (RC : read_continuations (List.length [b1; b2]) (flat_map esc [b1; b2] ++ r) = Some ([b1; b2], r))
            by (apply read_cont_bytes; repeat constructor; first [subst b1 | subst b2]; Z.div_mod_to_equations; lia).
          cbn [List.length] in RC. rewrite RC.
        unfold utf8_code_point.
        replace ((b0 mod 16) * 4096 + (b1 mod 64) * 64 + b2 mod 64) with v
          by (subst b0 b1 b2; Z.div_mod_to_equations; lia).
        apply negb_true_iff in H3.
        rewrite (proj2 (Z.leb_le 2048 v) E2), H3. cbn [andb negb].
        unfold utf16. replace (v <? 65536) with true by (symmetry; apply Z.ltb_lt; lia). reflexivity.
      * set (b0 := 240 + v / 262144). set (b1 := 128 + (v / 4096) mod 64).
        set (b2 := 128 + (v / 64) mod 64). set (b3 := 128 + v mod 64).
        rewrite (flat_map_esc_cons b0 [b1; b2; b3] r).
        destruct (esc_cons b0 (flat_map esc [b1; b2; b3] ++ r)) as [h1 [h2 [E R]]];
          [subst b0; Z.div_mod_to_equations; lia|]. rewrite E.
        cbn [decode_uri Ascii.eqb Bool.eqb negb]. rewrite R.
        rewrite (proj1 (proj2 (proj2 (proj2 (proj2 (n_ones_range b0 ltac:(subst b0; Z.div_mod_to_equations; lia))))))
                   ltac:(subst b0; Z.div_mod_to_equations; lia)).
        cbn [Nat.eqb orb Nat.ltb Nat.leb Nat.sub].
        assert (RC : read_continuations (List.length [b1; b2; b3]) (flat_map esc [b1; b2; b3] ++ r) = Some ([b1; b2; b3], r))
            by (apply read_cont_bytes; repeat apply Forall_cons; try apply Forall_nil; subst b1 b2 b3; Z.div_mod_to_equations; lia).
          cbn [List.length] in RC. rewrite RC.
        unfold utf8_code_point.
        replace ((b0 mod 8) * 262144 + (b1 mod 64) * 4096 + (b2 mod 64) * 64 + b3 mod 64) with v
          by (subst b0 b1 b2 b3; Z.div_mod_to_equations; lia).
        rewrite (proj2 (Z.leb_le 65536 v) E3), (proj2 (Z.leb_le v 1114111) H2). cbn [andb].
        unfold utf16. replace (v <? 65536) with false by (symmetry; apply Z.ltb_ge; lia). reflexivity.
Qed.


Lemma esc_nonempty b : 0 <= b < 256 -> (1 <= List.length (esc b))%nat.
Proof. intro H. destruct (esc_spec b H) as [h1 [h2 [E _]]]. rewrite E. cbn. lia. Qed.

Lemma utf8_encode_nonempty v : utf8_encode v <> [].
Proof. unfold utf8_encode. destruct (v <? 128), (v <? 2048), (v <? 65536); discriminate. Qed.

Lemma utf8_encode_bytes v : scalar_value v = true -> forallb is_byte (utf8_encode v) = true.
Proof.
  unfold scalar_value, is_byte, utf8_encode. intro H. repeat rewrite andb_true_iff in H.
  destruct H as [[H1 H2] _]. apply Z.leb_le in H1. apply Z.leb_le in H2.
  zcmp; cbn [forallb]; rewrite ?andb_true_r; repeat rewrite andb_true_iff;
    repeat split; first [apply Z.leb_le | apply Z.ltb_lt]; Z.div_mod_to_equations; lia.
Qed.

Lemma utf8_encode_all_bytes cps :
  forallb scalar_value cps = true -> forallb is_byte (flat_map utf8_encode cps) = true.
Proof.
  induction cps as [|v cps IH]; intro H; [reflexivity|].
  cbn [forallb] in H. apply andb_prop in H as [Hv H].
  cbn [flat_map]. rewrite forallb_app, utf8_encode_bytes, IH; auto.
Qed.

Lemma is_byte_range b : is_byte b = true -> 0 <= b < 256.
Proof. unfold is_byte. intro H. apply andb_prop in H as [A B]. apply Z.leb_le in A. apply Z.ltb_lt in B. lia. Qed.

Lemma length_flat_map_esc bs :
  forallb is_byte bs = true -> (List.length bs <= List.length (flat_map esc bs))%nat.
Proof.
  induction bs as [|b bs IH]; intro H; [cbn; lia|].
  cbn [forallb] in H. apply andb_prop in H as [Hb H].
  cbn [flat_map]. rewrite length_app. pose proof (esc_nonempty b (is_byte_range b Hb)). cbn. specialize (IH H). lia.
Qed.

Lemma decode_utf8 cps f :
  forallb scalar_value cps = true ->
  (List.length (flat_map esc (flat_map utf8_encode cps)) <= f)%nat ->
  decode_uri f (flat_map esc (flat_map utf8_encode cps)) = Some (flat_map utf16 cps).
Proof.
  revert f. induction cps as [|v cps IH]; intros f H L.
  - destruct f; reflexivity.
  - cbn [forallb] in H. apply andb_prop in H as [Hv H].
    cbn [flat_map] in *. rewrite flat_map_app in *. rewrite length_app in L.
    pose proof (utf8_encode_bytes v Hv) as Bv.
    assert (N : (1 <= List.length (flat_map esc (utf8_encode v)))%nat).
    { pose proof (length_flat_map_esc _ Bv). destruct (utf8_encode v) eqn:U.
      - exfalso. exact (utf8_encode_nonempty v U).
      - cbn in *. lia. }
    destruct f as [|f]; [lia|].
    rewrite (decode_one v f _ Hv), (IH f H) by lia. reflexivity.
Qed.

(** X18: Gmail sends a message part as unpadded base64url of its UTF-8
    bytes; for any sequence of Unicode scalar values, [decodeBase64]
    returns the UTF-16 code units of that text. *)
Theorem decodeBase64_roundtrip cps :
  forallb scalar_value cps = true ->
  decodeBase64 (b64url_encode (flat_map utf8_encode cps)) = flat_map utf16 cps.
Proof.
  intro H. unfold decodeBase64, atob_utf8, atob.
  rewrite (base64url_roundtrip _ (utf8_encode_all_bytes cps H)).
  unfold decodeURIComponent. rewrite percent_encode_bytes.
  rewrite (decode_utf8 cps) by (exact H || lia). reflexivity.
Qed.

(** Every value [b64_bytes] makes from sextets is a byte. *)
Lemma b64_values_range d vs : b64_values d = Some vs -> Forall sextet vs.
Proof.
  revert vs. induction d as [|c d IH]; intros vs H.
  - injection H as <-. constructor.
  - cbn in H. destruct (b64_value c) eqn:V, (b64_values d) eqn:W; try discriminate.
    injection H as <-. constructor; [|apply IH; reflexivity].
    unfold b64_value in V. unfold sextet.
    destruct ((65 <=? Z.of_nat (code c)) && (Z.of_nat (code c) <=? 90)) eqn:A;
      [apply andb_prop in A as [A1 A2]; apply Z.leb_le in A1; apply Z.leb_le in A2;
       injection V as <-; lia|].
    destruct ((97 <=? Z.of_nat (code c)) && (Z.of_nat (code c) <=? 122)) eqn:B;
      [apply andb_prop in B as [B1 B2]; apply Z.leb_le in B1; apply Z.leb_le in B2;
       injection V as <-; lia|].
    destruct ((48 <=? Z.of_nat (code c)) && (Z.of_nat (code c) <=? 57)) eqn:C;
      [apply andb_prop in C as [C1 C2]; apply Z.leb_le in C1; apply Z.leb_le in C2;
       injection V as <-; lia|].
    destruct (Z.of_nat (code c) =? 43); [injection V as <-; lia|].
    destruct (Z.of_nat (code c) =? 47); [injection V as <-; lia|discriminate].
Qed.

Definition byte (b : Z) : Prop := 0 <= b < 256.

Lemma b64_bytes_range vs : Forall sextet vs -> Forall byte (b64_bytes vs).
Proof.
  revert vs. fix F 1. intros [|a [|b [|c [|d r]]]] H; cbn [b64_bytes].
  - constructor.
  - constructor.
  - inversion H as [|? ? Ha H']; inversion H' as [|? ? Hb _]; unfold sextet in *.
    repeat constructor; unfold byte; Z.div_mod_to_equations; lia.
  - inversion H as [|? ? Ha H']; inversion H' as [|? ? Hb H'']; inversion H'' as [|? ? Hc _];
      unfold sextet in *.
    repeat constructor; unfold byte; Z.div_mod_to_equations; lia.
  - inversion H as [|? ? Ha H']; inversion H' as [|? ? Hb H'']; inversion H'' as [|? ? Hc H4];
      inversion H4 as [|? ? Hd Hr]; unfold sextet in *.
    constructor; [unfold byte; Z.div_mod_to_equations; lia|].
    constructor; [unfold byte; Z.div_mod_to_equations; lia|].
    constructor; [unfold byte; Z.div_mod_to_equations; lia|].
    exact (F r Hr).
Qed.

Lemma forgiving_decode_bytes s bytes :
  forgiving_base64_decode s = Some bytes -> Forall byte bytes.
Proof.
  unfold forgiving_base64_decode. cbv zeta.
  destruct (Nat.eqb _ 1); [discriminate|].
  destruct (b64_values _) eqn:V; [|discriminate].
  intro H. injection H as <-. apply b64_bytes_range. eapply b64_values_range. exact V.
Qed.

Lemma n_ones_cases b :
  (n_ones b = 0%nat /\ b < 128) \/ (n_ones b = 1%nat /\ 128 <= b < 192) \/
  (n_ones b = 2%nat /\ 192 <= b < 224) \/ (n_ones b = 3%nat /\ 224 <= b < 240) \/
  (n_ones b = 4%nat /\ 240 <= b < 248) \/ (n_ones b = 5%nat /\ 248 <= b).
Proof. unfold n_ones. zcmp; lia. Qed.

(** A byte that occurs in well-formed UTF-8: not C0, C1 or F5 to FF. *)
Definition utf8_byte (b : Z) : Prop := ~ (b = 192 \/ b = 193 \/ 245 <= b).

Lemma read_cont_split k bs cs r :
  Forall byte bs ->
  read_continuations k (flat_map esc bs) = Some (cs, r) ->
  exists bs2, bs = cs ++ bs2 /\ r = flat_map esc bs2 /\ List.length cs = k /\
              Forall (fun c => c / 64 = 2) cs.
Proof.
  revert bs cs. induction k as [|k IH]; intros bs cs B H.
  - injection H as <- <-. exists bs. auto.
  - destruct bs as [|b bs]; [discriminate|]. inversion B as [|? ? Hb B']; subst.
    cbn [flat_map] in H. destruct (esc_cons b (flat_map esc bs)) as [h1 [h2 [E R]]]; [exact Hb|].
    rewrite E in H. cbn [read_continuations Ascii.eqb Bool.eqb] in H. rewrite R in H.
    destruct (b / 64 =? 2) eqn:D; [apply Z.eqb_eq in D|discriminate].
    destruct (read_continuations k (flat_map esc bs)) as [[cs' r']|] eqn:RC; [|discriminate].
    injection H as <- <-. destruct (IH bs cs' B' RC) as [bs2 [-> [-> [L F]]]].
    exists bs2. cbn. auto.
Qed.

Lemma cont_utf8_byte c : c / 64 = 2 -> utf8_byte c.
Proof. unfold utf8_byte. Z.div_mod_to_equations. lia. Qed.

Lemma decode_utf8_bytes f bs u :
  Forall byte bs -> decode_uri f (flat_map esc bs) = Some u -> Forall utf8_byte bs.
Proof.
  revert bs u. induction f as [|f IH]; intros bs u B H.
  - destruct bs as [|b bs]; [constructor|]. inversion B as [|? ? Hb _]; subst.
    cbn [flat_map] in H. destruct (esc_cons b (flat_map esc bs)) as [h1 [h2 [E _]]]; [exact Hb|].
    rewrite E in H. discriminate.
  - destruct bs as [|b bs]; [constructor|]. inversion B as [|? ? Hb B']; subst.
    cbn [flat_map] in H. destruct (esc_cons b (flat_map esc bs)) as [h1 [h2 [E R]]]; [exact Hb|].
    rewrite E in H. cbn [decode_uri Ascii.eqb Bool.eqb negb] in H. rewrite R in H. cbv zeta in H.
    destruct (n_ones_cases b) as [[N Hr]|[[N Hr]|[[N Hr]|[[N Hr]|[[N Hr]|[N Hr]]]]]];
      rewrite N in H; cbn [Nat.eqb orb Nat.ltb Nat.leb Nat.sub] in H; try discriminate.
    + destruct (decode_uri f (flat_map esc bs)) eqn:D; [|discriminate].
      constructor; [unfold utf8_byte; lia|]. exact (IH bs l B' D).
    + destruct (read_continuations 1 (flat_map esc bs)) as [[cs r']|] eqn:RC; [|discriminate].
      destruct (read_cont_split _ _ _ _ B' RC) as [bs2 [-> [-> [L C]]]].
      apply Forall_app in B' as [_ B2].
      destruct (decode_uri f (flat_map esc bs2)) eqn:D;
        [|destruct (utf8_code_point _ _ _); discriminate].
      destruct cs as [|c1 [|c2 cs]]; try discriminate. unfold utf8_code_point in H.
      destruct (128 <=? b mod 32 * 64 + c1 mod 64) eqn:V; [apply Z.leb_le in V|discriminate].
      inversion C as [|? ? C1 _]; subst.
      constructor; [unfold utf8_byte; Z.div_mod_to_equations; lia|].
      apply Forall_app. split; [constructor; [apply cont_utf8_byte; exact C1|constructor]|].
      exact (IH bs2 l B2 D).
    + destruct (read_continuations 2 (flat_map esc bs)) as [[cs r']|] eqn:RC; [|discriminate].
      destruct (read_cont_split _ _ _ _ B' RC) as [bs2 [-> [-> [L C]]]].
      apply Forall_app in B' as [_ B2].
      destruct (decode_uri f (flat_map esc bs2)) eqn:D;
        [|destruct (utf8_code_point _ _ _); discriminate].
      constructor; [unfold utf8_byte; lia|].
      apply Forall_app. split; [|exact (IH bs2 l B2 D)].
      eapply Forall_impl; [|exact C]. exact cont_utf8_byte.
    + destruct (read_continuations 3 (flat_map esc bs)) as [[cs r']|] eqn:RC; [|discriminate].
      destruct (read_cont_split _ _ _ _ B' RC) as [bs2 [-> [-> [L C]]]].
      apply Forall_app in B' as [_ B2].
      destruct (decode_uri f (flat_map esc bs2)) eqn:D;
        [|destruct (utf8_code_point _ _ _); discriminate].
      destruct cs as [|c1 [|c2 [|c3 [|c4 cs]]]]; try discriminate. unfold utf8_code_point in H.
      destruct ((65536 <=? b mod 8 * 262144 + c1 mod 64 * 4096 + c2 mod 64 * 64 + c3 mod 64) &&
                (b mod 8 * 262144 + c1 mod 64 * 4096 + c2 mod 64 * 64 + c3 mod 64 <=? 1114111)) eqn:V;
        [|discriminate].
      apply andb_prop in V as [_ V]. apply Z.leb_le in V.
      constructor; [unfold utf8_byte; Z.div_mod_to_equations; lia|].
      apply Forall_app. split; [|exact (IH bs2 l B2 D)].
      eapply Forall_impl; [|exact C]. exact cont_utf8_byte.
Qed.

(** X19: [decodeBase64] gives the empty result, as its [catch] does,
    when the input has one base64 character too many (its length without
    whitespace is 1 mod 4) and when the decoded bytes hold C0, C1 or F5 to
    FF, bytes that never occur in UTF-8. *)
Theorem decodeBase64_rejects s :
  ((List.length (filter (fun c => negb (ascii_ws c)) (Gmail.normalize_b64 s)) mod 4 = 1)%nat ->
   decodeBase64 s = []) /\
  (forall bytes b,
   forgiving_base64_decode (Gmail.normalize_b64 s) = Some bytes -> In b bytes ->
   b = 192 \/ b = 193 \/ 245 <= b -> decodeBase64 s = []).
Proof.
  split.
  - intro L. unfold decodeBase64, atob_utf8, atob, forgiving_base64_decode. cbv zeta.
    rewrite L. cbn [Nat.eqb]. rewrite L. reflexivity.
  - intros bytes b D I Hb. unfold decodeBase64, atob_utf8, atob. rewrite D.
    unfold decodeURIComponent. rewrite percent_encode_bytes.
    pose proof (forgiving_decode_bytes _ _ D) as B.
    destruct (decode_uri _ (flat_map esc bytes)) eqn:E; [|reflexivity].
    exfalso. pose proof (decode_utf8_bytes _ _ _ B E) as U.
    rewrite Forall_forall in U. exact (U b I Hb).
Qed.

End Base64Proofs.

Module InterleavingProofs.
Import AI Background GmailApi Worker Interleaving.

Lemma run_done summ k n : run_tasks summ (repeat 0 k) [TDone] n = ([TDone], n, []).
Proof. induction k as [|k IH]; [reflexivity|]. cbn [repeat run_tasks nth advance replace_nth]. rewrite IH. reflexivity. Qed.

Lemma run_alone summ es n k :
  3 * List.length es + 1 <= k ->
  run_tasks summ (repeat 0 k) [TLoop es] n =
  ([TDone], fst (process_unread summ es n), snd (process_unread summ es n)).
Proof.
  revert n k. induction es as [|e es IH]; intros n k Hk.
  - destruct k as [|k]; [cbn in Hk; lia|]. cbn [repeat run_tasks nth advance replace_nth].
    rewrite run_done. reflexivity.
  - destruct k as [|k]; [cbn in Hk; lia|]. cbn [repeat run_tasks nth advance replace_nth process_unread].
    destruct (set_has (processedMessages n) (email_id e)).
    + rewrite IH by (cbn in Hk; lia). reflexivity.
    + destruct k as [|[|k]]; [cbn in Hk; lia|cbn in Hk; lia|].
      cbn [repeat run_tasks nth advance replace_nth].
      rewrite IH by (cbn in Hk; lia).
      destruct (process_unread summ es (markAsProcessed (email_id e) n)). reflexivity.
Qed.

Lemma markAsProcessed_twice x n : markAsProcessed x (markAsProcessed x n) = markAsProcessed x n.
Proof.
  assert (E : set_add x (set_add x (processedMessages n)) = set_add x (processedMessages n)).
  { unfold set_add at 1. rewrite DedupProofs.set_has_add, jstr_eqb_refl, orb_true_r. reflexivity. }
  unfold markAsProcessed. cbn [processedMessages]. rewrite E. reflexivity.
Qed.

(** *** [X20] Checks in flight share the processed set.  A check that
    runs alone (one resumption after another) creates exactly the
    notifications of the sequential loop [process_unread].  Two checks
    whose listings both hold an email not yet processed can both pass the
    [has(email.id)] test before either marks it, and then both notify it:
    the same notification id is created twice. *)
Theorem overlapping_checks_notify_twice summ es n e :
  (forall k, 3 * List.length es + 1 <= k ->
   run_tasks summ (repeat 0 k) [TLoop es] n =
   ([TDone], fst (process_unread summ es n), snd (process_unread summ es n))) /\
  (set_has (processedMessages n) (email_id e) = false ->
   run_tasks summ [0; 1; 0; 1; 0; 1; 0; 1] [TLoop [e]; TLoop [e]] n =
   ([TDone; TDone], markAsProcessed (email_id e) n, [notify summ e; notify summ e])).
Proof.
  split; [intros k Hk; apply run_alone; exact Hk|].
  intro H. cbn [run_tasks nth advance replace_nth]. rewrite H.
  cbn [run_tasks nth advance replace_nth]. rewrite H.
  cbn [run_tasks nth advance replace_nth app]. rewrite markAsProcessed_twice. reflexivity.
Qed.

End InterleavingProofs.

Module ExtraWitnesses.
Import AI Background GmailApi StoredSettings Worker ExtraSpec.

(** [X1] With a DOM, the text of a paragraph is collapsed and trimmed. *)
Lemma stripHtml_dom_text_witness :
  Html.stripHtml (fun _ => Some (js " Hi  there ")) (js "<p>Hi  there</p>") = js "Hi there".
Proof.
  pose proof (HtmlProofs.stripHtml_dom_text (fun _ => Some (js " Hi  there "))
                (js "<p>Hi  there</p>")) as T.
  cbv zeta in T. destruct T as [_ [_ [_ H]]].
  rewrite (H (js " Hi  there ") eq_refl). vm_compute. reflexivity.
Defined.

(** [X2] Without a DOM, plain text passes unchanged. *)
Lemma stripHtml_fallback_no_tags_witness :
  Html.stripHtml (fun _ => None) (js "Hello world") = js "Hello world".
Proof.
  apply (proj2 (HtmlProofs.stripHtml_fallback_no_tags (js "Hello world")));
    vm_compute; reflexivity.
Defined.

(** [X4] A listing of two ids whose details both load. *)
Lemma getUnreadEmails_first_ten_witness :
  getUnreadEmails (fun _ => None) (fun s => s)
    (ApiResponse 200 (js "OK") (inr {| messages := Some [js "m1"; js "m2"] |}))
    (fun i => ApiResponse 200 (js "OK") (inr (demo_message i))) =
  Ok (map (fun i => parseMessage (fun _ => None) (fun s => s) (demo_message i)) [js "m1"; js "m2"]).
Proof.
  apply (proj2 (GmailApiProofs.getUnreadEmails_first_ten (fun _ => None) (fun s => s)
           (ApiResponse 200 (js "OK") (inr {| messages := Some [js "m1"; js "m2"] |}))
           (fun i => ApiResponse 200 (js "OK") (inr (demo_message i))))
         200 (js "OK") {| messages := Some [js "m1"; js "m2"] |} demo_message eq_refl eq_refl).
  intros i _. exists 200, (js "OK"). split; reflexivity.
Defined.

(** [X6] Saving a blank key leaves a processor that has not loaded its
    settings on the rule-based path. *)
Lemma processEmail_no_key_witness :
  AI.processEmail (fun _ => None)
    (ai_settings (fst (loadSettings (Some (saveApiKey None (js "   "))) None)))
    (js "Lunch") (js "see you at noon") NetworkError =
  basicFallback (js "Lunch") (cleanEmail (js "see you at noon")).
Proof.
  apply (proj1 (proj2 (AIProofs.processEmail_no_key (fun _ => None) None (js "   ") (js "Lunch")
                  (js "see you at noon") NetworkError))).
  vm_compute. reflexivity.
Defined.

(** [X7] Saving a key keeps a stored interval of 120 seconds. *)
Lemma saveApiKey_keeps_interval_witness :
  polling_interval int_string_to_number (Some (saveApiKey stored_120 (js " sk-1 "))) = 120%Q /\
  api_key_of (fst (loadSettings (Some (saveApiKey stored_120 (js " sk-1 "))) None)) = js "sk-1".
Proof.
  destruct (AIProofs.saveApiKey_keeps_interval int_string_to_number stored_120 (js " sk-1 ")
              (or_intror (ex_intro _ _ eq_refl))) as [H1 [H2 _]].
  rewrite H1, H2. split; vm_compute; reflexivity.
Defined.

(** [X10] The session notifies the listed email once. *)
Lemma run_notifies_once_witness :
  let '(w', ns) := run int_string_to_number demo_session installed in
  NoDup (map notif_id ns) /\
  (forall id, In id (processedMessages (notifier installed)) ->
              ~ In (js "gmail-" ++ id) (map notif_id ns)) /\
  synced (notifier w').
Proof.
  apply (WorkerProofs.run_notifies_once int_string_to_number demo_session installed).
  - split; [right; split; reflexivity | constructor].
  - reflexivity.
Defined.

(** [X11] After the session, a startup reloads the same set. *)
Lemma startup_restores_set_witness :
  let w' := fst (run int_string_to_number (demo_session ++ [EClear; demo_check]) installed) in
  synced (notifier w') /\ notifier (fst (step int_string_to_number EStartup w')) = notifier w'.
Proof.
  apply (WorkerProofs.startup_restores_set int_string_to_number
           (demo_session ++ [EClear; demo_check]) installed).
  - split; [right; split; reflexivity | constructor].
  - reflexivity.
Defined.

(** [X12] The email the session processed is notified again after a
    wake. *)
Lemma wake_renotifies_witness :
  let w := fst (run int_string_to_number demo_session installed) in
  run int_string_to_number [EWake; demo_check] w = (fresh w, []) /\
  alarm (fresh w) = alarm w /\
  let '(w', ns) := run int_string_to_number
                     [EWake; EToggle (Granted demo_token);
                      ECheck (Granted demo_token) (Granted demo_token)
                        (fun _ => Ok [sample_email]) rule_summary] w in
  ns = [notify rule_summary sample_email] /\
  processed_messages (storage (notifier w')) = Some [email_id sample_email].
Proof.
  apply (WorkerProofs.wake_renotifies int_string_to_number
           (fst (run int_string_to_number demo_session installed)) demo_token
           (Granted demo_token) (Granted demo_token) demo_unread rule_summary sample_email).
  - vm_compute. reflexivity.
  - discriminate.
Defined.

(** [X13] A running worker without a token obtains one, and keeps it
    when the listing then fails with a server error. *)
Lemma check_error_recovery_witness :
  let w := with_token [] (fst (togglePolling (Granted demo_token) installed)) in
  checkForNewEmails (Granted demo_token) (Granted (js "ya29.new"))
    (fun _ => Err (js "Gmail API error: 500 Internal Server Error")) rule_summary w =
  (with_token demo_token w, []).
Proof.
  cbv zeta.
  rewrite (proj1 (proj2 (WorkerProofs.check_error_recovery (Granted demo_token) (Granted (js "ya29.new"))
             (fun _ => Err (js "Gmail API error: 500 Internal Server Error")) rule_summary
             (with_token [] (fst (togglePolling (Granted demo_token) installed)))))
             demo_token (js "Gmail API error: 500 Internal Server Error")).
  - vm_compute. reflexivity.
  - reflexivity.
  - right. split; reflexivity.
  - reflexivity.
Defined.

(** [X14] A stored interval of 120 seconds is kept. *)
Lemma polling_interval_floor_witness :
  polling_interval int_string_to_number stored_120 = 120%Q.
Proof.
  pose proof (PollingProofs.polling_interval_floor int_string_to_number stored_120) as T.
  cbv zeta in T. destruct T as [_ [_ H]]. apply H.
  - vm_compute. reflexivity.
  - apply Qle_bool_iff. reflexivity.
Defined.

(** [X17] A running worker without a token authenticates, lists the same
    email twice and notifies it once. *)
Lemma check_notifies_new_witness :
  let w := with_token [] (fst (togglePolling (Granted demo_token) installed)) in
  let '(w', ns) := checkForNewEmails (Granted demo_token) (Granted demo_token) demo_unread
                     rule_summary w in
  (forall e, In e [sample_email; sample_email] ->
             set_has (processedMessages (notifier w')) (email_id e) = true) /\
  (forall e, In e [sample_email; sample_email] ->
             set_has (processedMessages (notifier w)) (email_id e) = false ->
             In (js "gmail-" ++ email_id e) (map notif_id ns)) /\
  (forall x, In x ns -> exists e, In e [sample_email; sample_email] /\ x = notify rule_summary e /\
             set_has (processedMessages (notifier w)) (email_id e) = false) /\
  authToken w' = demo_token.
Proof.
  apply (PollingProofs.check_notifies_new (Granted demo_token) (Granted demo_token) demo_unread
           rule_summary (with_token [] (fst (togglePolling (Granted demo_token) installed)))
           demo_token [sample_email; sample_email]).
  - reflexivity.
  - right. split; reflexivity.
  - reflexivity.
Defined.

(** [X18] ["Hi \u00e9 \u{1F600}"] survives the trip through base64url. *)
Lemma decodeBase64_roundtrip_witness :
  Base64.decodeBase64 (Base64Spec.b64url_encode
    (flat_map Base64Spec.utf8_encode [72; 105; 32; 233; 32; 128512]%Z)) =
  [72; 105; 32; 233; 32; 55357; 56832]%Z.
Proof.
  rewrite (Base64Proofs.decodeBase64_roundtrip [72; 105; 32; 233; 32; 128512]%Z eq_refl).
  reflexivity.
Defined.

(** [X19] One character too many, and the byte FF. *)
Lemma decodeBase64_rejects_witness :
  Base64.decodeBase64 (js "SGkgw") = [] /\ Base64.decodeBase64 (js "_w") = [].
Proof.
  split.
  - apply (proj1 (Base64Proofs.decodeBase64_rejects (js "SGkgw"))). reflexivity.
  - apply (proj2 (Base64Proofs.decodeBase64_rejects (js "_w")) [255%Z] 255%Z).
    + reflexivity.
    + left. reflexivity.
    + right. right. discriminate.
Defined.

(** [X20] Two checks listing [sample_email] on a fresh install both
    notify it. *)
Lemma overlapping_checks_notify_twice_witness :
  Interleaving.run_tasks rule_summary [0; 1; 0; 1; 0; 1; 0; 1]
    [Interleaving.TLoop [sample_email]; Interleaving.TLoop [sample_email]] (notifier installed) =
  ([Interleaving.TDone; Interleaving.TDone],
   Background.markAsProcessed (email_id sample_email) (notifier installed),
   [notify rule_summary sample_email; notify rule_summary sample_email]).
Proof.
  apply (proj2 (InterleavingProofs.overlapping_checks_notify_twice rule_summary [sample_email]
                  (notifier installed) sample_email)).
  reflexivity.
Defined.

End ExtraWitnesses.
